(** * AgentBountyBoard: a shallow embedding of the Dutch-auction job board

    The contract [AgentBountyBoard] (Solidity ^0.8.20) keeps an array of jobs
    and a mapping of per-agent statistics, and moves CLAWD tokens through an
    [IERC20] token it was deployed with.  This development embeds

    - the storage layout ([Job], [AgentStats], the [jobs] array, the
      [agentStats] mapping and the reentrancy flag),
    - the checked [uint256] arithmetic of Solidity 0.8 (overflow, underflow
      and division by zero revert with a panic),
    - every external function of the contract as a function from a world
      (board storage and token ledger) to a result, and
    - the transaction semantics of the EVM: a reverted call leaves the world
      as it was.

    Events are not part of the state and are left out.  The token, the
    [SafeERC20] wrappers and the [ReentrancyGuard] are imported by the
    contract from OpenZeppelin: the token is a parameter of the development
    (a type class), the wrappers and the guard are written out as the
    library defines them.

    The second half proves the properties of the job life cycle and of the
    escrow accounting. *)

From Stdlib Require Import ZArith Lia String Ascii.
From stdpp Require Import base option list gmap strings pretty relations.

Local Open Scope Z_scope.

(** ** Errors and the result monad *)

(** The ways a call can revert.  [Revert] carries the message of the failing
    [require]; [Panic] carries the code of a compiler-inserted check
    (0x11 arithmetic overflow or underflow, 0x12 division by zero, 0x32 array
    index out of bounds); [TokenCallFailed] is a [safeTransfer] or
    [safeTransferFrom] whose token call failed; [ReentrancyGuardReentrantCall]
    is the error of the [nonReentrant] modifier. *)
Inductive Error : Type :=
| Revert (reason : string)
| Panic (code : Z)
| TokenCallFailed
| ReentrancyGuardReentrantCall.

Inductive result (A : Type) : Type :=
| Ok (a : A)
| Err (e : Error).

Arguments Ok {A} a.
Arguments Err {A} e.
Arguments Revert reason%_string.

#[global] Instance result_ret : MRet result := fun A a => Ok a.

#[global] Instance result_bind : MBind result :=
  fun A B f m => match m with Ok a => f a | Err e => Err e end.

Definition is_Ok {A} (r : result A) : Prop := exists a, r = Ok a.

Definition require (cond : bool) (reason : string) : result unit :=
  if cond then Ok tt else Err (Revert reason).

(** ** Checked [uint256] arithmetic *)

Definition MAX_UINT256 : Z := 2 ^ 256 - 1.

Definition uint256 (x : Z) : Prop := 0 <= x <= MAX_UINT256.

Definition PANIC_ARITHMETIC : Z := 17.      (* 0x11 *)
Definition PANIC_DIV_BY_ZERO : Z := 18.     (* 0x12 *)
Definition PANIC_OUT_OF_BOUNDS : Z := 50.   (* 0x32 *)

Definition checked_add (a b : Z) : result Z :=
  if a + b <=? MAX_UINT256 then Ok (a + b) else Err (Panic PANIC_ARITHMETIC).

Definition checked_sub (a b : Z) : result Z :=
  if b <=? a then Ok (a - b) else Err (Panic PANIC_ARITHMETIC).

Definition checked_mul (a b : Z) : result Z :=
  if a * b <=? MAX_UINT256 then Ok (a * b) else Err (Panic PANIC_ARITHMETIC).

Definition checked_div (a b : Z) : result Z :=
  if b =? 0 then Err (Panic PANIC_DIV_BY_ZERO) else Ok (a / b).

(** ** Storage *)

Definition address : Type := Z.

Inductive JobStatus : Type :=
| Open        (* Auction running, waiting for an agent to claim *)
| Claimed     (* Agent claimed, working on it *)
| Submitted   (* Agent submitted work, waiting for poster review *)
| Completed   (* Poster approved, agent paid *)
| Disputed    (* Poster disputed, escrow refunded to poster *)
| Expired     (* Work deadline passed without submission *)
| Cancelled.  (* Poster cancelled before anyone claimed *)

#[global] Instance JobStatus_eq_dec : EqDecision JobStatus.
Proof. solve_decision. Defined.

Record Job : Type := mkJob {
  poster : address;
  description : string;
  minPrice : Z;
  maxPrice : Z;
  auctionStart : Z;
  auctionDuration : Z;
  workDeadline : Z;
  claimedAt : Z;
  agent : address;
  agentId : Z;
  submissionURI : string;
  paidAmount : Z;
  rating : Z;
  status : JobStatus
}.

Record AgentStats : Type := mkAgentStats {
  completedJobs : Z;
  disputedJobs : Z;
  totalEarned : Z;
  totalRating : Z
}.

(** A storage slot that was never written reads as zero. *)
Definition noStats : AgentStats := mkAgentStats 0 0 0 0.

Record Board : Type := mkBoard {
  jobs : list Job;
  agentStats : gmap address AgentStats;
  _entered : bool   (* ReentrancyGuard: true while a guarded call runs *)
}.

Definition statsAt (m : gmap address AgentStats) (a : address) : AgentStats :=
  default noStats (m !! a).

(** [jobs[jobId]]: an index past the end of the array panics. *)
Definition jobAt (b : Board) (jobId : Z) : result Job :=
  match jobs b !! Z.to_nat jobId with
  | Some job => Ok job
  | None => Err (Panic PANIC_OUT_OF_BOUNDS)
  end.

(** ** The auction price *)

Definition _getCurrentPrice (now : Z) (job : Job) : result Z :=
  auctionEnd ← checked_add (auctionStart job) (auctionDuration job);
  if auctionEnd <=? now then Ok (maxPrice job)
  else
    elapsed ← checked_sub now (auctionStart job);
    range ← checked_sub (maxPrice job) (minPrice job);
    scaled ← checked_mul range elapsed;
    ramp ← checked_div scaled (auctionDuration job);
    checked_add (minPrice job) ramp.

Definition getCurrentPrice (now : Z) (jobId : Z) (b : Board) : result Z :=
  _ ← require (jobId <? Z.of_nat (length (jobs b))) "Job does not exist";
  job ← jobAt b jobId;
  _getCurrentPrice now job.

Definition getJobCount (b : Board) : Z := Z.of_nat (length (jobs b)).

Definition getJobCore (jobId : Z) (b : Board)
  : result (address * string * Z * Z * Z * Z * Z * JobStatus) :=
  job ← jobAt b jobId;
  Ok (poster job, description job, minPrice job, maxPrice job,
      auctionStart job, auctionDuration job, workDeadline job, status job).

Definition getJobAgent (jobId : Z) (b : Board)
  : result (address * Z * Z * string * Z * Z) :=
  job ← jobAt b jobId;
  Ok (agent job, agentId job, claimedAt job,
      submissionURI job, paidAmount job, rating job).

Definition getAgentStats (a : address) (b : Board) : Z * Z * Z * Z :=
  let stats := statsAt (agentStats b) a in
  let avg := if 0 <? completedJobs stats
             then totalRating stats / completedJobs stats
             else 0 in
  (completedJobs stats, disputedJobs stats, totalEarned stats, avg).

(** The agents page of the front end reads [getAgentStats] and shows the
    average rating as [avgRating > 0 ? `${avgRating}/5` : "N/A"], where
    [avgRating] is [agentStats ? Number(agentStats[3]) : 0]: statistics that
    have not been read count as 0. *)
Inductive RatingLabel : Type :=
| Stars (avgRating : Z)
| NotAvailable.

Definition avgRatingLabel (agentStats : option (Z * Z * Z * Z)) : RatingLabel :=
  let avgRating := match agentStats with
                   | Some (_, _, _, avg) => avg
                   | None => 0
                   end in
  if 0 <? avgRating then Stars avgRating else NotAvailable.

(** Field updates of a job held in storage. *)
Definition with_status (s : JobStatus) (j : Job) : Job :=
  mkJob (poster j) (description j) (minPrice j) (maxPrice j) (auctionStart j)
        (auctionDuration j) (workDeadline j) (claimedAt j) (agent j) (agentId j)
        (submissionURI j) (paidAmount j) (rating j) s.

Definition with_rating (r : Z) (j : Job) : Job :=
  mkJob (poster j) (description j) (minPrice j) (maxPrice j) (auctionStart j)
        (auctionDuration j) (workDeadline j) (claimedAt j) (agent j) (agentId j)
        (submissionURI j) (paidAmount j) r (status j).

Definition with_agent (a : address) (j : Job) : Job :=
  mkJob (poster j) (description j) (minPrice j) (maxPrice j) (auctionStart j)
        (auctionDuration j) (workDeadline j) (claimedAt j) a (agentId j)
        (submissionURI j) (paidAmount j) (rating j) (status j).

Definition with_agentId (i : Z) (j : Job) : Job :=
  mkJob (poster j) (description j) (minPrice j) (maxPrice j) (auctionStart j)
        (auctionDuration j) (workDeadline j) (claimedAt j) (agent j) i
        (submissionURI j) (paidAmount j) (rating j) (status j).

Definition with_claimedAt (t : Z) (j : Job) : Job :=
  mkJob (poster j) (description j) (minPrice j) (maxPrice j) (auctionStart j)
        (auctionDuration j) (workDeadline j) t (agent j) (agentId j)
        (submissionURI j) (paidAmount j) (rating j) (status j).

Definition with_paidAmount (p : Z) (j : Job) : Job :=
  mkJob (poster j) (description j) (minPrice j) (maxPrice j) (auctionStart j)
        (auctionDuration j) (workDeadline j) (claimedAt j) (agent j) (agentId j)
        (submissionURI j) p (rating j) (status j).

Definition with_submissionURI (u : string) (j : Job) : Job :=
  mkJob (poster j) (description j) (minPrice j) (maxPrice j) (auctionStart j)
        (auctionDuration j) (workDeadline j) (claimedAt j) (agent j) (agentId j)
        u (paidAmount j) (rating j) (status j).

(** [jobs[jobId] = job], [jobs.push(job)] and [agentStats[a] = stats]. *)
Definition setJob (jobId : Z) (job : Job) (b : Board) : Board :=
  mkBoard (<[Z.to_nat jobId := job]> (jobs b)) (agentStats b) (_entered b).

Definition pushJob (job : Job) (b : Board) : Board :=
  mkBoard (jobs b ++ [job]) (agentStats b) (_entered b).

Definition setStats (a : address) (stats : AgentStats) (b : Board) : Board :=
  mkBoard (jobs b) (<[a := stats]> (agentStats b)) (_entered b).

(** ** The token

    The board is written against the interface [IERC20].  A token is a type
    of ledgers with the three entry points the board uses; the first argument
    of [transfer] and [transferFrom] is the caller of the token ([msg.sender]
    there).  [None] is a call that reverted or returned [false]. *)
Class IERC20 (T : Type) : Type := {
  balanceOf : T -> address -> Z;
  transfer : address -> address -> Z -> T -> option T;
  transferFrom : address -> address -> address -> Z -> T -> option T
}.

(** What the escrow accounting needs from a token: a holder can always send
    what it holds to a non-zero address, a transfer debits the sender by the
    amount sent and a pull credits the receiver by the amount pulled. *)
Class StandardToken (T : Type) `{IERC20 T} : Prop := {
  transfer_succeeds (tok : T) (from to value : Z) :
    from <> 0 -> to <> 0 -> 0 <= value <= balanceOf tok from ->
    is_Some (transfer from to value tok);
  transfer_debits (tok tok' : T) (from to value : Z) :
    transfer from to value tok = Some tok' -> from <> to ->
    balanceOf tok' from = balanceOf tok from - value;
  transferFrom_credits (tok tok' : T) (spender from to value : Z) :
    transferFrom spender from to value tok = Some tok' -> from <> to ->
    balanceOf tok' to = balanceOf tok to + value
}.

(** The world a transaction runs in: the address the board is deployed at,
    its storage, and the ledger of the token [clawd]. *)
Record World (T : Type) : Type := mkWorld {
  this : address;
  board : Board;
  clawd : T
}.

Arguments mkWorld {T} this board clawd.
Arguments this {T} w.
Arguments board {T} w.
Arguments clawd {T} w.

Record Env : Type := mkEnv {
  msg_sender : address;
  block_timestamp : Z
}.

Section Contract.
Context {T : Type} `{IERC20 T}.

(** SafeERC20: a failed token call reverts the caller. *)
Definition safeTransfer (self to : address) (value : Z) (tok : T) : result T :=
  match transfer self to value tok with
  | Some tok' => Ok tok'
  | None => Err TokenCallFailed
  end.

Definition safeTransferFrom (self from to : address) (value : Z) (tok : T)
  : result T :=
  match transferFrom self from to value tok with
  | Some tok' => Ok tok'
  | None => Err TokenCallFailed
  end.

(** ReentrancyGuard: the modifier [nonReentrant] runs [_nonReentrantBefore],
    the body, and [_nonReentrantAfter]. *)
Definition with_entered (e : bool) (w : World T) : World T :=
  mkWorld (this w) (mkBoard (jobs (board w)) (agentStats (board w)) e) (clawd w).

Definition _nonReentrantBefore (w : World T) : result (World T) :=
  if _entered (board w) then Err ReentrancyGuardReentrantCall
  else Ok (with_entered true w).

Definition _nonReentrantAfter (w : World T) : World T := with_entered false w.

(** *** Poster actions *)

Definition postJob (env : Env) (description : string)
    (minPrice maxPrice auctionDuration workDeadline : Z) (w : World T)
  : result (Z * World T) :=
  w ← _nonReentrantBefore w;
  _ ← require (0 <? maxPrice) "Max price must be > 0";
  _ ← require (minPrice <=? maxPrice) "Max must be >= min";
  _ ← require (0 <? auctionDuration) "Auction duration must be > 0";
  _ ← require (0 <? workDeadline) "Work deadline must be > 0";
  _ ← require (0 <? String.length description)%nat "Description required";
  tok ← safeTransferFrom (this w) (msg_sender env) (this w) maxPrice (clawd w);
  let jobId := Z.of_nat (length (jobs (board w))) in
  let job := mkJob (msg_sender env) description minPrice maxPrice
                   (block_timestamp env) auctionDuration workDeadline
                   0 0 0 EmptyString 0 0 Open in
  Ok (jobId, _nonReentrantAfter (mkWorld (this w) (pushJob job (board w)) tok)).

Definition approveWork (env : Env) (jobId rating : Z) (w : World T)
  : result (World T) :=
  w ← _nonReentrantBefore w;
  job ← jobAt (board w) jobId;
  _ ← require (msg_sender env =? poster job) "Only poster can approve";
  _ ← require (bool_decide (status job = Submitted)) "Job not submitted";
  _ ← require (rating <=? 100) "Rating must be 0-100";
  let job := with_rating rating (with_status Completed job) in
  let stats := statsAt (agentStats (board w)) (agent job) in
  completed ← checked_add (completedJobs stats) 1;
  earned ← checked_add (totalEarned stats) (paidAmount job);
  rated ← checked_add (totalRating stats) rating;
  let stats := mkAgentStats completed (disputedJobs stats) earned rated in
  tok ← safeTransfer (this w) (agent job) (paidAmount job) (clawd w);
  Ok (_nonReentrantAfter
        (mkWorld (this w) (setStats (agent job) stats (setJob jobId job (board w)))
                 tok)).

Definition disputeWork (env : Env) (jobId : Z) (w : World T) : result (World T) :=
  w ← _nonReentrantBefore w;
  job ← jobAt (board w) jobId;
  _ ← require (msg_sender env =? poster job) "Only poster can dispute";
  _ ← require (bool_decide (status job = Submitted)) "Job not submitted";
  let job := with_status Disputed job in
  let stats := statsAt (agentStats (board w)) (agent job) in
  disputed ← checked_add (disputedJobs stats) 1;
  let stats := mkAgentStats (completedJobs stats) disputed (totalEarned stats)
                            (totalRating stats) in
  tok ← safeTransfer (this w) (poster job) (paidAmount job) (clawd w);
  Ok (_nonReentrantAfter
        (mkWorld (this w) (setStats (agent job) stats (setJob jobId job (board w)))
                 tok)).

Definition cancelJob (env : Env) (jobId : Z) (w : World T) : result (World T) :=
  w ← _nonReentrantBefore w;
  job ← jobAt (board w) jobId;
  _ ← require (msg_sender env =? poster job) "Only poster can cancel";
  _ ← require (bool_decide (status job = Open)) "Job not open";
  let job := with_status Cancelled job in
  tok ← safeTransfer (this w) (poster job) (maxPrice job) (clawd w);
  Ok (_nonReentrantAfter (mkWorld (this w) (setJob jobId job (board w)) tok)).

(** *** Agent actions *)

Definition claimJob (env : Env) (jobId agentId : Z) (w : World T)
  : result (World T) :=
  w ← _nonReentrantBefore w;
  job ← jobAt (board w) jobId;
  _ ← require (bool_decide (status job = Open)) "Job not open";
  _ ← require (negb (msg_sender env =? poster job)) "Poster cannot claim own job";
  currentPrice ← _getCurrentPrice (block_timestamp env) job;
  let job := with_paidAmount currentPrice
               (with_claimedAt (block_timestamp env)
                  (with_agentId agentId
                     (with_agent (msg_sender env)
                        (with_status Claimed job)))) in
  refund ← checked_sub (maxPrice job) currentPrice;
  tok ← (if 0 <? refund
         then safeTransfer (this w) (poster job) refund (clawd w)
         else Ok (clawd w));
  Ok (_nonReentrantAfter (mkWorld (this w) (setJob jobId job (board w)) tok)).

Definition submitWork (env : Env) (jobId : Z) (submissionURI : string)
    (w : World T) : result (World T) :=
  job ← jobAt (board w) jobId;
  _ ← require (msg_sender env =? agent job) "Only assigned agent";
  _ ← require (bool_decide (status job = Claimed)) "Job not claimed";
  _ ← require (0 <? String.length submissionURI)%nat "Submission URI required";
  deadline ← checked_add (claimedAt job) (workDeadline job);
  _ ← require (block_timestamp env <=? deadline) "Work deadline passed";
  let job := with_submissionURI submissionURI (with_status Submitted job) in
  Ok (mkWorld (this w) (setJob jobId job (board w)) (clawd w)).

(** *** Housekeeping *)

Definition expireJob (env : Env) (jobId : Z) (w : World T) : result (World T) :=
  w ← _nonReentrantBefore w;
  job ← jobAt (board w) jobId;
  _ ← require (bool_decide (status job = Claimed)) "Job not in claimed state";
  deadline ← checked_add (claimedAt job) (workDeadline job);
  _ ← require (deadline <? block_timestamp env) "Deadline not yet passed";
  let job := with_status Expired job in
  tok ← safeTransfer (this w) (poster job) (paidAmount job) (clawd w);
  Ok (_nonReentrantAfter (mkWorld (this w) (setJob jobId job (board w)) tok)).

End Contract.

(** ** Transactions *)

Inductive Call : Type :=
| PostJob (description : string)
          (minPrice maxPrice auctionDuration workDeadline : Z)
| ApproveWork (jobId rating : Z)
| DisputeWork (jobId : Z)
| CancelJob (jobId : Z)
| ClaimJob (jobId agentId : Z)
| SubmitWork (jobId : Z) (submissionURI : string)
| ExpireJob (jobId : Z).

Section Transactions.
Context {T : Type} `{IERC20 T}.

Definition execute (env : Env) (c : Call) (w : World T) : result (World T) :=
  match c with
  | PostJob d mn mx ad wd =>
      match postJob env d mn mx ad wd w with
      | Ok (_, w') => Ok w'
      | Err e => Err e
      end
  | ApproveWork jobId r => approveWork env jobId r w
  | DisputeWork jobId => disputeWork env jobId w
  | CancelJob jobId => cancelJob env jobId w
  | ClaimJob jobId agentId => claimJob env jobId agentId w
  | SubmitWork jobId uri => submitWork env jobId uri w
  | ExpireJob jobId => expireJob env jobId w
  end.

(** A transaction that reverts rolls every storage write and every token
    movement back: the world after it is the world before it. *)
Definition transact (env : Env) (c : Call) (w : World T) : World T :=
  match execute env c w with
  | Ok w' => w'
  | Err _ => w
  end.

Fixpoint run (txs : list (Env * Call)) (w : World T) : World T :=
  match txs with
  | [] => w
  | (env, c) :: txs' => run txs' (transact env c w)
  end.

End Transactions.

(** ** An OpenZeppelin ERC20 ledger

    An instance of the token interface for the scenarios.  The token the
    test-suite deploys ([MockCLAWD is ERC20]) is OpenZeppelin's [ERC20],
    which the repository imports and does not contain; this is a model of
    it: balances and allowances, [_transfer] refusing the zero address on
    either side and a sender that holds too little, [_spendAllowance]
    leaving an infinite allowance as it is.  The credit of the receiver is
    an unchecked addition there; no balance exceeds the total supply, so it
    never wraps and is written as an addition here. *)
Record ERC20 : Type := mkERC20 {
  _balances : gmap address Z;
  _allowances : gmap (address * address) Z
}.

Definition erc20_balanceOf (tok : ERC20) (account : address) : Z :=
  default 0 (_balances tok !! account).

Definition allowance (tok : ERC20) (owner spender : address) : Z :=
  default 0 (_allowances tok !! (owner, spender)).

Definition _update (from to : address) (value : Z) (tok : ERC20) : option ERC20 :=
  let fromBalance := erc20_balanceOf tok from in
  if fromBalance <? value then None
  else
    let debited := <[from := fromBalance - value]> (_balances tok) in
    let credited := <[to := default 0 (debited !! to) + value]> debited in
    Some (mkERC20 credited (_allowances tok)).

Definition _transfer (from to : address) (value : Z) (tok : ERC20) : option ERC20 :=
  if from =? 0 then None
  else if to =? 0 then None
  else _update from to value tok.

Definition _approve (owner spender : address) (value : Z) (tok : ERC20)
  : option ERC20 :=
  if owner =? 0 then None
  else if spender =? 0 then None
  else Some (mkERC20 (_balances tok) (<[(owner, spender) := value]> (_allowances tok))).

Definition _spendAllowance (owner spender : address) (value : Z) (tok : ERC20)
  : option ERC20 :=
  let currentAllowance := allowance tok owner spender in
  if currentAllowance <? MAX_UINT256 then
    if currentAllowance <? value then None
    else _approve owner spender (currentAllowance - value) tok
  else Some tok.

Definition erc20_transfer (sender to : address) (value : Z) (tok : ERC20)
  : option ERC20 :=
  _transfer sender to value tok.

Definition erc20_transferFrom (spender from to : address) (value : Z) (tok : ERC20)
  : option ERC20 :=
  tok' ← _spendAllowance from spender value tok;
  _transfer from to value tok'.

#[global] Instance ERC20_IERC20 : IERC20 ERC20 := {
  balanceOf := erc20_balanceOf;
  transfer := erc20_transfer;
  transferFrom := erc20_transferFrom
}.

(** ** The job life cycle, as the specification names it *)

Definition terminal (s : JobStatus) : Prop :=
  s = Completed \/ s = Disputed \/ s = Expired \/ s = Cancelled.

(** The part of a job's escrow the board still holds: all of [maxPrice]
    while the auction runs, the locked price while the job is claimed or
    under review, nothing once the job has reached a terminal status. *)
Definition outstanding (job : Job) : Z :=
  match status job with
  | Open => maxPrice job
  | Claimed | Submitted => paidAmount job
  | Completed | Disputed | Expired | Cancelled => 0
  end.

Definition escrowTotal (js : list Job) : Z :=
  foldr (fun job acc => outstanding job + acc) 0 js.

(** The linear ramp of the specification: the elapsed time clamped to the
    auction, and a division that truncates toward zero. *)
Definition clamp (x lo hi : Z) : Z := Z.max lo (Z.min x hi).

Definition linearPrice (job : Job) (now : Z) : Z :=
  let elapsed := clamp (now - auctionStart job) 0 (auctionDuration job) in
  minPrice job + ((maxPrice job - minPrice job) * elapsed) ÷ auctionDuration job.

(** The values a posted job holds: what [postJob] checks, the range of the
    storage words, and what later calls keep. *)
Record wf_job (self : address) (job : Job) : Prop := {
  wf_minPrice : 0 <= minPrice job <= maxPrice job;
  wf_maxPrice : 0 < maxPrice job <= MAX_UINT256;
  wf_auctionStart : uint256 (auctionStart job);
  wf_auctionDuration : 0 < auctionDuration job <= MAX_UINT256;
  wf_workDeadline : 0 < workDeadline job <= MAX_UINT256;
  wf_poster : poster job <> 0 /\ poster job <> self;
  wf_paidAmount : 0 <= paidAmount job <= maxPrice job;
  wf_agent : status job = Claimed \/ status job = Submitted ->
             agent job <> 0 /\ agent job <> self
}.

(** When the price of a job is defined at a time: the end of the auction
    fits a storage word, the time is not before the start, and on the ramp
    the scaled range fits a word too. *)
Definition price_defined (job : Job) (now : Z) : Prop :=
  auctionStart job + auctionDuration job <= MAX_UINT256 /\
  (now < auctionStart job + auctionDuration job ->
   auctionStart job <= now /\
   (maxPrice job - minPrice job) * (now - auctionStart job) <= MAX_UINT256).

(** ** Reachable worlds and the books kept along the way *)

Definition jobOf (c : Call) : option Z :=
  match c with
  | PostJob _ _ _ _ _ => None
  | ApproveWork j _ | DisputeWork j | CancelJob j | ClaimJob j _
  | SubmitWork j _ | ExpireJob j => Some j
  end.

Definition valid_call (c : Call) : Prop :=
  match c with
  | PostJob _ mn mx ad wd => uint256 mn /\ uint256 mx /\ uint256 ad /\ uint256 wd
  | ApproveWork j r => uint256 j /\ 0 <= r <= 255
  | ClaimJob j a => uint256 j /\ uint256 a
  | DisputeWork j | CancelJob j | SubmitWork j _ | ExpireJob j => uint256 j
  end.

(** [released j] is the sum of the tokens that left the board in the
    transactions on job [j]; [surplus] is what the board holds without
    having escrowed it for any job. *)
Record Books : Type := mkBooks {
  released : Z -> Z;
  surplus : Z
}.

Section Reachability.
Context {T : Type} `{IERC20 T}.

Definition valid_env (w : World T) (env : Env) : Prop :=
  msg_sender env <> 0 /\ msg_sender env <> this w /\
  uint256 (block_timestamp env).

Definition outflow (w w' : World T) : Z :=
  balanceOf (clawd w) (this w) - balanceOf (clawd w') (this w').

Definition record_tx (env : Env) (c : Call) (w : World T) (bk : Books) : Books :=
  match jobOf c with
  | None => bk
  | Some j =>
      mkBooks (fun k => if k =? j
                        then released bk k + outflow w (transact env c w)
                        else released bk k)
              (surplus bk)
  end.

(** The board is deployed with empty storage; the callers are accounts
    other than the board itself; between two transactions of the board the
    token may move in any way that does not take tokens from the board,
    which never grants an allowance. *)
Inductive reachable : World T -> Books -> Prop :=
| reach_deploy (self : address) (tok : T) :
    self <> 0 -> 0 <= balanceOf tok self ->
    reachable (mkWorld self (mkBoard [] ∅ false) tok)
              (mkBooks (fun _ => 0) (balanceOf tok self))
| reach_transact (w : World T) (bk : Books) (env : Env) (c : Call) :
    reachable w bk -> valid_env w env -> valid_call c ->
    reachable (transact env c w) (record_tx env c w bk)
| reach_token (w : World T) (bk : Books) (tok' : T) :
    reachable w bk ->
    balanceOf (clawd w) (this w) <= balanceOf tok' (this w) ->
    reachable (mkWorld (this w) (board w) tok')
              (mkBooks (released bk)
                       (surplus bk + (balanceOf tok' (this w)
                                      - balanceOf (clawd w) (this w)))).

(** The invariant of the reachable worlds: the guard is released, every
    job is well formed and its escrow is accounted for, and the board's
    balance backs the escrow of all jobs. *)
Record Inv (w : World T) (bk : Books) : Prop := {
  inv_this : this w <> 0;
  inv_entered : _entered (board w) = false;
  inv_surplus : 0 <= surplus bk;
  inv_jobs : forall i job, jobs (board w) !! i = Some job ->
             wf_job (this w) job /\
             released bk (Z.of_nat i) + outstanding job = maxPrice job;
  inv_fresh : forall k, Z.of_nat (length (jobs (board w))) <= k -> released bk k = 0;
  inv_backed : balanceOf (clawd w) (this w) = surplus bk + escrowTotal (jobs (board w))
}.

End Reachability.

(** ** Vocabulary for the statements *)

(** The records the board writes: the job stored by [postJob], the job after
    [claimJob], the statistics after [approveWork] and after [disputeWork]. *)
Definition posted (env : Env) (d : string) (mn mx ad wd : Z) : Job :=
  mkJob (msg_sender env) d mn mx (block_timestamp env) ad wd
        0 0 0 EmptyString 0 0 Open.

Definition claimed (env : Env) (agentId price : Z) (job : Job) : Job :=
  with_paidAmount price
    (with_claimedAt (block_timestamp env)
       (with_agentId agentId
          (with_agent (msg_sender env) (with_status Claimed job)))).

Definition withCompletion (amount r : Z) (stats : AgentStats) : AgentStats :=
  mkAgentStats (completedJobs stats + 1) (disputedJobs stats)
               (totalEarned stats + amount) (totalRating stats + r).

Definition withDispute (stats : AgentStats) : AgentStats :=
  mkAgentStats (completedJobs stats) (disputedJobs stats + 1)
               (totalEarned stats) (totalRating stats).

(** The average rating as the specification words it: the quotient when
    there is a completed job, no rating otherwise. *)
Definition specAverage (stats : AgentStats) : option Z :=
  if 0 <? completedJobs stats
  then Some (totalRating stats / completedJobs stats)
  else None.

(** The revert a call on a job in a terminal status ends with: the first
    failing [require] of the function, which is the check of the caller for
    the functions that check the caller first. *)
Definition terminal_error (env : Env) (c : Call) (job : Job) : option Error :=
  match c with
  | PostJob _ _ _ _ _ => None
  | ClaimJob _ _ => Some (Revert "Job not open")
  | ExpireJob _ => Some (Revert "Job not in claimed state")
  | ApproveWork _ _ =>
      Some (if msg_sender env =? poster job
            then Revert "Job not submitted"
            else Revert "Only poster can approve")
  | DisputeWork _ =>
      Some (if msg_sender env =? poster job
            then Revert "Job not submitted"
            else Revert "Only poster can dispute")
  | CancelJob _ =>
      Some (if msg_sender env =? poster job
            then Revert "Job not open"
            else Revert "Only poster can cancel")
  | SubmitWork _ _ =>
      Some (if msg_sender env =? agent job
            then Revert "Job not claimed"
            else Revert "Only assigned agent")
  end.

Section Outcomes.
Context {T : Type} `{IERC20 T}.

(** The outcome of each transaction of a sequence, in order. *)
Fixpoint outcomes (txs : list (Env * Call)) (w : World T)
  : list (result (World T)) :=
  match txs with
  | [] => []
  | (env, c) :: txs' => execute env c w :: outcomes txs' (transact env c w)
  end.

Definition succeeded (r : result (World T)) : bool :=
  match r with Ok _ => true | Err _ => false end.

End Outcomes.

(** ** Scenarios

    The accounts and the job of the test-suite: a poster holding tokens and
    having approved the board, a job of 100 to 200 over 60 seconds with 300
    seconds to do the work, claimed half-way through the auction. *)
Definition BOARD : address := 1000.
Definition POSTER : address := 1.
Definition AGENT : address := 2.
Definition AGENT2 : address := 3.

Definition ledger0 : ERC20 :=
  mkERC20 {[ POSTER := MAX_UINT256 ]} {[ (POSTER, BOARD) := MAX_UINT256 ]}.

Definition genesis : World ERC20 := mkWorld BOARD (mkBoard [] ∅ false) ledger0.

Definition w_posted : World ERC20 :=
  transact (mkEnv POSTER 1000) (PostJob "Test" 100 200 60 300) genesis.

Definition w_claimed : World ERC20 :=
  transact (mkEnv AGENT 1030) (ClaimJob 0 21548) w_posted.

Definition w_submitted : World ERC20 :=
  transact (mkEnv AGENT 1040) (SubmitWork 0 "ipfs://bafkreiexample") w_claimed.

Definition w_completed : World ERC20 :=
  transact (mkEnv POSTER 1050) (ApproveWork 0 90) w_submitted.

Definition w_cancelled : World ERC20 :=
  transact (mkEnv POSTER 1010) (CancelJob 0) w_posted.

(** Jobs at the edge of the [uint256] range: a price range of 2^255 over four
    seconds, an auction of 2^256 - 1 seconds, and a work deadline of
    2^256 - 1 seconds. *)
Definition w_wide : World ERC20 :=
  transact (mkEnv POSTER 1000) (PostJob "Test" 0 (2 ^ 255) 4 300) genesis.

Definition w_long : World ERC20 :=
  transact (mkEnv POSTER 1000) (PostJob "Test" 100 200 MAX_UINT256 300) genesis.

Definition w_endless : World ERC20 :=
  transact (mkEnv AGENT 1030) (ClaimJob 0 21548)
    (transact (mkEnv POSTER 1000) (PostJob "Test" 100 200 60 MAX_UINT256) genesis).

(** The books of the scenarios: nothing released at deployment, then one
    entry per transaction. *)
Definition books0 : Books := mkBooks (fun _ => 0) (balanceOf ledger0 BOARD).

Definition books_posted : Books :=
  record_tx (mkEnv POSTER 1000) (PostJob "Test" 100 200 60 300) genesis books0.

Definition books_claimed : Books :=
  record_tx (mkEnv AGENT 1030) (ClaimJob 0 21548) w_posted books_posted.

Definition books_submitted : Books :=
  record_tx (mkEnv AGENT 1040) (SubmitWork 0 "ipfs://bafkreiexample") w_claimed
            books_claimed.

Definition books_completed : Books :=
  record_tx (mkEnv POSTER 1050) (ApproveWork 0 90) w_submitted books_submitted.

Definition books_long : Books :=
  record_tx (mkEnv POSTER 1000) (PostJob "Test" 100 200 MAX_UINT256 300) genesis books0.

Definition books_wide : Books :=
  record_tx (mkEnv POSTER 1000) (PostJob "Test" 0 (2 ^ 255) 4 300) genesis books0.

(** The fixture of the test-suite: the token minted to the deployer, the
    poster and two agents, a fresh board, and the poster's [approve] before
    each [postJob].  Amounts are in units of [ether]; the first block has
    timestamp 1. *)
Definition ether : Z := 10 ^ 18.
Definition DEPLOYER : address := 4096.

Definition setUp : World ERC20 :=
  mkWorld BOARD (mkBoard [] ∅ false)
    (mkERC20 {[ DEPLOYER := 1000000 * ether; POSTER := 10000 * ether;
                AGENT := 1000 * ether; AGENT2 := 1000 * ether ]} ∅).

Definition approve (owner spender : address) (value : Z) (w : World ERC20)
  : World ERC20 :=
  match _approve owner spender value (clawd w) with
  | Some tok => mkWorld (this w) (board w) tok
  | None => w
  end.

Definition testJob : World ERC20 :=
  transact (mkEnv POSTER 1) (PostJob "Test" (100 * ether) (200 * ether) 60 300)
           (approve POSTER BOARD (200 * ether) setUp).

(** ** Vocabulary for the further properties *)

(** What a successful call on a job has checked on the record it found
    ([old]) and which record it has written in its place ([new]). *)
Definition updates (env : Env) (c : Call) (old new : Job) : Prop :=
  match c with
  | PostJob _ _ _ _ _ => False
  | ApproveWork _ r =>
      status old = Submitted /\ msg_sender env = poster old /\ r <= 100 /\
      new = with_rating r (with_status Completed old)
  | DisputeWork _ =>
      status old = Submitted /\ msg_sender env = poster old /\
      new = with_status Disputed old
  | CancelJob _ =>
      status old = Open /\ msg_sender env = poster old /\
      new = with_status Cancelled old
  | ClaimJob _ id =>
      status old = Open /\ msg_sender env <> poster old /\
      exists price,
        _getCurrentPrice (block_timestamp env) old = Ok price /\
        price <= maxPrice old /\
        new = claimed env id price old
  | SubmitWork _ uri =>
      status old = Claimed /\ msg_sender env = agent old /\
      (0 < String.length uri)%nat /\
      block_timestamp env <= claimedAt old + workDeadline old /\
      new = with_submissionURI uri (with_status Submitted old)
  | ExpireJob _ =>
      status old = Claimed /\
      claimedAt old + workDeadline old < block_timestamp env /\
      new = with_status Expired old
  end.

(** The statistics a successful call on the job [old] leaves behind. *)
Definition stats_after (c : Call) (old : Job) (m : gmap address AgentStats)
  : gmap address AgentStats :=
  match c with
  | ApproveWork _ r =>
      <[agent old := withCompletion (paidAmount old) r (statsAt m (agent old))]> m
  | DisputeWork _ => <[agent old := withDispute (statsAt m (agent old))]> m
  | _ => m
  end.

(** The edges of the life cycle. *)
Inductive transition : JobStatus -> JobStatus -> Prop :=
| claim_edge : transition Open Claimed
| cancel_edge : transition Open Cancelled
| submit_edge : transition Claimed Submitted
| expire_edge : transition Claimed Expired
| approve_edge : transition Submitted Completed
| dispute_edge : transition Submitted Disputed.

(** Sums over the array of jobs. *)
Definition sumOver (f : Job -> Z) (js : list Job) : Z :=
  foldr (fun job acc => f job + acc) 0 js.

Definition completedBy (a : address) (job : Job) : bool :=
  bool_decide (status job = Completed) && (agent job =? a).

Definition disputedBy (a : address) (job : Job) : bool :=
  bool_decide (status job = Disputed) && (agent job =? a).

(** The statistics of an agent recomputed from the array of jobs: the jobs
    completed and disputed, the amounts paid and the ratings given. *)
Definition tally (a : address) (js : list Job) : AgentStats :=
  mkAgentStats
    (sumOver (fun job => if completedBy a job then 1 else 0) js)
    (sumOver (fun job => if disputedBy a job then 1 else 0) js)
    (sumOver (fun job => if completedBy a job then paidAmount job else 0) js)
    (sumOver (fun job => if completedBy a job then rating job else 0) js).

(** What the arguments of an accepted [postJob] leave in a job. *)
Definition well_posted (job : Job) : Prop :=
  poster job <> 0 /\ description job <> EmptyString /\
  0 <= minPrice job <= maxPrice job /\ 0 < maxPrice job <= MAX_UINT256 /\
  uint256 (auctionStart job) /\
  0 < auctionDuration job <= MAX_UINT256 /\ 0 < workDeadline job <= MAX_UINT256.

(** The fields a claim writes, once an agent has claimed. *)
Definition taken (job : Job) : Prop :=
  agent job <> 0 /\ agent job <> poster job /\
  minPrice job <= paidAmount job <= maxPrice job /\
  auctionStart job <= claimedAt job <= MAX_UINT256.

(** The fields of a job agree with its status. *)
Definition coherent (job : Job) : Prop :=
  match status job with
  | Open | Cancelled =>
      agent job = 0 /\ agentId job = 0 /\ claimedAt job = 0 /\
      paidAmount job = 0 /\ submissionURI job = EmptyString /\ rating job = 0
  | Claimed | Expired =>
      taken job /\ submissionURI job = EmptyString /\ rating job = 0
  | Submitted | Disputed =>
      taken job /\ submissionURI job <> EmptyString /\ rating job = 0
  | Completed =>
      taken job /\ submissionURI job <> EmptyString /\ 0 <= rating job <= 100
  end.

(** The caller a function asks for. *)
Definition authorised (env : Env) (c : Call) (job : Job) : Prop :=
  match c with
  | ApproveWork _ _ | DisputeWork _ | CancelJob _ => msg_sender env = poster job
  | SubmitWork _ _ => msg_sender env = agent job
  | ClaimJob _ _ => msg_sender env <> poster job
  | PostJob _ _ _ _ _ | ExpireJob _ => True
  end.

(** The terms fixed when a job is posted, and those fixed when it is
    claimed. *)
Definition same_terms (job job' : Job) : Prop :=
  poster job' = poster job /\ description job' = description job /\
  minPrice job' = minPrice job /\ maxPrice job' = maxPrice job /\
  auctionStart job' = auctionStart job /\
  auctionDuration job' = auctionDuration job /\
  workDeadline job' = workDeadline job.

Definition same_claim (job job' : Job) : Prop :=
  agent job' = agent job /\ agentId job' = agentId job /\
  claimedAt job' = claimedAt job /\ paidAmount job' = paidAmount job.

(** The tokens a successful call on a job sends from the board, and the
    account that receives them ([old] is the job before the call, [new] the
    job after it). *)
Definition payment (c : Call) (old new : Job) : address * Z :=
  match c with
  | ApproveWork _ _ => (agent old, paidAmount old)
  | DisputeWork _ | ExpireJob _ => (poster old, paidAmount old)
  | CancelJob _ => (poster old, maxPrice old)
  | ClaimJob _ _ => (poster old, maxPrice old - paidAmount new)
  | SubmitWork _ _ | PostJob _ _ _ _ _ => (0, 0)
  end.

(** ** The pages of the front end

    The pages read the board through [getJobCore] and show a job by its
    status code, the position of the status in the [enum] of the contract. *)
Definition statusNum (s : JobStatus) : Z :=
  match s with
  | Open => 0
  | Claimed => 1
  | Submitted => 2
  | Completed => 3
  | Disputed => 4
  | Expired => 5
  | Cancelled => 6
  end.

Definition JOB_STATUS_LABELS (code : Z) : option string :=
  if code =? 0 then Some "Open"
  else if code =? 1 then Some "Claimed"
  else if code =? 2 then Some "Submitted"
  else if code =? 3 then Some "Completed"
  else if code =? 4 then Some "Disputed"
  else if code =? 5 then Some "Expired"
  else if code =? 6 then Some "Cancelled"
  else None.

(** The tabs of the home page, and [FilteredJobCard]: [jobCore] is the
    result of reading [getJobCore], absent while the read has not returned
    or when it failed; the result says whether the card is rendered. *)
Inductive Filter : Type := FilterAll | FilterOpen | FilterClaimed | FilterCompleted.

#[global] Instance Filter_eq_dec : EqDecision Filter.
Proof. solve_decision. Defined.

Definition FilteredJobCard (filter : Filter)
    (jobCore : option (address * string * Z * Z * Z * Z * Z * JobStatus)) : bool :=
  match jobCore with
  | None => false
  | Some (_, _, _, _, _, _, _, s) =>
      let statusNum := statusNum s in
      if bool_decide (filter = FilterOpen) && negb (statusNum =? 0) then false
      else if bool_decide (filter = FilterClaimed) && negb (statusNum =? 1) then false
      else if bool_decide (filter = FilterCompleted) && negb (statusNum =? 3) then false
      else true
  end.

(** What a page holds of a contract read: the value when the call returned,
    nothing when it reverted. *)
Definition readContract {A} (r : result A) : option A :=
  match r with Ok a => Some a | Err _ => None end.

(** [formatTimeRemaining]: the numbers of the pages are whole numbers of
    seconds; up to [MAX_SAFE_INTEGER] the floating-point division and
    remainder of JavaScript are exact on them and [Math.floor] of the
    quotient is the integer quotient. *)
Definition MAX_SAFE_INTEGER : Z := 2 ^ 53 - 1.

Definition formatTimeRemaining (seconds : Z) : string :=
  if seconds <=? 0 then "Expired"
  else
    let d := seconds / 86400 in
    let h := (seconds mod 86400) / 3600 in
    let m := (seconds mod 3600) / 60 in
    let s := seconds mod 60 in
    if 0 <? d then pretty d +:+ "d " +:+ pretty h +:+ "h " +:+ pretty m +:+ "m"
    else if 0 <? h then pretty h +:+ "h " +:+ pretty m +:+ "m " +:+ pretty s +:+ "s"
    else if 0 <? m then pretty m +:+ "m " +:+ pretty s +:+ "s"
    else pretty s +:+ "s".




(** The countdown of the work deadline on the page of a job: [jobAgent] is
    what the page holds of [getJobAgent], [workDeadline] comes from
    [getJobCore], and a claim time of 0 counts as no claim. *)
Definition workTimeRemaining
    (jobAgent : option (address * Z * Z * string * Z * Z))
    (workDeadline now : Z) : Z :=
  let claimedAt := match jobAgent with
                   | Some (_, _, claimedAt, _, _, _) => claimedAt
                   | None => 0
                   end in
  let workDeadlineTimestamp :=
    if 0 <? claimedAt then claimedAt + workDeadline else 0 in
  if 0 <? workDeadlineTimestamp then workDeadlineTimestamp - now else 0.

(** The last character of a string. *)
Fixpoint lastChar (s : string) : option Ascii.ascii :=
  match s with
  | EmptyString => None
  | String c EmptyString => Some c
  | String _ s' => lastChar s'
  end.

(** More scenarios: the submitted job disputed, the claimed job expired by
    a third party one second after its deadline, and a second job posted
    beside the submitted one. *)
Definition w_disputed : World ERC20 :=
  transact (mkEnv POSTER 1050) (DisputeWork 0) w_submitted.

Definition w_expired : World ERC20 :=
  transact (mkEnv AGENT2 1331) (ExpireJob 0) w_claimed.

Definition w_second : World ERC20 :=
  transact (mkEnv POSTER 1045) (PostJob "Second" 50 80 10 20) w_submitted.

(** The three calls that take the posted job to [Completed], and the
    board with the claimed job as a call finds it while a guarded call
    runs. *)
Definition lifecycle : list (Env * Call) :=
  [(mkEnv AGENT 1030, ClaimJob 0 21548);
   (mkEnv AGENT 1040, SubmitWork 0 "ipfs://bafkreiexample");
   (mkEnv POSTER 1050, ApproveWork 0 90)].


(** The job of the scenarios as posted, as claimed at 150, and as
    submitted. *)
Definition job_posted : Job := posted (mkEnv POSTER 1000) "Test" 100 200 60 300.

Definition job_claimed : Job := claimed (mkEnv AGENT 1030) 21548 150 job_posted.

Definition job_submitted : Job :=
  with_submissionURI "ipfs://bafkreiexample" (with_status Submitted job_claimed).

(** ** Sequences of transactions from a reachable world

    The books after a sequence of transactions, and when the sequence is
    one the board can receive in the world [w]. *)
Section Runs.
Context {T : Type} `{IERC20 T}.

Fixpoint record_run (txs : list (Env * Call)) (w : World T) (bk : Books) : Books :=
  match txs with
  | [] => bk
  | (env, c) :: txs' => record_run txs' (transact env c w) (record_tx env c w bk)
  end.

Definition valid_tx (w : World T) (tx : Env * Call) : Prop :=
  valid_env w tx.1 /\ valid_call tx.2.

End Runs.

(** The deadline that does not fit: the books of [w_endless] and the job
    it holds, claimed at 150 with [2^256 - 1] seconds for the work. *)
Definition books_endless : Books :=
  record_tx (mkEnv AGENT 1030) (ClaimJob 0 21548)
    (transact (mkEnv POSTER 1000) (PostJob "Test" 100 200 60 MAX_UINT256) genesis)
    (record_tx (mkEnv POSTER 1000) (PostJob "Test" 100 200 60 MAX_UINT256)
               genesis books0).

Definition job_endless : Job :=
  claimed (mkEnv AGENT 1030) 21548 150
    (posted (mkEnv POSTER 1000) "Test" 100 200 60 MAX_UINT256).

(** Counters at the edge of [uint256]: a job of 2^255 tokens is posted,
    claimed, submitted and approved; the agent sends the 2^255 tokens back
    to the poster with a transfer of its own; a second job of 2^255 tokens
    is posted, claimed by the same agent and submitted. *)
Definition BIG : Z := 2 ^ 255.

Definition big_job (jobId t : Z) : list (Env * Call) :=
  [(mkEnv POSTER t, PostJob "Big" BIG BIG 60 300);
   (mkEnv AGENT (t + 30), ClaimJob jobId 21548);
   (mkEnv AGENT (t + 40), SubmitWork jobId "ipfs://bafkreiexample")].

Definition first_big_job : list (Env * Call) :=
  big_job 0 1000 ++ [(mkEnv POSTER 1050, ApproveWork 0 90)].

Definition w_big_completed : World ERC20 := run first_big_job genesis.

Definition books_big_completed : Books := record_run first_big_job genesis books0.

Definition ledger_repaid : ERC20 :=
  default (clawd w_big_completed)
          (erc20_transfer AGENT POSTER BIG (clawd w_big_completed)).

Definition w_big_repaid : World ERC20 :=
  mkWorld (this w_big_completed) (board w_big_completed) ledger_repaid.

Definition books_big_repaid : Books :=
  mkBooks (released books_big_completed)
          (surplus books_big_completed
           + (balanceOf ledger_repaid (this w_big_completed)
              - balanceOf (clawd w_big_completed) (this w_big_completed))).

Definition w_big_submitted : World ERC20 := run (big_job 1 2000) w_big_repaid.

Definition books_big_submitted : Books :=
  record_run (big_job 1 2000) w_big_repaid books_big_repaid.

(** ** Token calls that call back

    [safeTransfer] and [safeTransferFrom] are external calls: before the
    token returns, it or a contract it notifies may call the board again.
    The functions above are the board with a token that does not; here
    they are once more with the calls made into the board during the token
    call written out.  [calls] are those calls, each with its caller, in
    the order in which they are made.  Each is a message call of its own:
    it commits or reverts alone, at the timestamp of the transaction, and it
    finds the board as the function has left it at its token call, entered
    and with the writes made before the call.  A function whose token call
    fails reverts with everything done during the call; a call among them
    whose revert the token passes on is such a failed token call, [None]
    from [transfer] or [transferFrom]. *)
Section Callbacks.
Context {T : Type} `{IERC20 T}.
Variable calls : list (address * Call).

Definition nested (now : Z) (w : World T) : World T :=
  run (map (fun call => (mkEnv call.1 now, call.2)) calls) w.

Definition postJob_cb (env : Env) (description : string)
    (minPrice maxPrice auctionDuration workDeadline : Z) (w : World T)
  : result (Z * World T) :=
  w ← _nonReentrantBefore w;
  _ ← require (0 <? maxPrice) "Max price must be > 0";
  _ ← require (minPrice <=? maxPrice) "Max must be >= min";
  _ ← require (0 <? auctionDuration) "Auction duration must be > 0";
  _ ← require (0 <? workDeadline) "Work deadline must be > 0";
  _ ← require (0 <? String.length description)%nat "Description required";
  tok ← safeTransferFrom (this w) (msg_sender env) (this w) maxPrice (clawd w);
  let w := nested (block_timestamp env) (mkWorld (this w) (board w) tok) in
  let jobId := Z.of_nat (length (jobs (board w))) in
  let job := mkJob (msg_sender env) description minPrice maxPrice
                   (block_timestamp env) auctionDuration workDeadline
                   0 0 0 EmptyString 0 0 Open in
  Ok (jobId, _nonReentrantAfter (mkWorld (this w) (pushJob job (board w)) (clawd w))).

Definition approveWork_cb (env : Env) (jobId rating : Z) (w : World T)
  : result (World T) :=
  w ← _nonReentrantBefore w;
  job ← jobAt (board w) jobId;
  _ ← require (msg_sender env =? poster job) "Only poster can approve";
  _ ← require (bool_decide (status job = Submitted)) "Job not submitted";
  _ ← require (rating <=? 100) "Rating must be 0-100";
  let job := with_rating rating (with_status Completed job) in
  let stats := statsAt (agentStats (board w)) (agent job) in
  completed ← checked_add (completedJobs stats) 1;
  earned ← checked_add (totalEarned stats) (paidAmount job);
  rated ← checked_add (totalRating stats) rating;
  let stats := mkAgentStats completed (disputedJobs stats) earned rated in
  let w := mkWorld (this w) (setStats (agent job) stats (setJob jobId job (board w)))
                   (clawd w) in
  tok ← safeTransfer (this w) (agent job) (paidAmount job) (clawd w);
  Ok (_nonReentrantAfter
        (nested (block_timestamp env) (mkWorld (this w) (board w) tok))).

Definition disputeWork_cb (env : Env) (jobId : Z) (w : World T) : result (World T) :=
  w ← _nonReentrantBefore w;
  job ← jobAt (board w) jobId;
  _ ← require (msg_sender env =? poster job) "Only poster can dispute";
  _ ← require (bool_decide (status job = Submitted)) "Job not submitted";
  let job := with_status Disputed job in
  let stats := statsAt (agentStats (board w)) (agent job) in
  disputed ← checked_add (disputedJobs stats) 1;
  let stats := mkAgentStats (completedJobs stats) disputed (totalEarned stats)
                            (totalRating stats) in
  let w := mkWorld (this w) (setStats (agent job) stats (setJob jobId job (board w)))
                   (clawd w) in
  tok ← safeTransfer (this w) (poster job) (paidAmount job) (clawd w);
  Ok (_nonReentrantAfter
        (nested (block_timestamp env) (mkWorld (this w) (board w) tok))).

Definition cancelJob_cb (env : Env) (jobId : Z) (w : World T) : result (World T) :=
  w ← _nonReentrantBefore w;
  job ← jobAt (board w) jobId;
  _ ← require (msg_sender env =? poster job) "Only poster can cancel";
  _ ← require (bool_decide (status job = Open)) "Job not open";
  let job := with_status Cancelled job in
  let w := mkWorld (this w) (setJob jobId job (board w)) (clawd w) in
  tok ← safeTransfer (this w) (poster job) (maxPrice job) (clawd w);
  Ok (_nonReentrantAfter
        (nested (block_timestamp env) (mkWorld (this w) (board w) tok))).

Definition claimJob_cb (env : Env) (jobId agentId : Z) (w : World T)
  : result (World T) :=
  w ← _nonReentrantBefore w;
  job ← jobAt (board w) jobId;
  _ ← require (bool_decide (status job = Open)) "Job not open";
  _ ← require (negb (msg_sender env =? poster job)) "Poster cannot claim own job";
  currentPrice ← _getCurrentPrice (block_timestamp env) job;
  let job := with_paidAmount currentPrice
               (with_claimedAt (block_timestamp env)
                  (with_agentId agentId
                     (with_agent (msg_sender env)
                        (with_status Claimed job)))) in
  let w := mkWorld (this w) (setJob jobId job (board w)) (clawd w) in
  refund ← checked_sub (maxPrice job) currentPrice;
  w ← (if 0 <? refund
       then tok ← safeTransfer (this w) (poster job) refund (clawd w);
            Ok (nested (block_timestamp env) (mkWorld (this w) (board w) tok))
       else Ok w);
  Ok (_nonReentrantAfter w).

Definition expireJob_cb (env : Env) (jobId : Z) (w : World T) : result (World T) :=
  w ← _nonReentrantBefore w;
  job ← jobAt (board w) jobId;
  _ ← require (bool_decide (status job = Claimed)) "Job not in claimed state";
  deadline ← checked_add (claimedAt job) (workDeadline job);
  _ ← require (deadline <? block_timestamp env) "Deadline not yet passed";
  let job := with_status Expired job in
  let w := mkWorld (this w) (setJob jobId job (board w)) (clawd w) in
  tok ← safeTransfer (this w) (poster job) (paidAmount job) (clawd w);
  Ok (_nonReentrantAfter
        (nested (block_timestamp env) (mkWorld (this w) (board w) tok))).

(** [submitWork] makes no token call. *)
Definition execute_cb (env : Env) (c : Call) (w : World T) : result (World T) :=
  match c with
  | PostJob d mn mx ad wd =>
      match postJob_cb env d mn mx ad wd w with
      | Ok (_, w') => Ok w'
      | Err e => Err e
      end
  | ApproveWork jobId r => approveWork_cb env jobId r w
  | DisputeWork jobId => disputeWork_cb env jobId w
  | CancelJob jobId => cancelJob_cb env jobId w
  | ClaimJob jobId agentId => claimJob_cb env jobId agentId w
  | SubmitWork jobId uri => submitWork env jobId uri w
  | ExpireJob jobId => expireJob_cb env jobId w
  end.

Definition transact_cb (env : Env) (c : Call) (w : World T) : World T :=
  match execute_cb env c w with
  | Ok w' => w'
  | Err _ => w
  end.

End Callbacks.

(** What a call made during a token call can do to a job: nothing, or,
    when it is a [submitWork] on that job by its agent while the job is
    [Claimed], the submission. *)
Definition submitted_in (calls : list (address * Call)) (i : nat) (job job' : Job)
  : Prop :=
  exists jobId uri,
    (agent job, SubmitWork jobId uri) ∈ calls /\ Z.to_nat jobId = i /\
    status job = Claimed /\
    job' = with_submissionURI uri (with_status Submitted job).

(** The board of the scenarios with the job claimed and a second job
    posted beside it, whose refund calls back. *)
Definition w_beside : World ERC20 :=
  transact (mkEnv POSTER 1035) (PostJob "Second" 50 80 10 20) w_claimed.

Definition callback : list (address * Call) :=
  [(AGENT, SubmitWork 0 "ipfs://bafkreiexample")].

(** * Proofs *)

(** ** The result monad and checked arithmetic *)

Lemma bind_Ok {A B} (a : A) (f : A -> result B) : Ok a ≫= f = f a.
Proof. reflexivity. Qed.

Lemma bind_Ok_inv {A B} (m : result A) (f : A -> result B) (b : B) :
  m ≫= f = Ok b -> exists a, m = Ok a /\ f a = Ok b.
Proof. destruct m as [a|e]; [eauto | discriminate]. Qed.

Lemma require_Ok_inv cond reason u : require cond reason = Ok u -> cond = true.
Proof. by destruct cond. Qed.

Lemma require_true reason : require true reason = Ok tt.
Proof. reflexivity. Qed.

Lemma checked_add_Ok a b : a + b <= MAX_UINT256 -> checked_add a b = Ok (a + b).
Proof. intros. unfold checked_add. by rewrite (proj2 (Z.leb_le _ _)). Qed.

Lemma checked_add_Ok_inv a b c :
  checked_add a b = Ok c -> c = a + b /\ a + b <= MAX_UINT256.
Proof.
  unfold checked_add. destruct (Z.leb_spec (a + b) MAX_UINT256); [|discriminate].
  intros [= <-]. done.
Qed.

Lemma checked_sub_Ok a b : b <= a -> checked_sub a b = Ok (a - b).
Proof. intros. unfold checked_sub. by rewrite (proj2 (Z.leb_le _ _)). Qed.

Lemma checked_sub_Ok_inv a b c :
  checked_sub a b = Ok c -> c = a - b /\ b <= a.
Proof.
  unfold checked_sub. destruct (Z.leb_spec b a); [|discriminate].
  intros [= <-]. done.
Qed.

Lemma checked_mul_Ok a b : a * b <= MAX_UINT256 -> checked_mul a b = Ok (a * b).
Proof. intros. unfold checked_mul. by rewrite (proj2 (Z.leb_le _ _)). Qed.

Lemma checked_mul_Ok_inv a b c :
  checked_mul a b = Ok c -> c = a * b /\ a * b <= MAX_UINT256.
Proof.
  unfold checked_mul. destruct (Z.leb_spec (a * b) MAX_UINT256); [|discriminate].
  intros [= <-]. done.
Qed.

Lemma checked_div_Ok a b : b <> 0 -> checked_div a b = Ok (a / b).
Proof. intros. unfold checked_div. by rewrite (proj2 (Z.eqb_neq _ _)). Qed.

Lemma checked_div_Ok_inv a b c :
  checked_div a b = Ok c -> c = a / b /\ b <> 0.
Proof.
  unfold checked_div. destruct (Z.eqb_spec b 0); [discriminate|].
  intros [= <-]. done.
Qed.

Ltac result_inv :=
  repeat match goal with
  | H : Err _ = Ok _ |- _ => discriminate H
  | H : Ok _ = Ok _ |- _ => injection H as H; try subst
  | H : _ ≫= _ = Ok _ |- _ =>
      let a := fresh "x" in
      let Ha := fresh "E" in
      apply bind_Ok_inv in H as (a & Ha & H)
  | H : require _ _ = Ok _ |- _ => apply require_Ok_inv in H
  | H : checked_add _ _ = Ok _ |- _ => apply checked_add_Ok_inv in H as [-> H]
  | H : checked_sub _ _ = Ok _ |- _ => apply checked_sub_Ok_inv in H as [-> H]
  | H : checked_mul _ _ = Ok _ |- _ => apply checked_mul_Ok_inv in H as [-> H]
  | H : checked_div _ _ = Ok _ |- _ => apply checked_div_Ok_inv in H as [-> H]
  end.

(** ** The price function against the linear ramp *)

Section Price.
Variables (job : Job) (now : Z).
Hypothesis Hmin : 0 <= minPrice job <= maxPrice job.
Hypothesis Hmax : maxPrice job <= MAX_UINT256.
Hypothesis Hstart : 0 <= auctionStart job.
Hypothesis Hdur : 0 < auctionDuration job.

Lemma ramp_bound :
  auctionStart job <= now < auctionStart job + auctionDuration job ->
  0 <= (maxPrice job - minPrice job) * (now - auctionStart job) / auctionDuration job
    <= maxPrice job - minPrice job.
Proof.
  intros Hn. split.
  - apply Z.div_pos; [|lia]. apply Z.mul_nonneg_nonneg; lia.
  - apply Z.div_le_upper_bound; [lia|].
    rewrite Z.mul_comm. apply Z.mul_le_mono_nonneg_r; lia.
Qed.

Lemma linearPrice_after :
  auctionStart job + auctionDuration job <= now -> linearPrice job now = maxPrice job.
Proof.
  intros Hn. unfold linearPrice, clamp.
  rewrite Z.min_r, Z.max_r by lia.
  rewrite Z.quot_mul by lia. lia.
Qed.

Lemma linearPrice_ramp :
  auctionStart job <= now < auctionStart job + auctionDuration job ->
  linearPrice job now =
  minPrice job + (maxPrice job - minPrice job) * (now - auctionStart job) / auctionDuration job.
Proof.
  intros Hn. unfold linearPrice, clamp.
  rewrite Z.min_l, Z.max_r by lia.
  rewrite Z.quot_div_nonneg; [done| |lia].
  apply Z.mul_nonneg_nonneg; lia.
Qed.

Lemma _getCurrentPrice_defined :
  price_defined job now -> _getCurrentPrice now job = Ok (linearPrice job now).
Proof.
  intros [Hend Hramp]. unfold _getCurrentPrice.
  rewrite checked_add_Ok by done. rewrite bind_Ok.
  destruct (Z.leb_spec (auctionStart job + auctionDuration job) now) as [Hn|Hn].
  - by rewrite linearPrice_after.
  - destruct (Hramp Hn) as [Hs Hmul].
    pose proof (ramp_bound (conj Hs Hn)).
    rewrite (checked_sub_Ok now), bind_Ok by lia.
    rewrite checked_sub_Ok, bind_Ok by lia.
    rewrite checked_mul_Ok, bind_Ok by lia.
    rewrite checked_div_Ok, bind_Ok by lia.
    rewrite checked_add_Ok by lia.
    by rewrite linearPrice_ramp.
Qed.

Lemma _getCurrentPrice_Ok_inv p :
  _getCurrentPrice now job = Ok p -> price_defined job now.
Proof.
  unfold _getCurrentPrice, price_defined. intros Hp. result_inv.
  split; [done|]. intros Hn.
  destruct (Z.leb_spec (auctionStart job + auctionDuration job) now); [lia|].
  result_inv. done.
Qed.
End Price.

(** ** Guards, lookups and token calls *)

Section Plumbing.
Context {T : Type} `{IERC20 T}.

Lemma nonReentrantBefore_Ok_inv (w w1 : World T) :
  _nonReentrantBefore w = Ok w1 ->
  _entered (board w) = false /\ w1 = with_entered true w.
Proof.
  unfold _nonReentrantBefore. destruct (_entered (board w)); [discriminate|].
  by intros [= <-].
Qed.

Lemma nonReentrantBefore_Ok (w : World T) :
  _entered (board w) = false -> _nonReentrantBefore w = Ok (with_entered true w).
Proof. unfold _nonReentrantBefore. by intros ->. Qed.

Lemma jobAt_Ok_inv (b : Board) jobId job :
  jobAt b jobId = Ok job -> jobs b !! Z.to_nat jobId = Some job.
Proof. unfold jobAt. destruct (_ !! _); [by intros [= ->] | discriminate]. Qed.

Lemma jobAt_Ok (b : Board) jobId job :
  jobs b !! Z.to_nat jobId = Some job -> jobAt b jobId = Ok job.
Proof. unfold jobAt. by intros ->. Qed.

Lemma safeTransfer_Ok_inv self to value (tok tok' : T) :
  safeTransfer self to value tok = Ok tok' -> transfer self to value tok = Some tok'.
Proof. unfold safeTransfer. destruct (transfer _ _ _ _); [by intros [= ->]|discriminate]. Qed.

Lemma safeTransferFrom_Ok_inv self from to value (tok tok' : T) :
  safeTransferFrom self from to value tok = Ok tok' ->
  transferFrom self from to value tok = Some tok'.
Proof.
  unfold safeTransferFrom.
  destruct (transferFrom _ _ _ _ _); [by intros [= ->]|discriminate].
Qed.
End Plumbing.

(** Inversion of a successful call: peel the binds, the guards and the
    boolean tests. *)
Ltac op_inv :=
  result_inv;
  repeat match goal with
  | E : _nonReentrantBefore _ = Ok _ |- _ =>
      apply nonReentrantBefore_Ok_inv in E as [? ->]
  | E : safeTransfer _ _ _ _ = Ok _ |- _ => apply safeTransfer_Ok_inv in E
  | E : safeTransferFrom _ _ _ _ _ = Ok _ |- _ => apply safeTransferFrom_Ok_inv in E
  | E : bool_decide _ = true |- _ => apply bool_decide_eq_true_1 in E
  | E : (_ <=? _) = true |- _ => apply Z.leb_le in E
  | E : (_ <? _) = true |- _ => apply Z.ltb_lt in E
  | E : (_ =? _) = true |- _ => apply Z.eqb_eq in E
  | E : negb (_ =? _) = true |- _ => apply negb_true_iff, Z.eqb_neq in E
  | E : (_ <? _)%nat = true |- _ => apply Nat.ltb_lt in E
  end;
  simpl in *.

(** ** What a successful call has checked and written *)

Section Inversion.
Context {T : Type} `{IERC20 T}.

Lemma approveWork_Ok_inv env jobId r (w w' : World T) :
  approveWork env jobId r w = Ok w' ->
  exists job tok,
    _entered (board w) = false /\
    jobAt (board w) jobId = Ok job /\
    msg_sender env = poster job /\
    status job = Submitted /\
    r <= 100 /\
    transfer (this w) (agent job) (paidAmount job) (clawd w) = Some tok /\
    w' = mkWorld (this w)
           (mkBoard (<[Z.to_nat jobId := with_rating r (with_status Completed job)]>
                       (jobs (board w)))
                    (<[agent job := withCompletion (paidAmount job) r
                                      (statsAt (agentStats (board w)) (agent job))]>
                       (agentStats (board w)))
                    false)
           tok.
Proof.
  unfold approveWork. intros Hok. op_inv.
  eexists _, _. repeat split; eauto.
Qed.

Lemma disputeWork_Ok_inv env jobId (w w' : World T) :
  disputeWork env jobId w = Ok w' ->
  exists job tok,
    _entered (board w) = false /\
    jobAt (board w) jobId = Ok job /\
    msg_sender env = poster job /\
    status job = Submitted /\
    transfer (this w) (poster job) (paidAmount job) (clawd w) = Some tok /\
    w' = mkWorld (this w)
           (mkBoard (<[Z.to_nat jobId := with_status Disputed job]> (jobs (board w)))
                    (<[agent job := withDispute
                                      (statsAt (agentStats (board w)) (agent job))]>
                       (agentStats (board w)))
                    false)
           tok.
Proof.
  unfold disputeWork. intros Hok. op_inv.
  eexists _, _. repeat split; eauto.
Qed.

Lemma cancelJob_Ok_inv env jobId (w w' : World T) :
  cancelJob env jobId w = Ok w' ->
  exists job tok,
    _entered (board w) = false /\
    jobAt (board w) jobId = Ok job /\
    msg_sender env = poster job /\
    status job = Open /\
    transfer (this w) (poster job) (maxPrice job) (clawd w) = Some tok /\
    w' = mkWorld (this w)
           (mkBoard (<[Z.to_nat jobId := with_status Cancelled job]> (jobs (board w)))
                    (agentStats (board w)) false)
           tok.
Proof.
  unfold cancelJob. intros Hok. op_inv.
  eexists _, _. repeat split; eauto.
Qed.

Lemma claimJob_Ok_inv env jobId agentId (w w' : World T) :
  claimJob env jobId agentId w = Ok w' ->
  exists job price tok,
    _entered (board w) = false /\
    jobAt (board w) jobId = Ok job /\
    status job = Open /\
    msg_sender env <> poster job /\
    _getCurrentPrice (block_timestamp env) job = Ok price /\
    price <= maxPrice job /\
    (if 0 <? maxPrice job - price
     then transfer (this w) (poster job) (maxPrice job - price) (clawd w) = Some tok
     else tok = clawd w) /\
    w' = mkWorld (this w)
           (mkBoard (<[Z.to_nat jobId := claimed env agentId price job]>
                       (jobs (board w)))
                    (agentStats (board w)) false)
           tok.
Proof.
  unfold claimJob. intros Hok. op_inv.
  eexists _, _, _. repeat split; eauto.
  destruct (0 <? _); op_inv; done.
Qed.

Lemma submitWork_Ok_inv env jobId uri (w w' : World T) :
  submitWork env jobId uri w = Ok w' ->
  exists job,
    jobAt (board w) jobId = Ok job /\
    msg_sender env = agent job /\
    status job = Claimed /\
    (0 < String.length uri)%nat /\
    claimedAt job + workDeadline job <= MAX_UINT256 /\
    block_timestamp env <= claimedAt job + workDeadline job /\
    w' = mkWorld (this w)
           (mkBoard (<[Z.to_nat jobId :=
                         with_submissionURI uri (with_status Submitted job)]>
                       (jobs (board w)))
                    (agentStats (board w)) (_entered (board w)))
           (clawd w).
Proof.
  unfold submitWork. intros Hok. op_inv.
  eexists. repeat split; eauto.
Qed.

Lemma expireJob_Ok_inv env jobId (w w' : World T) :
  expireJob env jobId w = Ok w' ->
  exists job tok,
    _entered (board w) = false /\
    jobAt (board w) jobId = Ok job /\
    status job = Claimed /\
    claimedAt job + workDeadline job <= MAX_UINT256 /\
    claimedAt job + workDeadline job < block_timestamp env /\
    transfer (this w) (poster job) (paidAmount job) (clawd w) = Some tok /\
    w' = mkWorld (this w)
           (mkBoard (<[Z.to_nat jobId := with_status Expired job]> (jobs (board w)))
                    (agentStats (board w)) false)
           tok.
Proof.
  unfold expireJob. intros Hok. op_inv.
  eexists _, _. repeat split; eauto.
Qed.

Lemma postJob_Ok_inv env d mn mx ad wd (w w' : World T) jobId :
  postJob env d mn mx ad wd w = Ok (jobId, w') ->
  exists tok,
    _entered (board w) = false /\
    0 < mx /\ mn <= mx /\ 0 < ad /\ 0 < wd /\ (0 < String.length d)%nat /\
    transferFrom (this w) (msg_sender env) (this w) mx (clawd w) = Some tok /\
    jobId = Z.of_nat (length (jobs (board w))) /\
    w' = mkWorld (this w)
           (mkBoard (jobs (board w) ++ [posted env d mn mx ad wd])
                    (agentStats (board w)) false)
           tok.
Proof.
  unfold postJob. intros Hok. op_inv.
  eexists. repeat split; eauto.
Qed.
End Inversion.

(** ** Escrow totals *)

Lemma escrowTotal_app (l : list Job) (job : Job) :
  escrowTotal (l ++ [job]) = escrowTotal l + outstanding job.
Proof. induction l as [|j l IH]; simpl; [lia|]. rewrite IH. lia. Qed.

Lemma escrowTotal_insert (l : list Job) (i : nat) (job job' : Job) :
  l !! i = Some job ->
  escrowTotal (<[i := job']> l) = escrowTotal l - outstanding job + outstanding job'.
Proof.
  revert i. induction l as [|j l IH]; intros [|i] Hi; simplify_eq/=; [lia|].
  rewrite (IH i) by done. lia.
Qed.

Lemma escrowTotal_lookup_le (l : list Job) (i : nat) (job : Job) :
  (forall k j, l !! k = Some j -> 0 <= outstanding j) ->
  l !! i = Some job -> outstanding job <= escrowTotal l.
Proof.
  revert i. induction l as [|j l IH]; intros [|i] Hpos Hi; simplify_eq/=.
  - assert (0 <= escrowTotal l); [|lia].
    clear -Hpos. induction l as [|j' l IH]; simpl; [lia|].
    pose proof (Hpos 1%nat j' eq_refl).
    assert (0 <= escrowTotal l); [|lia].
    apply IH. intros [|k] j0 Hk; [by apply (Hpos 0%nat)|by apply (Hpos (S (S k)))].
  - pose proof (Hpos 0%nat j eq_refl).
    pose proof (IH i (fun k j0 => Hpos (S k) j0) Hi). lia.
Qed.

Lemma outstanding_nonneg self job : wf_job self job -> 0 <= outstanding job.
Proof. intros [? ? ? ? ? ? ? ?]. unfold outstanding. destruct (status job); lia. Qed.

Lemma _getCurrentPrice_bounds self job now p :
  wf_job self job -> _getCurrentPrice now job = Ok p ->
  minPrice job <= p <= maxPrice job.
Proof.
  intros Hwf Hp. destruct Hwf as [Hmin Hmax [Hs _] Hdur _ _ _ _].
  pose proof (_getCurrentPrice_Ok_inv job now p Hp) as Hdef.
  rewrite (_getCurrentPrice_defined job now) in Hp by (done || lia).
  injection Hp as <-.
  destruct Hdef as [Hend Hramp].
  destruct (Z.le_gt_cases (auctionStart job + auctionDuration job) now) as [Hn|Hn].
  - rewrite linearPrice_after by lia. lia.
  - destruct (Hramp Hn) as [Hst _].
    rewrite linearPrice_ramp by lia.
    pose proof (ramp_bound job now) as Hb. lia.
Qed.

(** ** The invariant of the reachable worlds *)

Section Invariant.
Context {T : Type} `{StandardToken T}.

Lemma Inv_update w bk bk' jobId job job' st tok' amt :
  Inv w bk ->
  0 <= jobId ->
  jobs (board w) !! Z.to_nat jobId = Some job ->
  wf_job (this w) job' ->
  maxPrice job' = maxPrice job ->
  outstanding job' = outstanding job - amt ->
  balanceOf tok' (this w) = balanceOf (clawd w) (this w) - amt ->
  surplus bk' = surplus bk ->
  (forall k, released bk' k =
             if k =? jobId then released bk k + amt else released bk k) ->
  Inv (mkWorld (this w)
         (mkBoard (<[Z.to_nat jobId := job']> (jobs (board w))) st false) tok')
      bk'.
Proof.
  intros [Hthis Hent Hsur Hjobs Hfresh Hbal] Hj Hjob Hwf Hmax Hout Htok Hs Hrel.
  split; simpl.
  - done.
  - done.
  - lia.
  - intros i j Hi. rewrite Hrel.
    destruct (decide (i = Z.to_nat jobId)) as [->|Hne].
    + rewrite list_lookup_insert_eq in Hi by (by eapply lookup_lt_Some).
      injection Hi as <-. split; [done|].
      rewrite Z2Nat.id, Z.eqb_refl by done.
      destruct (Hjobs _ _ Hjob) as [_ Hc]. rewrite Z2Nat.id in Hc by done. lia.
    + rewrite list_lookup_insert_ne in Hi by done.
      destruct (Z.eqb_spec (Z.of_nat i) jobId) as [<-|_].
      * by rewrite Nat2Z.id in Hne.
      * by apply Hjobs.
  - intros k Hk. rewrite length_insert in Hk. rewrite Hrel.
    apply lookup_lt_Some in Hjob.
    destruct (Z.eqb_spec k jobId) as [->|_]; [lia|]. by apply Hfresh.
  - rewrite (escrowTotal_insert _ _ job) by done. lia.
Qed.

Lemma Inv_same w bk bk' :
  Inv w bk -> surplus bk' = surplus bk ->
  (forall k, released bk' k = released bk k) -> Inv w bk'.
Proof.
  intros [Hthis Hent Hsur Hjobs Hfresh Hbal] Hs Hrel.
  split; try done.
  - lia.
  - intros i j Hi. rewrite Hrel. by apply Hjobs.
  - intros k Hk. rewrite Hrel. by apply Hfresh.
  - lia.
Qed.

Lemma Inv_jobAt w bk jobId job :
  Inv w bk -> jobAt (board w) jobId = Ok job -> wf_job (this w) job.
Proof.
  intros Hinv Hj. apply jobAt_Ok_inv in Hj. by destruct (inv_jobs _ _ Hinv _ _ Hj).
Qed.

Ltac solve_wf Hwf :=
  destruct Hwf; split; simpl; first [done | lia | by intros [?|?] | idtac].

Lemma Inv_transact w bk env c :
  Inv w bk -> valid_env w env -> valid_call c ->
  Inv (transact env c w) (record_tx env c w bk).
Proof.
  intros Hinv (Hs0 & Hsthis & Hts) Hc.
  unfold record_tx, outflow, transact.
  destruct (execute env c w) as [w'|e] eqn:Hex.
  2:{ apply (Inv_same w bk); [done|by destruct (jobOf c)|].
      intros k. destruct (jobOf c) as [j|]; [simpl|done].
      unfold outflow. destruct (k =? j); lia. }
  destruct c as [d mn mx ad wd|jobId r|jobId|jobId|jobId agentId|jobId uri|jobId];
    simpl in Hex, Hc |- *.
  - (* postJob *)
    destruct (postJob env d mn mx ad wd w) as [[jobId w1]|] eqn:Hp; [|done].
    injection Hex as ->.
    apply postJob_Ok_inv in Hp as (tok & _ & ? & ? & ? & ? & ? & Htr & _ & ->).
    destruct Hc as ([? ?] & [? ?] & [? ?] & [? ?]).
    destruct Hinv as [Hthis Hent Hsur Hjobs Hfresh Hbal].
    apply transferFrom_credits in Htr; [|done].
    split; simpl; try done.
    + intros i j Hi. apply lookup_app_Some in Hi as [Hi|[Hlen Hi]].
      * by apply Hjobs.
      * apply list_lookup_singleton_Some in Hi as [Hi <-].
        split; [split; simpl; unfold uint256 in *; try lia; try done; by intros [?|?]|].
        rewrite Hfresh by lia. done.
    + intros k Hk. rewrite length_app in Hk. simpl in Hk. apply Hfresh. lia.
    + rewrite escrowTotal_app. unfold outstanding. simpl. lia.
  - (* approveWork *)
    apply approveWork_Ok_inv in Hex as (job & tok & _ & Hj & Hp & Hst & Hr & Htr & ->).
    pose proof (Inv_jobAt _ _ _ _ Hinv Hj) as Hwf.
    destruct (wf_agent _ _ Hwf) as [Ha0 Hathis]; [by right|].
    apply transfer_debits in Htr; [|done].
    apply jobAt_Ok_inv in Hj.
    eapply (Inv_update w bk _ jobId job _ _ _ (paidAmount job)); try done.
    + apply Hc.
    + solve_wf Hwf.
    + unfold outstanding. simpl. rewrite Hst. lia.
    + intros k. simpl. unfold outflow. simpl. destruct (k =? jobId); lia.
  - (* disputeWork *)
    apply disputeWork_Ok_inv in Hex as (job & tok & _ & Hj & Hp & Hst & Htr & ->).
    pose proof (Inv_jobAt _ _ _ _ Hinv Hj) as Hwf.
    destruct (wf_poster _ _ Hwf) as [Ha0 Hathis].
    apply transfer_debits in Htr; [|done].
    apply jobAt_Ok_inv in Hj.
    eapply (Inv_update w bk _ jobId job _ _ _ (paidAmount job)); try done.
    + apply Hc.
    + solve_wf Hwf.
    + unfold outstanding. simpl. rewrite Hst. lia.
    + intros k. simpl. unfold outflow. simpl. destruct (k =? jobId); lia.
  - (* cancelJob *)
    apply cancelJob_Ok_inv in Hex as (job & tok & _ & Hj & Hp & Hst & Htr & ->).
    pose proof (Inv_jobAt _ _ _ _ Hinv Hj) as Hwf.
    destruct (wf_poster _ _ Hwf) as [Ha0 Hathis].
    apply transfer_debits in Htr; [|done].
    apply jobAt_Ok_inv in Hj.
    eapply (Inv_update w bk _ jobId job _ _ _ (maxPrice job)); try done.
    + apply Hc.
    + solve_wf Hwf.
    + unfold outstanding. simpl. rewrite Hst. lia.
    + intros k. simpl. unfold outflow. simpl. destruct (k =? jobId); lia.
  - (* claimJob *)
    apply claimJob_Ok_inv in Hex
      as (job & price & tok & _ & Hj & Hst & Hp & Hprice & Hle & Htr & ->).
    pose proof (Inv_jobAt _ _ _ _ Hinv Hj) as Hwf.
    destruct (wf_poster _ _ Hwf) as [Ha0 Hathis].
    pose proof (_getCurrentPrice_bounds _ _ _ _ Hwf Hprice) as Hb.
    assert (balanceOf tok (this w) =
            balanceOf (clawd w) (this w) - (maxPrice job - price)) as Hbal.
    { destruct (Z.ltb_spec 0 (maxPrice job - price)).
      - apply transfer_debits in Htr; done.
      - subst tok. lia. }
    apply jobAt_Ok_inv in Hj.
    eapply (Inv_update w bk _ jobId job _ _ _ (maxPrice job - price)); try done.
    + apply Hc.
    + solve_wf Hwf.
    + unfold outstanding. simpl. rewrite Hst. lia.
    + intros k. simpl. unfold outflow. simpl. destruct (k =? jobId); lia.
  - (* submitWork *)
    apply submitWork_Ok_inv in Hex as (job & Hj & Hp & Hst & _ & _ & _ & ->).
    pose proof (Inv_jobAt _ _ _ _ Hinv Hj) as Hwf.
    destruct (wf_agent _ _ Hwf) as [Ha0 Hathis]; [by left|].
    apply jobAt_Ok_inv in Hj.
    rewrite (inv_entered _ _ Hinv).
    eapply (Inv_update w bk _ jobId job _ _ _ 0); try done.
    + apply Hc.
    + solve_wf Hwf.
    + unfold outstanding. simpl. rewrite Hst. lia.
    + lia.
    + intros k. simpl. unfold outflow. simpl. destruct (k =? jobId); lia.
  - (* expireJob *)
    apply expireJob_Ok_inv in Hex as (job & tok & _ & Hj & Hst & _ & _ & Htr & ->).
    pose proof (Inv_jobAt _ _ _ _ Hinv Hj) as Hwf.
    destruct (wf_poster _ _ Hwf) as [Ha0 Hathis].
    apply transfer_debits in Htr; [|done].
    apply jobAt_Ok_inv in Hj.
    eapply (Inv_update w bk _ jobId job _ _ _ (paidAmount job)); try done.
    + apply Hc.
    + solve_wf Hwf.
    + unfold outstanding. simpl. rewrite Hst. lia.
    + intros k. simpl. unfold outflow. simpl. destruct (k =? jobId); lia.
Qed.

Lemma reachable_Inv w bk : reachable w bk -> Inv w bk.
Proof.
  induction 1 as [self tok Hself Hbal|w bk env c _ IH Henv Hc|w bk tok' _ IH Hle].
  - split; simpl; try done; lia.
  - by apply Inv_transact.
  - destruct IH as [Hthis Hent Hsur Hjobs Hfresh Hbal].
    split; simpl; try done; lia.
Qed.
End Invariant.

(** ** The OpenZeppelin ledger is a standard token *)

Lemma _transfer_Some_inv from to value tok tok' :
  _transfer from to value tok = Some tok' ->
  from <> 0 /\ to <> 0 /\ value <= erc20_balanceOf tok from /\
  _allowances tok' = _allowances tok /\
  _balances tok' =
    <[to := default 0 (<[from := erc20_balanceOf tok from - value]> (_balances tok) !! to)
            + value]>
      (<[from := erc20_balanceOf tok from - value]> (_balances tok)).
Proof.
  unfold _transfer, _update.
  destruct (Z.eqb_spec from 0); [discriminate|].
  destruct (Z.eqb_spec to 0); [discriminate|].
  destruct (Z.ltb_spec (erc20_balanceOf tok from) value); [discriminate|].
  intros [= <-]. done.
Qed.

Lemma _spendAllowance_balances owner spender value tok tok' :
  _spendAllowance owner spender value tok = Some tok' ->
  _balances tok' = _balances tok.
Proof.
  unfold _spendAllowance, _approve.
  repeat case_match; intros [= <-]; done.
Qed.

#[global] Instance ERC20_standard : StandardToken ERC20.
Proof.
  split.
  - intros tok from to value Hf Ht Hv. simpl in *.
    unfold erc20_transfer, _transfer, _update.
    rewrite (proj2 (Z.eqb_neq _ _) Hf), (proj2 (Z.eqb_neq _ _) Ht).
    rewrite (proj2 (Z.ltb_ge _ _)) by lia. done.
  - intros tok tok' from to value Htr Hne. simpl in *.
    apply _transfer_Some_inv in Htr as (_ & _ & _ & _ & Hb).
    unfold erc20_balanceOf at 1. rewrite Hb.
    rewrite lookup_insert_ne by done. by rewrite lookup_insert_eq.
  - intros tok tok' spender from to value Htr Hne. simpl in *.
    unfold erc20_transferFrom in Htr.
    destruct (_spendAllowance from spender value tok) as [tok1|] eqn:Hsp; [|done].
    simpl in Htr. apply _spendAllowance_balances in Hsp.
    apply _transfer_Some_inv in Htr as (_ & _ & _ & _ & Hb).
    unfold erc20_balanceOf. rewrite Hb, lookup_insert_eq.
    rewrite lookup_insert_ne by done. by rewrite Hsp.
Qed.

(** ** The calls with the guard and the lookup peeled off *)

Section Unfold.
Context {T : Type} `{IERC20 T}.
Variables (env : Env) (jobId : Z) (w : World T) (job : Job).
Hypothesis Hent : _entered (board w) = false.
Hypothesis Hjob : jobAt (board w) jobId = Ok job.

Lemma claimJob_unfold agentId :
  claimJob env jobId agentId w =
  (_ ← require (bool_decide (status job = Open)) "Job not open";
   _ ← require (negb (msg_sender env =? poster job)) "Poster cannot claim own job";
   price ← _getCurrentPrice (block_timestamp env) job;
   refund ← checked_sub (maxPrice job) price;
   tok ← (if 0 <? refund
          then safeTransfer (this w) (poster job) refund (clawd w)
          else Ok (clawd w));
   Ok (mkWorld (this w)
         (mkBoard (<[Z.to_nat jobId := claimed env agentId price job]> (jobs (board w)))
                  (agentStats (board w)) false)
         tok)).
Proof.
  unfold claimJob. rewrite nonReentrantBefore_Ok, bind_Ok by done.
  change (jobAt (board (with_entered true w)) jobId) with (jobAt (board w) jobId).
  by rewrite Hjob.
Qed.

Lemma approveWork_unfold r :
  approveWork env jobId r w =
  (_ ← require (msg_sender env =? poster job) "Only poster can approve";
   _ ← require (bool_decide (status job = Submitted)) "Job not submitted";
   _ ← require (r <=? 100) "Rating must be 0-100";
   let stats := statsAt (agentStats (board w)) (agent job) in
   completed ← checked_add (completedJobs stats) 1;
   earned ← checked_add (totalEarned stats) (paidAmount job);
   rated ← checked_add (totalRating stats) r;
   tok ← safeTransfer (this w) (agent job) (paidAmount job) (clawd w);
   Ok (mkWorld (this w)
         (mkBoard (<[Z.to_nat jobId := with_rating r (with_status Completed job)]>
                     (jobs (board w)))
                  (<[agent job := mkAgentStats completed (disputedJobs stats) earned rated]>
                     (agentStats (board w)))
                  false)
         tok)).
Proof.
  unfold approveWork. rewrite nonReentrantBefore_Ok, bind_Ok by done.
  change (jobAt (board (with_entered true w)) jobId) with (jobAt (board w) jobId).
  by rewrite Hjob.
Qed.

Lemma disputeWork_unfold :
  disputeWork env jobId w =
  (_ ← require (msg_sender env =? poster job) "Only poster can dispute";
   _ ← require (bool_decide (status job = Submitted)) "Job not submitted";
   let stats := statsAt (agentStats (board w)) (agent job) in
   disputed ← checked_add (disputedJobs stats) 1;
   tok ← safeTransfer (this w) (poster job) (paidAmount job) (clawd w);
   Ok (mkWorld (this w)
         (mkBoard (<[Z.to_nat jobId := with_status Disputed job]> (jobs (board w)))
                  (<[agent job := mkAgentStats (completedJobs stats) disputed
                                    (totalEarned stats) (totalRating stats)]>
                     (agentStats (board w)))
                  false)
         tok)).
Proof.
  unfold disputeWork. rewrite nonReentrantBefore_Ok, bind_Ok by done.
  change (jobAt (board (with_entered true w)) jobId) with (jobAt (board w) jobId).
  by rewrite Hjob.
Qed.

Lemma cancelJob_unfold :
  cancelJob env jobId w =
  (_ ← require (msg_sender env =? poster job) "Only poster can cancel";
   _ ← require (bool_decide (status job = Open)) "Job not open";
   tok ← safeTransfer (this w) (poster job) (maxPrice job) (clawd w);
   Ok (mkWorld (this w)
         (mkBoard (<[Z.to_nat jobId := with_status Cancelled job]> (jobs (board w)))
                  (agentStats (board w)) false)
         tok)).
Proof.
  unfold cancelJob. rewrite nonReentrantBefore_Ok, bind_Ok by done.
  change (jobAt (board (with_entered true w)) jobId) with (jobAt (board w) jobId).
  by rewrite Hjob.
Qed.

Lemma expireJob_unfold :
  expireJob env jobId w =
  (_ ← require (bool_decide (status job = Claimed)) "Job not in claimed state";
   deadline ← checked_add (claimedAt job) (workDeadline job);
   _ ← require (deadline <? block_timestamp env) "Deadline not yet passed";
   tok ← safeTransfer (this w) (poster job) (paidAmount job) (clawd w);
   Ok (mkWorld (this w)
         (mkBoard (<[Z.to_nat jobId := with_status Expired job]> (jobs (board w)))
                  (agentStats (board w)) false)
         tok)).
Proof.
  unfold expireJob. rewrite nonReentrantBefore_Ok, bind_Ok by done.
  change (jobAt (board (with_entered true w)) jobId) with (jobAt (board w) jobId).
  by rewrite Hjob.
Qed.

Lemma submitWork_unfold uri :
  submitWork env jobId uri w =
  (_ ← require (msg_sender env =? agent job) "Only assigned agent";
   _ ← require (bool_decide (status job = Claimed)) "Job not claimed";
   _ ← require (0 <? String.length uri)%nat "Submission URI required";
   deadline ← checked_add (claimedAt job) (workDeadline job);
   _ ← require (block_timestamp env <=? deadline) "Work deadline passed";
   Ok (mkWorld (this w)
         (mkBoard (<[Z.to_nat jobId := with_submissionURI uri (with_status Submitted job)]>
                     (jobs (board w)))
                  (agentStats (board w)) false)
         (clawd w))).
Proof.
  unfold submitWork. rewrite Hjob, bind_Ok. unfold setJob. by rewrite Hent.
Qed.

End Unfold.

(** ** The test-suite of the repository, replayed on the model *)

Example test_postJob :
  postJob (mkEnv POSTER 1) "Test job" (100 * ether) (200 * ether) 60 300
          (approve POSTER BOARD (200 * ether) setUp)
  = Ok (0, transact (mkEnv POSTER 1)
                    (PostJob "Test job" (100 * ether) (200 * ether) 60 300)
                    (approve POSTER BOARD (200 * ether) setUp)) /\
  getJobCount (board testJob) = 1 /\
  balanceOf (clawd testJob) BOARD = 200 * ether.
Proof. by vm_compute. Qed.

Example test_postJob_revertNoDescription :
  execute (mkEnv POSTER 1) (PostJob EmptyString (100 * ether) (200 * ether) 60 300)
          (approve POSTER BOARD (200 * ether) setUp)
  = Err (Revert "Description required").
Proof. by vm_compute. Qed.

Example test_postJob_revertMinGtMax :
  execute (mkEnv POSTER 1) (PostJob "Test" (200 * ether) (100 * ether) 60 300)
          (approve POSTER BOARD (200 * ether) setUp)
  = Err (Revert "Max must be >= min").
Proof. by vm_compute. Qed.

Example test_getCurrentPrice :
  getCurrentPrice 1 0 (board testJob) = Ok (100 * ether) /\
  getCurrentPrice (1 + 30) 0 (board testJob) = Ok (150 * ether) /\
  getCurrentPrice (1 + 61) 0 (board testJob) = Ok (200 * ether).
Proof. by vm_compute. Qed.

Example test_claimJob :
  let w := transact (mkEnv AGENT (1 + 30)) (ClaimJob 0 21548) testJob in
  getJobAgent 0 (board w)
    = Ok (AGENT, 21548, 1 + 30, EmptyString, 150 * ether, 0) /\
  balanceOf (clawd w) BOARD = 150 * ether.
Proof. by vm_compute. Qed.

Example test_claimJob_revertPosterCantClaim :
  execute (mkEnv POSTER 1) (ClaimJob 0 21548) testJob
  = Err (Revert "Poster cannot claim own job").
Proof. by vm_compute. Qed.

Example test_fullLifecycle :
  let claimed := transact (mkEnv AGENT (1 + 30)) (ClaimJob 0 21548) testJob in
  let submitted :=
    transact (mkEnv AGENT (1 + 30)) (SubmitWork 0 "ipfs://bafkreiexample") claimed in
  let approved := transact (mkEnv POSTER (1 + 30)) (ApproveWork 0 90) submitted in
  balanceOf (clawd claimed) POSTER = balanceOf (clawd testJob) POSTER + 50 * ether /\
  balanceOf (clawd approved) AGENT = balanceOf (clawd submitted) AGENT + 150 * ether /\
  getAgentStats AGENT (board approved) = (1, 0, 150 * ether, 90).
Proof. by vm_compute. Qed.

Example test_disputeWork :
  let claimed := transact (mkEnv AGENT 1) (ClaimJob 0 21548) testJob in
  let submitted := transact (mkEnv AGENT 1) (SubmitWork 0 "ipfs://bad-work") claimed in
  let disputed := transact (mkEnv POSTER 1) (DisputeWork 0) submitted in
  balanceOf (clawd submitted) POSTER < balanceOf (clawd disputed) POSTER /\
  getAgentStats AGENT (board disputed) = (0, 1, 0, 0).
Proof. by vm_compute. Qed.

Example test_expireJob :
  let claimed := transact (mkEnv AGENT 1) (ClaimJob 0 21548) testJob in
  let expired := transact (mkEnv DEPLOYER (1 + 301)) (ExpireJob 0) claimed in
  (status <$> jobs (board expired) !! 0%nat) = Some Expired /\
  balanceOf (clawd claimed) POSTER < balanceOf (clawd expired) POSTER.
Proof. by vm_compute. Qed.

Example test_cancelJob :
  let cancelled := transact (mkEnv POSTER 1) (CancelJob 0) testJob in
  balanceOf (clawd cancelled) POSTER = balanceOf (clawd testJob) POSTER + 200 * ether.
Proof. by vm_compute. Qed.

Example test_claimJob_atMinPrice :
  balanceOf (clawd (transact (mkEnv AGENT 1) (ClaimJob 0 21548) testJob)) BOARD
  = 100 * ether.
Proof. by vm_compute. Qed.

Example test_submitWork_revertAfterDeadline :
  execute (mkEnv AGENT (1 + 301)) (SubmitWork 0 "ipfs://late")
          (transact (mkEnv AGENT 1) (ClaimJob 0 21548) testJob)
  = Err (Revert "Work deadline passed").
Proof. by vm_compute. Qed.

Example test_multipleJobs :
  getJobCount
    (board
       (run [(mkEnv POSTER 1, PostJob "Job 1" (100 * ether) (200 * ether) 60 300);
             (mkEnv POSTER 1, PostJob "Job 2" (50 * ether) (100 * ether) 30 600);
             (mkEnv POSTER 1, PostJob "Job 3" (200 * ether) (500 * ether) 120 3600)]
            (approve POSTER BOARD (1000 * ether) setUp)))
  = 3.
Proof. by vm_compute. Qed.

(** * The claims *)

(** ** The price of a job *)

Lemma linearPrice_monotone job t1 t2 :
  0 <= minPrice job <= maxPrice job -> 0 < auctionDuration job ->
  auctionStart job <= t1 <= t2 ->
  minPrice job <= linearPrice job t1 /\
  linearPrice job t1 <= linearPrice job t2 /\
  linearPrice job t2 <= maxPrice job.
Proof.
  intros Hmin Hdur Ht.
  assert (forall t, auctionStart job <= t ->
            linearPrice job t =
            minPrice job +
            (maxPrice job - minPrice job) *
              Z.min (t - auctionStart job) (auctionDuration job) / auctionDuration job)
    as Heq.
  { intros t Hs. unfold linearPrice, clamp. rewrite Z.max_r by lia.
    rewrite Z.quot_div_nonneg; [done| |lia]. apply Z.mul_nonneg_nonneg; lia. }
  rewrite !Heq by lia.
  set (r := maxPrice job - minPrice job).
  set (d := auctionDuration job) in *.
  set (e1 := Z.min (t1 - auctionStart job) d).
  set (e2 := Z.min (t2 - auctionStart job) d).
  assert (0 <= r) by (unfold r; lia).
  assert (0 <= e1 <= e2 /\ e2 <= d) as [He1 He2] by (unfold e1, e2; lia).
  assert (0 <= r * e1 / d) by (apply Z.div_pos; [apply Z.mul_nonneg_nonneg|]; lia).
  assert (r * e1 / d <= r * e2 / d).
  { apply Z.div_le_mono; [lia|]. apply Z.mul_le_mono_nonneg_l; lia. }
  assert (r * e2 / d <= r).
  { apply Z.div_le_upper_bound; [lia|]. rewrite Z.mul_comm.
    apply Z.mul_le_mono_nonneg_r; lia. }
  unfold r in *. lia.
Qed.

Lemma linearPrice_at_start job :
  0 < auctionDuration job -> linearPrice job (auctionStart job) = minPrice job.
Proof.
  intros Hdur. unfold linearPrice, clamp.
  rewrite Z.sub_diag, Z.min_l, Z.max_l by lia.
  rewrite Z.mul_0_r, Z.quot_0_l by lia. lia.
Qed.

(** C2, as stated, fails at the edge of the [uint256] range, where the
    checked arithmetic of the price function reverts.  The job posted with
    an auction of [2^256 - 1] seconds exists and meets [maxPrice >= minPrice]
    and [auctionDuration > 0]; at elapsed time 0 [getCurrentPrice] does not
    return [minPrice] but reverts with the arithmetic panic, the sum
    [auctionStart + auctionDuration] being out of range.  So does, two
    seconds into its auction, the job posted with prices 0 to 2^255 over four
    seconds: the product [range * elapsed] is 2^256 where the linear ramp
    gives 2^254. *)
Lemma getCurrentPrice_overflow_reverts :
  let long := posted (mkEnv POSTER 1000) "Test" 100 200 MAX_UINT256 300 in
  let wide := posted (mkEnv POSTER 1000) "Test" 0 (2 ^ 255) 4 300 in
  (jobs (board w_long) = [long] /\
   minPrice long <= maxPrice long /\ 0 < auctionDuration long /\
   linearPrice long 1000 = 100 /\
   getCurrentPrice 1000 0 (board w_long) = Err (Panic PANIC_ARITHMETIC) /\
   getCurrentPrice 1000 0 (board w_long) <> Ok (linearPrice long 1000)) /\
  (jobs (board w_wide) = [wide] /\
   minPrice wide <= maxPrice wide /\ 0 < auctionDuration wide /\
   linearPrice wide 1002 = 2 ^ 254 /\
   getCurrentPrice 1002 0 (board w_wide) = Err (Panic PANIC_ARITHMETIC) /\
   getCurrentPrice 1002 0 (board w_wide) <> Ok (linearPrice wide 1002)).
Proof. vm_compute. repeat split; congruence. Qed.

(** C2, amended: for an existing job with [minPrice <= maxPrice] and
    [auctionDuration > 0] whose price is defined at [now] (the end of the
    auction and, on the ramp, the product [range * elapsed] fit a [uint256],
    and [now] is not before [auctionStart]), [getCurrentPrice] returns the
    linear ramp [minPrice + (maxPrice - minPrice) * elapsed / auctionDuration]
    with the elapsed time clamped to the auction and the division truncating;
    that is [minPrice] at the start and [maxPrice] from the end of the auction
    on.  For an index past the last job it reverts with
    ["Job does not exist"]. *)
Theorem getCurrentPrice_linear (b : Board) (jobId : Z) (job : Job) (now : Z) :
  0 <= jobId ->
  jobs b !! Z.to_nat jobId = Some job ->
  0 <= minPrice job <= maxPrice job ->
  maxPrice job <= MAX_UINT256 ->
  0 <= auctionStart job ->
  0 < auctionDuration job ->
  price_defined job now ->
  getCurrentPrice now jobId b = Ok (linearPrice job now) /\
  (now = auctionStart job -> getCurrentPrice now jobId b = Ok (minPrice job)) /\
  (auctionStart job + auctionDuration job <= now ->
   getCurrentPrice now jobId b = Ok (maxPrice job)) /\
  (forall unknown, Z.of_nat (length (jobs b)) <= unknown ->
                   getCurrentPrice now unknown b = Err (Revert "Job does not exist")).
Proof.
  intros Hid Hjob Hmin Hmax Hstart Hdur Hdef.
  assert (getCurrentPrice now jobId b = Ok (linearPrice job now)) as Hprice.
  { unfold getCurrentPrice.
    pose proof (lookup_lt_Some _ _ _ Hjob) as Hlt.
    rewrite (proj2 (Z.ltb_lt _ _)) by lia.
    rewrite require_true, bind_Ok, (jobAt_Ok _ _ _ Hjob), bind_Ok.
    by apply _getCurrentPrice_defined. }
  repeat split.
  - done.
  - intros ->. by rewrite Hprice, linearPrice_at_start.
  - intros Hend. by rewrite Hprice, linearPrice_after.
  - intros unknown Hlen. unfold getCurrentPrice.
    by rewrite (proj2 (Z.ltb_ge _ _)).
Qed.

Lemma getCurrentPrice_linear_witness :
  getCurrentPrice 1030 0 (board w_posted) = Ok 150.
Proof.
  refine (proj1 (getCurrentPrice_linear (board w_posted) 0
                   (posted (mkEnv POSTER 1000) "Test" 100 200 60 300) 1030
                   _ _ _ _ _ _ _)).
  - lia.
  - reflexivity.
  - simpl; lia.
  - vm_compute; congruence.
  - simpl; lia.
  - simpl; lia.
  - split; [vm_compute; congruence|]. intros _. split; vm_compute; congruence.
Defined.

(** C7, as stated, fails at the edge of the [uint256] range.  The job posted
    with an auction of [2^256 - 1] seconds meets [maxPrice > 0],
    [maxPrice >= minPrice] and [auctionDuration > 0], and at elapsed time 0
    its price is not [minPrice]: the sum [auctionStart + auctionDuration]
    overflows and the price function reverts.  For the job posted with
    prices 0 to 2^255 over four seconds the price is 2^253 at elapsed time 1
    and has no value at elapsed time 2, where the product [range * elapsed]
    overflows. *)
Lemma price_overflow_reverts :
  let long := posted (mkEnv POSTER 1000) "Test" 100 200 MAX_UINT256 300 in
  let wide := posted (mkEnv POSTER 1000) "Test" 0 (2 ^ 255) 4 300 in
  (jobs (board w_long) = [long] /\
   0 < maxPrice long /\ minPrice long <= maxPrice long /\ 0 < auctionDuration long /\
   _getCurrentPrice (auctionStart long) long = Err (Panic PANIC_ARITHMETIC) /\
   _getCurrentPrice (auctionStart long) long <> Ok (minPrice long)) /\
  (jobs (board w_wide) = [wide] /\
   0 < maxPrice wide /\ minPrice wide <= maxPrice wide /\ 0 < auctionDuration wide /\
   _getCurrentPrice (auctionStart wide + 1) wide = Ok (2 ^ 253) /\
   _getCurrentPrice (auctionStart wide + 2) wide = Err (Panic PANIC_ARITHMETIC)).
Proof. vm_compute. repeat split; congruence. Qed.

(** C7, amended: for a validly posted job ([maxPrice > 0],
    [maxPrice >= minPrice], [auctionDuration > 0]) and two times
    [auctionStart <= t1 <= t2] at which the price is defined (no [uint256]
    overflow), the price at [t1] is at most the price at [t2], both lie
    between [minPrice] and [maxPrice], the price at [auctionStart] is
    [minPrice], and the price at and after the end of the auction is
    [maxPrice]. *)
Theorem price_monotone (job : Job) (t1 t2 : Z) :
  0 <= minPrice job <= maxPrice job ->
  0 < maxPrice job <= MAX_UINT256 ->
  0 <= auctionStart job ->
  0 < auctionDuration job ->
  auctionStart job <= t1 <= t2 ->
  price_defined job t1 ->
  price_defined job t2 ->
  exists p1 p2,
    _getCurrentPrice t1 job = Ok p1 /\
    _getCurrentPrice t2 job = Ok p2 /\
    minPrice job <= p1 /\ p1 <= p2 /\ p2 <= maxPrice job /\
    (t1 = auctionStart job -> p1 = minPrice job) /\
    (auctionStart job + auctionDuration job <= t2 -> p2 = maxPrice job).
Proof.
  intros Hmin Hmax Hstart Hdur Ht Hd1 Hd2.
  exists (linearPrice job t1), (linearPrice job t2).
  destruct (linearPrice_monotone job t1 t2) as (? & ? & ?); [done..|].
  repeat split; try done.
  - apply _getCurrentPrice_defined; (done || lia).
  - apply _getCurrentPrice_defined; (done || lia).
  - intros ->. by apply linearPrice_at_start.
  - intros Hend. by apply linearPrice_after.
Qed.

Lemma price_monotone_witness :
  exists p1 p2,
    _getCurrentPrice 1000 (posted (mkEnv POSTER 1000) "Test" 100 200 60 300) = Ok p1 /\
    _getCurrentPrice 1030 (posted (mkEnv POSTER 1000) "Test" 100 200 60 300) = Ok p2 /\
    100 <= p1 /\ p1 <= p2 /\ p2 <= 200 /\
    (1000 = 1000 -> p1 = 100) /\ (1000 + 60 <= 1030 -> p2 = 200).
Proof.
  apply (price_monotone (posted (mkEnv POSTER 1000) "Test" 100 200 60 300) 1000 1030).
  - simpl; lia.
  - split; [simpl; lia | vm_compute; congruence].
  - simpl; lia.
  - simpl; lia.
  - simpl; lia.
  - split; [vm_compute; congruence|]. intros _. split; vm_compute; congruence.
  - split; [vm_compute; congruence|]. intros _. split; vm_compute; congruence.
Defined.

(** ** Claiming a job *)

Lemma jobAt_insert (b : Board) (jobId : Z) (job job' : Job) st e :
  jobAt b jobId = Ok job ->
  jobAt (mkBoard (<[Z.to_nat jobId := job']> (jobs b)) st e) jobId = Ok job'.
Proof.
  intros Hj. apply jobAt_Ok_inv in Hj. apply jobAt_Ok. simpl.
  apply list_lookup_insert_eq. by eapply lookup_lt_Some.
Qed.

(** C3: a successful [claimJob] on an open job by a caller other than the
    poster has computed the auction price at the timestamp of the claim and
    has written the job with status [Claimed], the caller as agent, the
    given agent id, the timestamp as [claimedAt] and the price as
    [paidAmount]; nothing else in storage changes; the token ledger is the
    one after a transfer of [maxPrice - price] from the board to the poster
    when that refund is positive, and is untouched when the refund is
    zero. *)
Theorem claimJob_postcondition {T : Type} `{IERC20 T}
    (env : Env) (jobId id : Z) (w w' : World T) (job : Job) :
  jobAt (board w) jobId = Ok job ->
  status job = Open ->
  msg_sender env <> poster job ->
  claimJob env jobId id w = Ok w' ->
  exists price job',
    _getCurrentPrice (block_timestamp env) job = Ok price /\
    jobAt (board w') jobId = Ok job' /\
    job' = claimed env id price job /\
    status job' = Claimed /\
    agent job' = msg_sender env /\
    agentId job' = id /\
    claimedAt job' = block_timestamp env /\
    paidAmount job' = price /\
    jobs (board w') = <[Z.to_nat jobId := job']> (jobs (board w)) /\
    agentStats (board w') = agentStats (board w) /\
    (if 0 <? maxPrice job - price
     then transfer (this w) (poster job) (maxPrice job - price) (clawd w)
          = Some (clawd w')
     else clawd w' = clawd w).
Proof.
  intros Hjob Hopen Hcaller Hok.
  apply claimJob_Ok_inv in Hok
    as (job0 & price & tok & _ & Hj & _ & _ & Hprice & _ & Htr & ->).
  rewrite Hjob in Hj. injection Hj as <-.
  exists price, (claimed env id price job). simpl.
  repeat split; try done.
  by eapply jobAt_insert.
Qed.

(** The scenario of the specification: a job of 100 to 200 over 60 seconds,
    claimed at elapsed time 30, is locked at 150; 50 go back to the poster
    and the board keeps 150. *)
Lemma claimJob_postcondition_witness :
  (exists price job',
    _getCurrentPrice 1030 (posted (mkEnv POSTER 1000) "Test" 100 200 60 300)
      = Ok price /\
    jobAt (board w_claimed) 0 = Ok job' /\
    job' = claimed (mkEnv AGENT 1030) 21548 price
             (posted (mkEnv POSTER 1000) "Test" 100 200 60 300) /\
    status job' = Claimed /\
    agent job' = AGENT /\
    agentId job' = 21548 /\
    claimedAt job' = 1030 /\
    paidAmount job' = price /\
    jobs (board w_claimed) = <[0%nat := job']> (jobs (board w_posted)) /\
    agentStats (board w_claimed) = agentStats (board w_posted) /\
    (if 0 <? 200 - price
     then transfer BOARD POSTER (200 - price) (clawd w_posted) = Some (clawd w_claimed)
     else clawd w_claimed = clawd w_posted)) /\
  _getCurrentPrice 1030 (posted (mkEnv POSTER 1000) "Test" 100 200 60 300) = Ok 150 /\
  balanceOf (clawd w_posted) BOARD = 200 /\
  balanceOf (clawd w_claimed) BOARD = 150 /\
  balanceOf (clawd w_claimed) POSTER = balanceOf (clawd w_posted) POSTER + 50.
Proof.
  split; [|by vm_compute].
  apply (claimJob_postcondition (mkEnv AGENT 1030) 0 21548 w_posted w_claimed
           (posted (mkEnv POSTER 1000) "Test" 100 200 60 300)).
  - by vm_compute.
  - reflexivity.
  - by vm_compute.
  - by vm_compute.
Defined.

(** ** One winner per job *)

Section Exclusive.
Context {T : Type} `{IERC20 T}.

Lemma claimJob_not_open env jobId agentId (w : World T) job :
  _entered (board w) = false ->
  jobAt (board w) jobId = Ok job ->
  status job <> Open ->
  claimJob env jobId agentId w = Err (Revert "Job not open").
Proof.
  intros Hent Hjob Hst. rewrite (claimJob_unfold env jobId w job) by done.
  by rewrite bool_decide_eq_false_2.
Qed.

Lemma outcomes_after_claim jobId (w1 : World T) job (rest : list (Env * Z)) :
  _entered (board w1) = false ->
  jobAt (board w1) jobId = Ok job ->
  status job <> Open ->
  outcomes (map (fun c => (c.1, ClaimJob jobId c.2)) rest) w1 =
    map (fun _ => Err (Revert "Job not open")) rest /\
  run (map (fun c => (c.1, ClaimJob jobId c.2)) rest) w1 = w1.
Proof.
  intros Hent Hjob Hst. induction rest as [|[env a] rest [IHo IHr]]; [done|].
  simpl. unfold transact. simpl.
  rewrite (claimJob_not_open env jobId a w1 job) by done.
  by rewrite IHo, IHr.
Qed.

End Exclusive.

(** C8, amended: transactions on the board execute one after the other, so [N]
    concurrent claims are [N] claims in some order.  Take any order of
    claims on an open job, each of which would succeed if it ran alone: the
    first one succeeds and its caller becomes the agent of the job, every
    other one reverts with ["Job not open"], and the world after all of
    them is the world after the first, so the refund left the board's
    balance once. *)
Theorem claimJob_exclusive {T : Type} `{IERC20 T}
    (w : World T) (jobId : Z) (job : Job)
    (first : Env * Z) (rest : list (Env * Z)) :
  jobAt (board w) jobId = Ok job ->
  status job = Open ->
  Forall (fun c => is_Ok (claimJob c.1 jobId c.2 w)) (first :: rest) ->
  let txs := map (fun c => (c.1, ClaimJob jobId c.2)) (first :: rest) in
  exists w1 job1,
    outcomes txs w = Ok w1 :: map (fun _ => Err (Revert "Job not open")) rest /\
    length (List.filter succeeded (outcomes txs w)) = 1%nat /\
    run txs w = w1 /\
    claimJob first.1 jobId first.2 w = Ok w1 /\
    jobAt (board w1) jobId = Ok job1 /\
    status job1 = Claimed /\
    agent job1 = msg_sender first.1.
Proof.
  intros Hjob Hopen Hall txs. destruct first as [env a].
  apply Forall_cons in Hall as [[w1 Hfirst] _]. simpl in Hfirst.
  pose proof Hfirst as Hinv.
  apply claimJob_Ok_inv in Hinv
    as (job0 & price & tok & Hent & Hj & _ & _ & _ & _ & _ & Hw1).
  rewrite Hjob in Hj. injection Hj as <-.
  assert (jobAt (board w1) jobId = Ok (claimed env a price job)) as Hj1.
  { subst w1. by eapply jobAt_insert. }
  destruct (outcomes_after_claim jobId w1 (claimed env a price job) rest)
    as [Ho Hr]; [by subst w1|done|done|].
  exists w1, (claimed env a price job).
  subst txs. simpl. unfold transact. simpl. rewrite Hfirst, Ho, Hr.
  repeat split; try done.
  simpl. f_equal. clear. induction rest as [|c rest IH]; [done|]. by simpl.
Qed.

Lemma claimJob_exclusive_witness :
  exists w1 job1,
    outcomes [(mkEnv AGENT 1030, ClaimJob 0 21548); (mkEnv AGENT2 1030, ClaimJob 0 7)]
             w_posted
      = [Ok w1; Err (Revert "Job not open")] /\
    length (List.filter succeeded
              (outcomes [(mkEnv AGENT 1030, ClaimJob 0 21548);
                         (mkEnv AGENT2 1030, ClaimJob 0 7)] w_posted)) = 1%nat /\
    run [(mkEnv AGENT 1030, ClaimJob 0 21548); (mkEnv AGENT2 1030, ClaimJob 0 7)]
        w_posted = w1 /\
    claimJob (mkEnv AGENT 1030) 0 21548 w_posted = Ok w1 /\
    jobAt (board w1) 0 = Ok job1 /\
    status job1 = Claimed /\
    agent job1 = AGENT.
Proof.
  apply (claimJob_exclusive w_posted 0
           (posted (mkEnv POSTER 1000) "Test" 100 200 60 300)
           (mkEnv AGENT 1030, 21548) [(mkEnv AGENT2 1030, 7)]).
  - reflexivity.
  - reflexivity.
  - repeat constructor; eexists; vm_compute; reflexivity.
Defined.

(** ** Reachable scenarios *)

Lemma genesis_reachable : reachable genesis books0.
Proof. apply (reach_deploy BOARD ledger0); by vm_compute. Qed.

Ltac solve_valid :=
  first [ by vm_compute
        | repeat split; by vm_compute ].

Lemma w_posted_reachable : reachable w_posted books_posted.
Proof. apply reach_transact; [apply genesis_reachable| |]; solve_valid. Qed.

Lemma w_claimed_reachable : reachable w_claimed books_claimed.
Proof. apply reach_transact; [apply w_posted_reachable| |]; solve_valid. Qed.

Lemma w_submitted_reachable : reachable w_submitted books_submitted.
Proof. apply reach_transact; [apply w_claimed_reachable| |]; solve_valid. Qed.

Lemma w_completed_reachable : reachable w_completed books_completed.
Proof. apply reach_transact; [apply w_submitted_reachable| |]; solve_valid. Qed.

Lemma w_long_reachable : reachable w_long books_long.
Proof. apply reach_transact; [apply genesis_reachable| |]; solve_valid. Qed.

Lemma w_wide_reachable : reachable w_wide books_wide.
Proof. apply reach_transact; [apply genesis_reachable| |]; solve_valid. Qed.

Lemma w_endless_reachable : reachable w_endless books_endless.
Proof.
  apply reach_transact; [|solve_valid..].
  apply reach_transact; [apply genesis_reachable| |]; solve_valid.
Qed.

(** ** Sequences of valid transactions stay within the reachable worlds *)

Section ReachableRuns.
Context {T : Type} `{IERC20 T}.

Lemma transact_this env c (w : World T) : this (transact env c w) = this w.
Proof.
  unfold transact. destruct (execute env c w) as [w'|e] eqn:Hex; [|done].
  destruct c as [d mn mx ad wd|jobId r|jobId|jobId|jobId agentId|jobId uri|jobId];
    simpl in Hex.
  - destruct (postJob env d mn mx ad wd w) as [[jobId w1]|] eqn:Hp; [|done].
    injection Hex as ->.
    by apply postJob_Ok_inv in Hp as (tok & _ & _ & _ & _ & _ & _ & _ & _ & ->).
  - by apply approveWork_Ok_inv in Hex as (? & ? & _ & _ & _ & _ & _ & _ & ->).
  - by apply disputeWork_Ok_inv in Hex as (? & ? & _ & _ & _ & _ & _ & ->).
  - by apply cancelJob_Ok_inv in Hex as (? & ? & _ & _ & _ & _ & _ & ->).
  - by apply claimJob_Ok_inv in Hex as (? & ? & ? & _ & _ & _ & _ & _ & _ & _ & ->).
  - by apply submitWork_Ok_inv in Hex as (? & _ & _ & _ & _ & _ & _ & ->).
  - by apply expireJob_Ok_inv in Hex as (? & ? & _ & _ & _ & _ & _ & _ & ->).
Qed.

Lemma reachable_run txs (w : World T) bk :
  reachable w bk -> Forall (valid_tx w) txs ->
  reachable (run txs w) (record_run txs w bk).
Proof.
  revert w bk. induction txs as [|[env c] txs IH]; intros w bk Hreach Hvalid; [done|].
  apply Forall_cons in Hvalid as [[Henv Hc] Hvalid]. simpl in Henv, Hc. simpl.
  apply IH; [by apply reach_transact|].
  eapply Forall_impl; [done|]. intros [env' c'] [Henv' Hc'].
  split; [|done]. unfold valid_env in *. by rewrite transact_this.
Qed.

End ReachableRuns.

Lemma w_big_completed_reachable : reachable w_big_completed books_big_completed.
Proof.
  apply reachable_run; [apply genesis_reachable|].
  unfold first_big_job, big_job. simpl.
  repeat (apply Forall_cons; split; [vm_compute; repeat split; discriminate|]).
  by apply Forall_nil.
Qed.

Lemma w_big_repaid_reachable : reachable w_big_repaid books_big_repaid.
Proof.
  apply (reach_token w_big_completed books_big_completed ledger_repaid).
  - apply w_big_completed_reachable.
  - by vm_compute.
Qed.

Lemma w_big_submitted_reachable : reachable w_big_submitted books_big_submitted.
Proof.
  apply reachable_run; [apply w_big_repaid_reachable|].
  unfold big_job.
  repeat (apply Forall_cons; split; [vm_compute; repeat split; discriminate|]).
  by apply Forall_nil.
Qed.

(** ** Races that nobody wins *)

(** C8, as stated, fails where the price of a claim overflows.  The job
    posted with an auction of [2^256 - 1] seconds is open in a reachable
    world; two callers other than the poster race to claim it, at whatever
    timestamps: both claims revert with the arithmetic panic, and there is
    no winner.  On the job posted with prices 0 to 2^255 over four seconds,
    also open in a reachable world, a claim two seconds into the auction
    reverts with the arithmetic panic and a claim by someone else at the
    end of the auction then succeeds: one caller wins, and the one who
    lost was refused with the panic, not with ["Job not open"]. *)
Lemma claimJob_race_without_winner :
  (reachable w_long books_long /\
   (status <$> jobs (board w_long) !! 0%nat) = Some Open /\
   AGENT <> POSTER /\ AGENT2 <> POSTER /\
   forall now1 now2,
     outcomes [(mkEnv AGENT now1, ClaimJob 0 21548);
               (mkEnv AGENT2 now2, ClaimJob 0 21549)] w_long
     = [Err (Panic PANIC_ARITHMETIC); Err (Panic PANIC_ARITHMETIC)] /\
     filter (fun r => succeeded r = true)
            (outcomes [(mkEnv AGENT now1, ClaimJob 0 21548);
                       (mkEnv AGENT2 now2, ClaimJob 0 21549)] w_long) = []) /\
  (reachable w_wide books_wide /\
   (status <$> jobs (board w_wide) !! 0%nat) = Some Open /\
   exists w',
     outcomes [(mkEnv AGENT 1002, ClaimJob 0 21548);
               (mkEnv AGENT2 1004, ClaimJob 0 21549)] w_wide
     = [Err (Panic PANIC_ARITHMETIC); Ok w'] /\
     (agent <$> jobs (board w') !! 0%nat) = Some AGENT2 /\
     Err (Panic PANIC_ARITHMETIC) <> Err (A := World ERC20) (Revert "Job not open")).
Proof.
  split.
  - split; [apply w_long_reachable|]. split; [by vm_compute|].
    split; [done|]. split; [done|]. intros now1 now2.
    assert (outcomes [(mkEnv AGENT now1, ClaimJob 0 21548);
                      (mkEnv AGENT2 now2, ClaimJob 0 21549)] w_long
            = [Err (Panic PANIC_ARITHMETIC); Err (Panic PANIC_ARITHMETIC)]) as Hout
      by (by vm_compute).
    split; [done|]. by rewrite Hout.
  - split; [apply w_wide_reachable|]. split; [by vm_compute|].
    eexists. split; [by vm_compute|]. split; [by vm_compute|]. done.
Qed.

(** ** Conservation of the escrow *)

(** C1: in every reachable world and for every job, what the board still
    holds for the job plus what has left the board in the transactions on
    that job is the [maxPrice] escrowed when the job was posted; the board's
    token balance is its surplus plus the escrow it holds for all jobs; and
    a transaction changes the balance by exactly the change of that escrow,
    leaving the surplus as it was: no call creates or destroys value. *)
Theorem value_conservation {T : Type} `{StandardToken T}
    (w : World T) (bk : Books) :
  reachable w bk ->
  (forall jobId job,
     0 <= jobId -> jobAt (board w) jobId = Ok job ->
     outstanding job + released bk jobId = maxPrice job) /\
  balanceOf (clawd w) (this w) = surplus bk + escrowTotal (jobs (board w)) /\
  (forall env c,
     valid_env w env -> valid_call c ->
     surplus (record_tx env c w bk) = surplus bk /\
     balanceOf (clawd (transact env c w)) (this (transact env c w))
       - balanceOf (clawd w) (this w)
     = escrowTotal (jobs (board (transact env c w))) - escrowTotal (jobs (board w))).
Proof.
  intros Hreach. pose proof (reachable_Inv w bk Hreach) as Hinv.
  split; [|split].
  - intros jobId job Hid Hjob. apply jobAt_Ok_inv in Hjob.
    destruct (inv_jobs w bk Hinv _ _ Hjob) as [_ Heq].
    rewrite Z2Nat.id in Heq by done. lia.
  - apply (inv_backed w bk Hinv).
  - intros env c Henv Hc.
    pose proof (Inv_transact w bk env c Hinv Henv Hc) as Hinv'.
    pose proof (inv_backed w bk Hinv) as Hb.
    pose proof (inv_backed _ _ Hinv') as Hb'.
    assert (surplus (record_tx env c w bk) = surplus bk) as Hs.
    { unfold record_tx. by destruct (jobOf c). }
    split; [done|]. rewrite Hs in Hb'. lia.
Qed.

Lemma value_conservation_witness :
  ((forall jobId job,
     0 <= jobId -> jobAt (board w_completed) jobId = Ok job ->
     outstanding job + released books_completed jobId = maxPrice job) /\
   balanceOf (clawd w_completed) (this w_completed)
     = surplus books_completed + escrowTotal (jobs (board w_completed)) /\
   (forall env c,
     valid_env w_completed env -> valid_call c ->
     surplus (record_tx env c w_completed books_completed) = surplus books_completed /\
     balanceOf (clawd (transact env c w_completed)) (this (transact env c w_completed))
       - balanceOf (clawd w_completed) (this w_completed)
     = escrowTotal (jobs (board (transact env c w_completed)))
       - escrowTotal (jobs (board w_completed)))) /\
  released books_claimed 0 = 50 /\
  escrowTotal (jobs (board w_claimed)) = 150 /\
  released books_completed 0 = 200 /\
  escrowTotal (jobs (board w_completed)) = 0.
Proof.
  split; [|by vm_compute].
  exact (value_conservation w_completed books_completed w_completed_reachable).
Defined.

(** ** Open jobs after the end of the auction *)

(** C10, as stated, fails at the edge of the [uint256] range.  The job
    posted with prices 0 to 2^255 over four seconds is open in a reachable
    world and can be claimed one second into its auction; one second later
    the same claim reverts with the arithmetic panic, the product
    [range * elapsed] being 2^256, although the job is still open.  The job
    posted with an auction of [2^256 - 1] seconds is open in a reachable
    world too, and a claim by a caller other than the poster reverts at
    every timestamp, the sum [auctionStart + auctionDuration] being out of
    range. *)
Lemma claimJob_overflow_reverts :
  (reachable w_wide books_wide /\
   jobs (board w_wide) = [posted (mkEnv POSTER 1000) "Test" 0 (2 ^ 255) 4 300] /\
   AGENT <> POSTER /\
   is_Ok (claimJob (mkEnv AGENT 1001) 0 21548 w_wide) /\
   claimJob (mkEnv AGENT 1002) 0 21548 w_wide = Err (Panic PANIC_ARITHMETIC) /\
   ~ is_Ok (claimJob (mkEnv AGENT 1002) 0 21548 w_wide)) /\
  (reachable w_long books_long /\
   jobs (board w_long) = [posted (mkEnv POSTER 1000) "Test" 100 200 MAX_UINT256 300] /\
   forall now,
     claimJob (mkEnv AGENT now) 0 21548 w_long = Err (Panic PANIC_ARITHMETIC) /\
     ~ is_Ok (claimJob (mkEnv AGENT now) 0 21548 w_long)).
Proof.
  split.
  - split; [apply w_wide_reachable|]. split; [by vm_compute|]. split; [done|].
    split; [eexists; by vm_compute|].
    assert (claimJob (mkEnv AGENT 1002) 0 21548 w_wide = Err (Panic PANIC_ARITHMETIC))
      as Hrev by (by vm_compute).
    split; [done|]. rewrite Hrev. by intros [w' Hw'].
  - split; [apply w_long_reachable|]. split; [by vm_compute|]. intros now.
    assert (claimJob (mkEnv AGENT now) 0 21548 w_long = Err (Panic PANIC_ARITHMETIC))
      as Hrev by (by vm_compute).
    split; [done|]. rewrite Hrev. by intros [w' Hw'].
Qed.

(** C10, amended: in a reachable world an open job stays open to both of
    its exits whatever the time.  The poster can cancel it at any
    timestamp.  A caller other than the poster can claim it at every
    timestamp at which the price is defined (no [uint256] overflow in
    [auctionStart + auctionDuration], nor on the ramp in
    [range * elapsed]); the claim locks the price of that instant, which is
    [maxPrice] from the end of the auction on, however long ago that was. *)
Theorem open_job_stays_claimable {T : Type} `{StandardToken T}
    (w : World T) (bk : Books) (jobId id : Z) (job : Job) (env : Env) :
  reachable w bk ->
  jobAt (board w) jobId = Ok job ->
  status job = Open ->
  valid_env w env ->
  (msg_sender env = poster job ->
   exists w', cancelJob env jobId w = Ok w' /\
              jobAt (board w') jobId = Ok (with_status Cancelled job)) /\
  (msg_sender env <> poster job ->
   price_defined job (block_timestamp env) ->
   exists w', claimJob env jobId id w = Ok w' /\
              jobAt (board w') jobId
                = Ok (claimed env id (linearPrice job (block_timestamp env)) job) /\
              (auctionStart job + auctionDuration job <= block_timestamp env ->
               jobAt (board w') jobId = Ok (claimed env id (maxPrice job) job))).
Proof.
  intros Hreach Hjob Hopen (Hs0 & Hsthis & Hts).
  pose proof (reachable_Inv w bk Hreach) as Hinv.
  pose proof (Inv_jobAt w bk jobId job Hinv Hjob) as Hwf.
  pose proof (inv_entered w bk Hinv) as Hent.
  pose proof (inv_this w bk Hinv) as Hthis.
  assert (maxPrice job <= balanceOf (clawd w) (this w)) as Hbacked.
  { rewrite (inv_backed w bk Hinv).
    pose proof (inv_surplus w bk Hinv).
    pose proof (jobAt_Ok_inv _ _ _ Hjob) as Hl.
    assert (outstanding job <= escrowTotal (jobs (board w))) as Hle.
    { eapply escrowTotal_lookup_le; [|done].
      intros k j Hk. destruct (inv_jobs w bk Hinv k j Hk) as [Hwfj _].
      by eapply outstanding_nonneg. }
    unfold outstanding in Hle. rewrite Hopen in Hle. lia. }
  destruct Hwf as [Hmin Hmax Hstart Hdur Hwd [Hp0 Hpthis] Hpaid Hag].
  split.
  - intros Hposter.
    destruct (transfer_succeeds (clawd w) (this w) (poster job) (maxPrice job))
      as [tok Htok]; [done|done|lia|].
    eexists. rewrite (cancelJob_unfold env jobId w job) by done.
    rewrite (proj2 (Z.eqb_eq _ _) Hposter), require_true, bind_Ok.
    rewrite bool_decide_eq_true_2, require_true, bind_Ok by done.
    unfold safeTransfer. rewrite Htok, bind_Ok.
    split; [done|]. by eapply jobAt_insert.
  - intros Hcaller Hdef.
    pose proof (_getCurrentPrice_defined job (block_timestamp env)) as Hprice.
    rewrite <- (Z.eqb_neq) in Hcaller.
    assert (minPrice job <= linearPrice job (block_timestamp env) <= maxPrice job)
      as Hb.
    { eapply (_getCurrentPrice_bounds (this w)); [by split|].
      apply Hprice; (done || lia || apply Hstart). }
    set (price := linearPrice job (block_timestamp env)) in *.
    assert (exists tok,
              (if 0 <? maxPrice job - price
               then safeTransfer (this w) (poster job) (maxPrice job - price) (clawd w)
               else Ok (clawd w)) = Ok tok) as [tok Htok].
    { destruct (0 <? maxPrice job - price); [|by eexists].
      destruct (transfer_succeeds (clawd w) (this w) (poster job) (maxPrice job - price))
        as [tok Htok]; [done|done|lia|].
      exists tok. unfold safeTransfer. by rewrite Htok. }
    eexists. rewrite (claimJob_unfold env jobId w job) by done.
    rewrite bool_decide_eq_true_2, require_true, bind_Ok by done.
    rewrite Hcaller. simpl negb. rewrite require_true, bind_Ok.
    rewrite Hprice by (done || lia || apply Hstart). rewrite bind_Ok.
    rewrite checked_sub_Ok, bind_Ok by (unfold price; lia).
    fold price. rewrite Htok, bind_Ok.
    split; [done|]. split; [by eapply jobAt_insert|].
    intros Hend. unfold price. rewrite linearPrice_after by (done || lia).
    by eapply jobAt_insert.
Qed.

Lemma open_job_stays_claimable_witness :
  (msg_sender (mkEnv AGENT 999999) = POSTER ->
   exists w', cancelJob (mkEnv AGENT 999999) 0 w_posted = Ok w' /\
              jobAt (board w') 0
                = Ok (with_status Cancelled
                        (posted (mkEnv POSTER 1000) "Test" 100 200 60 300))) /\
  (msg_sender (mkEnv AGENT 999999) <> POSTER ->
   price_defined (posted (mkEnv POSTER 1000) "Test" 100 200 60 300) 999999 ->
   exists w', claimJob (mkEnv AGENT 999999) 0 21548 w_posted = Ok w' /\
              jobAt (board w') 0
                = Ok (claimed (mkEnv AGENT 999999) 21548
                        (linearPrice (posted (mkEnv POSTER 1000) "Test" 100 200 60 300)
                                     999999)
                        (posted (mkEnv POSTER 1000) "Test" 100 200 60 300)) /\
              (1000 + 60 <= 999999 ->
               jobAt (board w') 0
                 = Ok (claimed (mkEnv AGENT 999999) 21548 200
                         (posted (mkEnv POSTER 1000) "Test" 100 200 60 300)))).
Proof.
  apply (open_job_stays_claimable w_posted books_posted 0 21548
           (posted (mkEnv POSTER 1000) "Test" 100 200 60 300) (mkEnv AGENT 999999)).
  - apply w_posted_reachable.
  - reflexivity.
  - reflexivity.
  - repeat split; by vm_compute.
Defined.

(** ** Terminal statuses *)

Section Terminal.
Context {T : Type} `{IERC20 T}.

Lemma terminal_not_live s :
  terminal s -> s <> Open /\ s <> Claimed /\ s <> Submitted.
Proof. intros [-> | [-> | [-> | ->]]]; done. Qed.

Lemma lookup_insert_other (l : list Job) (k i : nat) (old new job : Job) :
  l !! k = Some old -> l !! i = Some job -> status old <> status job ->
  <[k := new]> l !! i = Some job.
Proof.
  intros Hk Hi Hne. destruct (decide (k = i)) as [->|Hki].
  - rewrite Hk in Hi. by injection Hi as ->.
  - by rewrite list_lookup_insert_ne.
Qed.

Lemma transact_keeps_terminal env c (w : World T) (i : nat) (job : Job) :
  jobs (board w) !! i = Some job -> terminal (status job) ->
  jobs (board (transact env c w)) !! i = Some job.
Proof.
  intros Hi Hterm. apply terminal_not_live in Hterm as (HnO & HnC & HnS).
  unfold transact. destruct (execute env c w) as [w'|e] eqn:Hex; [|done].
  destruct c as [d mn mx ad wd|jobId r|jobId|jobId|jobId agentId|jobId uri|jobId];
    simpl in Hex.
  - destruct (postJob env d mn mx ad wd w) as [[jobId w1]|] eqn:Hp; [|done].
    injection Hex as ->.
    apply postJob_Ok_inv in Hp as (tok & _ & _ & _ & _ & _ & _ & _ & _ & ->).
    simpl. by apply lookup_app_l_Some.
  - apply approveWork_Ok_inv in Hex as (old & tok & _ & Hj & _ & Hst & _ & _ & ->).
    apply jobAt_Ok_inv in Hj. simpl.
    eapply lookup_insert_other; [done..|congruence].
  - apply disputeWork_Ok_inv in Hex as (old & tok & _ & Hj & _ & Hst & _ & ->).
    apply jobAt_Ok_inv in Hj. simpl.
    eapply lookup_insert_other; [done..|congruence].
  - apply cancelJob_Ok_inv in Hex as (old & tok & _ & Hj & _ & Hst & _ & ->).
    apply jobAt_Ok_inv in Hj. simpl.
    eapply lookup_insert_other; [done..|congruence].
  - apply claimJob_Ok_inv in Hex
      as (old & price & tok & _ & Hj & Hst & _ & _ & _ & _ & ->).
    apply jobAt_Ok_inv in Hj. simpl.
    eapply lookup_insert_other; [done..|congruence].
  - apply submitWork_Ok_inv in Hex as (old & Hj & _ & Hst & _ & _ & _ & ->).
    apply jobAt_Ok_inv in Hj. simpl.
    eapply lookup_insert_other; [done..|congruence].
  - apply expireJob_Ok_inv in Hex as (old & tok & _ & Hj & Hst & _ & _ & _ & ->).
    apply jobAt_Ok_inv in Hj. simpl.
    eapply lookup_insert_other; [done..|congruence].
Qed.

Lemma run_keeps_terminal txs (w : World T) (i : nat) (job : Job) :
  jobs (board w) !! i = Some job -> terminal (status job) ->
  jobs (board (run txs w)) !! i = Some job.
Proof.
  revert w. induction txs as [|[env c] txs IH]; intros w Hi Hterm; [done|].
  simpl. apply IH; [|done]. by apply transact_keeps_terminal.
Qed.

End Terminal.

(** C4, as stated, fails on the error: [approveWork], [disputeWork],
    [cancelJob] and [submitWork] check the caller before the status, so a
    call on a terminal job by someone else than the poster (or the agent)
    ends with the error of that check.  On the [Completed] job the agent's
    [approveWork] reverts with ["Only poster can approve"], not with
    ["Job not submitted"]; on the [Cancelled] job, which has no agent,
    [submitWork] reverts with ["Only assigned agent"] for every caller, never
    with ["Job not claimed"]. *)
Lemma terminal_call_role_error :
  ((status <$> jobs (board w_completed) !! 0%nat) = Some Completed /\
   execute (mkEnv AGENT 1060) (ApproveWork 0 90) w_completed
     = Err (Revert "Only poster can approve") /\
   execute (mkEnv AGENT 1060) (ApproveWork 0 90) w_completed
     <> Err (Revert "Job not submitted")) /\
  ((status <$> jobs (board w_cancelled) !! 0%nat) = Some Cancelled /\
   forall caller now, caller <> 0 ->
     execute (mkEnv caller now) (SubmitWork 0 "ipfs://bafkreiexample") w_cancelled
       = Err (Revert "Only assigned agent")).
Proof.
  split; [vm_compute; repeat split; congruence|].
  split; [by vm_compute|]. intros caller now Hcaller. simpl.
  rewrite (submitWork_unfold _ 0 w_cancelled
             (with_status Cancelled
                (posted (mkEnv POSTER 1000) "Test" 100 200 60 300)))
    by (by vm_compute).
  simpl. by rewrite (proj2 (Z.eqb_neq _ _) Hcaller).
Qed.

(** C4, amended: on a job whose status is [Completed], [Disputed],
    [Expired] or [Cancelled], every call of [claimJob], [submitWork],
    [approveWork], [disputeWork], [cancelJob] or [expireJob] reverts, with
    the status error of the function when the function checks the status
    first ([claimJob], [expireJob]) or the caller passes its check of the
    caller, and with the error of that check otherwise; the transaction
    leaves the whole world (jobs, statistics, token ledger) as it was; and
    after any further transactions the job is still the same record, so it
    never is [Open], [Claimed] or [Submitted] again. *)
Theorem terminal_absorbing {T : Type} `{IERC20 T}
    (w : World T) (env : Env) (c : Call) (jobId : Z) (job : Job) :
  _entered (board w) = false ->
  jobOf c = Some jobId ->
  jobAt (board w) jobId = Ok job ->
  terminal (status job) ->
  (exists e, terminal_error env c job = Some e /\ execute env c w = Err e) /\
  transact env c w = w /\
  (forall txs, jobAt (board (run txs w)) jobId = Ok job).
Proof.
  intros Hent Hc Hjob Hterm.
  pose proof (terminal_not_live _ Hterm) as (HnO & HnC & HnS).
  assert (exists e, terminal_error env c job = Some e /\ execute env c w = Err e)
    as (e & He & Hex).
  { destruct c as [d mn mx ad wd|j r|j|j|j a|j uri|j]; simpl in Hc;
      [done|injection Hc as ->..]; simpl; eexists; (split; [done|]).
    - rewrite (approveWork_unfold env jobId w job) by done.
      destruct (msg_sender env =? poster job); [|done].
      by rewrite require_true, bind_Ok, bool_decide_eq_false_2.
    - rewrite (disputeWork_unfold env jobId w job) by done.
      destruct (msg_sender env =? poster job); [|done].
      by rewrite require_true, bind_Ok, bool_decide_eq_false_2.
    - rewrite (cancelJob_unfold env jobId w job) by done.
      destruct (msg_sender env =? poster job); [|done].
      by rewrite require_true, bind_Ok, bool_decide_eq_false_2.
    - rewrite (claimJob_unfold env jobId w job) by done.
      by rewrite bool_decide_eq_false_2.
    - rewrite (submitWork_unfold env jobId w job) by done.
      destruct (msg_sender env =? agent job); [|done].
      by rewrite require_true, bind_Ok, bool_decide_eq_false_2.
    - rewrite (expireJob_unfold env jobId w job) by done.
      by rewrite bool_decide_eq_false_2. }
  split; [by exists e|]. split.
  - unfold transact. by rewrite Hex.
  - intros txs. apply jobAt_Ok. apply run_keeps_terminal; [|done].
    by apply jobAt_Ok_inv.
Qed.

Lemma terminal_absorbing_witness :
  (exists e,
     terminal_error (mkEnv POSTER 1060) (ApproveWork 0 90)
       (with_rating 90 (with_status Completed
          (with_submissionURI "ipfs://bafkreiexample" (with_status Submitted
             (claimed (mkEnv AGENT 1030) 21548 150
                (posted (mkEnv POSTER 1000) "Test" 100 200 60 300)))))) = Some e /\
     execute (mkEnv POSTER 1060) (ApproveWork 0 90) w_completed = Err e) /\
  transact (mkEnv POSTER 1060) (ApproveWork 0 90) w_completed = w_completed /\
  (forall txs,
     jobAt (board (run txs w_completed)) 0
     = Ok (with_rating 90 (with_status Completed
          (with_submissionURI "ipfs://bafkreiexample" (with_status Submitted
             (claimed (mkEnv AGENT 1030) 21548 150
                (posted (mkEnv POSTER 1000) "Test" 100 200 60 300))))))).
Proof.
  apply (terminal_absorbing w_completed (mkEnv POSTER 1060) (ApproveWork 0 90) 0).
  - by vm_compute.
  - reflexivity.
  - by vm_compute.
  - left; by vm_compute.
Defined.

(** ** Approval and the statistics of the agent *)

Lemma statsAt_insert (m : gmap address AgentStats) (a : address) (stats : AgentStats) :
  statsAt (<[a := stats]> m) a = stats.
Proof. unfold statsAt. by rewrite lookup_insert_eq. Qed.

(** C9, as stated, fails on the agent without a completed job:
    [getAgentStats] returns a [uint256] and has no way to say that there is
    no rating; it returns the number 0, which is also the average of an
    agent whose one completed job was rated 0. *)
Lemma average_without_jobs_is_zero :
  let fresh := mkBoard [] ∅ false in
  let rated := mkBoard [] {[ AGENT := mkAgentStats 1 0 0 0 ]} false in
  specAverage (statsAt (agentStats fresh) AGENT) = None /\
  specAverage (statsAt (agentStats rated) AGENT) = Some 0 /\
  getAgentStats AGENT fresh = (0, 0, 0, 0) /\
  getAgentStats AGENT rated = (1, 0, 0, 0) /\
  snd (getAgentStats AGENT fresh) = snd (getAgentStats AGENT rated) /\
  specAverage (statsAt (agentStats fresh) AGENT)
    <> specAverage (statsAt (agentStats rated) AGENT).
Proof. vm_compute. repeat split; congruence. Qed.

(** C9, amended: [getAgentStats] returns the stored counters and computes
    the average when asked, from the stored [totalRating] and
    [completedJobs]; no average is stored.  When [completedJobs > 0] the
    average is the quotient [totalRating / completedJobs], rounded down.
    When [completedJobs = 0] there is no average and the contract returns
    the number 0 in its place; the agents page shows that 0 as "N/A". *)
Theorem getAgentStats_average (a : address) (b : Board) :
  getAgentStats a b =
    (completedJobs (statsAt (agentStats b) a),
     disputedJobs (statsAt (agentStats b) a),
     totalEarned (statsAt (agentStats b) a),
     default 0 (specAverage (statsAt (agentStats b) a))) /\
  (0 < completedJobs (statsAt (agentStats b) a) ->
   specAverage (statsAt (agentStats b) a)
     = Some (totalRating (statsAt (agentStats b) a)
             / completedJobs (statsAt (agentStats b) a)) /\
   snd (getAgentStats a b)
     = totalRating (statsAt (agentStats b) a)
       / completedJobs (statsAt (agentStats b) a)) /\
  (completedJobs (statsAt (agentStats b) a) = 0 ->
   specAverage (statsAt (agentStats b) a) = None /\
   snd (getAgentStats a b) = 0 /\
   avgRatingLabel (Some (getAgentStats a b)) = NotAvailable).
Proof.
  unfold getAgentStats, specAverage, avgRatingLabel. cbv zeta.
  set (stats := statsAt (agentStats b) a).
  split; [by destruct (0 <? completedJobs stats)|]. split.
  - intros Hpos. by rewrite (proj2 (Z.ltb_lt _ _) Hpos).
  - intros ->. done.
Qed.

(** After the life cycle of the test-suite the agent has an average of 90;
    the second agent, without a completed job, gets 0 from the contract and
    "N/A" from the page. *)
Lemma getAgentStats_average_witness :
  snd (getAgentStats AGENT (board w_completed)) = 90 /\
  getAgentStats AGENT2 (board w_completed) = (0, 0, 0, 0) /\
  avgRatingLabel (Some (getAgentStats AGENT (board w_completed))) = Stars 90 /\
  avgRatingLabel (Some (getAgentStats AGENT2 (board w_completed))) = NotAvailable.
Proof.
  destruct (getAgentStats_average AGENT (board w_completed)) as (_ & Hsome & _).
  destruct (getAgentStats_average AGENT2 (board w_completed)) as (_ & _ & Hnone).
  destruct Hsome as [_ Havg]; [by vm_compute|].
  destruct Hnone as (_ & _ & Hlabel); [by vm_compute|].
  split; [rewrite Havg; by vm_compute|].
  split; [by vm_compute|]. split; [by vm_compute|]. exact Hlabel.
Defined.

(** C5, as stated, fails at the edge of the [uint256] range.  The world is
    reached by valid transactions: an agent has completed a job of 2^255
    tokens, has sent the tokens back to the poster, and has claimed and
    submitted a second job of 2^255 tokens.  The job is [Submitted], the
    caller is its poster, the rating is 90 and the board holds the 2^255
    tokens, so the payment would go through; yet [approveWork] reverts with
    the arithmetic panic, because [totalEarned] would reach 2^256: the job
    stays [Submitted], nothing is paid and no counter moves. *)
Lemma approveWork_counter_overflow_reverts :
  reachable w_big_submitted books_big_submitted /\
  (exists job,
     jobAt (board w_big_submitted) 1 = Ok job /\
     status job = Submitted /\ poster job = POSTER /\ agent job = AGENT /\
     paidAmount job = BIG) /\
  getAgentStats AGENT (board w_big_submitted) = (1, 0, BIG, 90) /\
  balanceOf (clawd w_big_submitted) BOARD = BIG /\
  is_Some (transfer BOARD AGENT BIG (clawd w_big_submitted)) /\
  approveWork (mkEnv POSTER 2050) 1 90 w_big_submitted = Err (Panic PANIC_ARITHMETIC) /\
  ~ is_Ok (approveWork (mkEnv POSTER 2050) 1 90 w_big_submitted) /\
  transact (mkEnv POSTER 2050) (ApproveWork 1 90) w_big_submitted = w_big_submitted.
Proof.
  split; [apply w_big_submitted_reachable|].
  split; [eexists; split; [by vm_compute|by vm_compute]|].
  split; [by vm_compute|]. split; [by vm_compute|].
  split; [eexists; by vm_compute|].
  assert (approveWork (mkEnv POSTER 2050) 1 90 w_big_submitted
          = Err (Panic PANIC_ARITHMETIC)) as Hrev by (by vm_compute).
  split; [done|]. split; [rewrite Hrev; by intros [? ?]|].
  unfold transact, execute. by rewrite Hrev.
Qed.

(** C5, amended: for a job in status [Submitted], the poster as caller and
    a rating of 0 to 100, a successful [approveWork] has set the status to
    [Completed], stored the rating, moved exactly [paidAmount] from the
    board to the agent, and added 1 to the agent's [completedJobs],
    [paidAmount] to its [totalEarned] and the rating to its [totalRating];
    [getAgentStats] then reports these counters and the average
    [(totalRating + rating) / (completedJobs + 1)].  When the token
    transfer fails the call reverts and the transaction leaves the world,
    status and statistics included, as it was.  The call succeeds whenever
    the transfer does and the three counters stay within [uint256]; when a
    counter would pass [2^256 - 1] the call reverts with the arithmetic
    panic, whether or not the transfer would succeed, and the transaction
    leaves the world as it was. *)
Theorem approveWork_postcondition {T : Type} `{IERC20 T}
    (env : Env) (jobId r : Z) (w : World T) (job : Job) :
  _entered (board w) = false ->
  jobAt (board w) jobId = Ok job ->
  status job = Submitted ->
  msg_sender env = poster job ->
  0 <= r <= 100 ->
  0 <= completedJobs (statsAt (agentStats (board w)) (agent job)) ->
  (forall w',
     approveWork env jobId r w = Ok w' ->
     jobAt (board w') jobId = Ok (with_rating r (with_status Completed job)) /\
     transfer (this w) (agent job) (paidAmount job) (clawd w) = Some (clawd w') /\
     statsAt (agentStats (board w')) (agent job)
       = withCompletion (paidAmount job) r
           (statsAt (agentStats (board w)) (agent job)) /\
     getAgentStats (agent job) (board w')
       = (completedJobs (statsAt (agentStats (board w)) (agent job)) + 1,
          disputedJobs (statsAt (agentStats (board w)) (agent job)),
          totalEarned (statsAt (agentStats (board w)) (agent job)) + paidAmount job,
          (totalRating (statsAt (agentStats (board w)) (agent job)) + r)
          / (completedJobs (statsAt (agentStats (board w)) (agent job)) + 1))) /\
  (transfer (this w) (agent job) (paidAmount job) (clawd w) = None ->
   (exists e, approveWork env jobId r w = Err e) /\
   transact env (ApproveWork jobId r) w = w /\
   (completedJobs (statsAt (agentStats (board w)) (agent job)) + 1 <= MAX_UINT256 ->
    totalEarned (statsAt (agentStats (board w)) (agent job)) + paidAmount job
      <= MAX_UINT256 ->
    totalRating (statsAt (agentStats (board w)) (agent job)) + r <= MAX_UINT256 ->
    approveWork env jobId r w = Err TokenCallFailed)) /\
  (forall tok,
     transfer (this w) (agent job) (paidAmount job) (clawd w) = Some tok ->
     completedJobs (statsAt (agentStats (board w)) (agent job)) + 1 <= MAX_UINT256 ->
     totalEarned (statsAt (agentStats (board w)) (agent job)) + paidAmount job
       <= MAX_UINT256 ->
     totalRating (statsAt (agentStats (board w)) (agent job)) + r <= MAX_UINT256 ->
     is_Ok (approveWork env jobId r w)) /\
  (MAX_UINT256 < completedJobs (statsAt (agentStats (board w)) (agent job)) + 1 \/
   MAX_UINT256 < totalEarned (statsAt (agentStats (board w)) (agent job)) + paidAmount job \/
   MAX_UINT256 < totalRating (statsAt (agentStats (board w)) (agent job)) + r ->
   approveWork env jobId r w = Err (Panic PANIC_ARITHMETIC) /\
   transact env (ApproveWork jobId r) w = w).
Proof.
  intros Hent Hjob Hst Hcaller Hr Hc.
  set (stats := statsAt (agentStats (board w)) (agent job)) in *.
  assert (completedJobs stats + 1 <= MAX_UINT256 ->
          totalEarned stats + paidAmount job <= MAX_UINT256 ->
          totalRating stats + r <= MAX_UINT256 ->
          approveWork env jobId r w =
          (tok ← safeTransfer (this w) (agent job) (paidAmount job) (clawd w);
           Ok (mkWorld (this w)
                 (mkBoard (<[Z.to_nat jobId := with_rating r (with_status Completed job)]>
                             (jobs (board w)))
                          (<[agent job := withCompletion (paidAmount job) r stats]>
                             (agentStats (board w)))
                          false)
                 tok))) as Hcounters.
  { intros Hc1 He1 Hr1.
    rewrite (approveWork_unfold env jobId w job) by done.
    rewrite (proj2 (Z.eqb_eq _ _) Hcaller), require_true, bind_Ok.
    rewrite bool_decide_eq_true_2, require_true, bind_Ok by done.
    rewrite (proj2 (Z.leb_le _ _)), require_true, bind_Ok by lia.
    cbv zeta. fold stats.
    rewrite (checked_add_Ok (completedJobs stats)), bind_Ok by done.
    rewrite (checked_add_Ok (totalEarned stats)), bind_Ok by done.
    by rewrite (checked_add_Ok (totalRating stats)), bind_Ok by done. }
  split; [|split; [|split]].
  - intros w' Hok.
    apply approveWork_Ok_inv in Hok as (job0 & tok & _ & Hj & _ & _ & _ & Htr & ->).
    rewrite Hjob in Hj. injection Hj as <-. fold stats.
    split; [by eapply jobAt_insert|]. split; [done|].
    unfold getAgentStats. simpl. rewrite statsAt_insert. split; [done|].
    simpl. by rewrite (proj2 (Z.ltb_lt _ _)) by lia.
  - intros Hfail.
    assert (exists e, approveWork env jobId r w = Err e) as [e He].
    { destruct (approveWork env jobId r w) as [w'|e] eqn:Hap; [|by exists e].
      apply approveWork_Ok_inv in Hap as (job0 & tok & _ & Hj & _ & _ & _ & Htr & _).
      rewrite Hjob in Hj. injection Hj as <-. congruence. }
    split; [by exists e|]. split; [unfold transact; simpl; by rewrite He|].
    intros Hc1 He1 Hr1. rewrite Hcounters by done.
    unfold safeTransfer. by rewrite Hfail.
  - intros tok Htok Hc1 He1 Hr1. rewrite Hcounters by done.
    unfold safeTransfer. rewrite Htok, bind_Ok. by eexists.
  - intros Hover.
    assert (approveWork env jobId r w = Err (Panic PANIC_ARITHMETIC)) as Hpanic.
    { rewrite (approveWork_unfold env jobId w job) by done.
      rewrite (proj2 (Z.eqb_eq _ _) Hcaller), require_true, bind_Ok.
      rewrite bool_decide_eq_true_2, require_true, bind_Ok by done.
      rewrite (proj2 (Z.leb_le _ _)), require_true, bind_Ok by lia.
      cbv zeta. fold stats. unfold checked_add. simpl.
      destruct (Z.leb_spec (completedJobs stats + 1) MAX_UINT256); [|done].
      rewrite bind_Ok.
      destruct (Z.leb_spec (totalEarned stats + paidAmount job) MAX_UINT256); [|done].
      rewrite bind_Ok.
      destruct (Z.leb_spec (totalRating stats + r) MAX_UINT256); [|done].
      lia. }
    split; [done|]. unfold transact. simpl. by rewrite Hpanic.
Qed.

(** The life cycle of the test-suite: the job claimed at 150 is approved
    with rating 90; the agent then has one completed job, 150 earned and an
    average of 90, and holds the 150 tokens. *)
Lemma approveWork_postcondition_witness :
  approveWork (mkEnv POSTER 1050) 0 90 w_submitted = Ok w_completed /\
  (status <$> jobs (board w_completed) !! 0%nat) = Some Completed /\
  (rating <$> jobs (board w_completed) !! 0%nat) = Some 90 /\
  transfer BOARD AGENT 150 (clawd w_submitted) = Some (clawd w_completed) /\
  getAgentStats AGENT (board w_submitted) = (0, 0, 0, 0) /\
  getAgentStats AGENT (board w_completed) = (1, 0, 150, 90) /\
  balanceOf (clawd w_completed) AGENT = 150.
Proof.
  destruct (approveWork_postcondition (mkEnv POSTER 1050) 0 90 w_submitted
              (with_submissionURI "ipfs://bafkreiexample" (with_status Submitted
                 (claimed (mkEnv AGENT 1030) 21548 150
                    (posted (mkEnv POSTER 1000) "Test" 100 200 60 300)))))
    as [Hpost _].
  - by vm_compute.
  - by vm_compute.
  - reflexivity.
  - reflexivity.
  - lia.
  - by vm_compute.
  - destruct (Hpost w_completed) as (Hjob & Htr & Hstats & Hget); [by vm_compute|].
    split; [by vm_compute|]. split; [by vm_compute|]. split; [by vm_compute|].
    split; [vm_compute in Htr |- *; exact Htr|].
    split; [by vm_compute|].
    split; [vm_compute in Hget |- *; exact Hget|].
    by vm_compute.
Defined.

(** ** The work deadline *)

Section Stuck.
Context {T : Type} `{IERC20 T}.

(** A claimed job whose deadline does not fit a [uint256] is out of reach
    of every function: the four that want another status refuse it, and
    [submitWork] and [expireJob] revert on the sum. *)
Lemma transact_keeps_stuck env c (w : World T) (i : nat) (job : Job) :
  jobs (board w) !! i = Some job ->
  status job = Claimed ->
  MAX_UINT256 < claimedAt job + workDeadline job ->
  jobs (board (transact env c w)) !! i = Some job.
Proof.
  intros Hi Hst Hbig.
  unfold transact. destruct (execute env c w) as [w'|e] eqn:Hex; [|done].
  destruct c as [d mn mx ad wd|jobId r|jobId|jobId|jobId agentId|jobId uri|jobId];
    simpl in Hex.
  - destruct (postJob env d mn mx ad wd w) as [[jobId w1]|] eqn:Hp; [|done].
    injection Hex as ->.
    apply postJob_Ok_inv in Hp as (tok & _ & _ & _ & _ & _ & _ & _ & _ & ->).
    simpl. by apply lookup_app_l_Some.
  - apply approveWork_Ok_inv in Hex as (old & tok & _ & Hj & _ & Hst' & _ & _ & ->).
    apply jobAt_Ok_inv in Hj. simpl.
    eapply lookup_insert_other; [done..|congruence].
  - apply disputeWork_Ok_inv in Hex as (old & tok & _ & Hj & _ & Hst' & _ & ->).
    apply jobAt_Ok_inv in Hj. simpl.
    eapply lookup_insert_other; [done..|congruence].
  - apply cancelJob_Ok_inv in Hex as (old & tok & _ & Hj & _ & Hst' & _ & ->).
    apply jobAt_Ok_inv in Hj. simpl.
    eapply lookup_insert_other; [done..|congruence].
  - apply claimJob_Ok_inv in Hex
      as (old & price & tok & _ & Hj & Hst' & _ & _ & _ & _ & ->).
    apply jobAt_Ok_inv in Hj. simpl.
    eapply lookup_insert_other; [done..|congruence].
  - apply submitWork_Ok_inv in Hex as (old & Hj & _ & _ & _ & Hfit & _ & ->).
    apply jobAt_Ok_inv in Hj. simpl.
    destruct (decide (Z.to_nat jobId = i)) as [<-|Hne].
    + rewrite Hi in Hj. injection Hj as <-. lia.
    + by rewrite list_lookup_insert_ne.
  - apply expireJob_Ok_inv in Hex as (old & tok & _ & Hj & _ & Hfit & _ & _ & ->).
    apply jobAt_Ok_inv in Hj. simpl.
    destruct (decide (Z.to_nat jobId = i)) as [<-|Hne].
    + rewrite Hi in Hj. injection Hj as <-. lia.
    + by rewrite list_lookup_insert_ne.
Qed.

Lemma run_keeps_stuck txs (w : World T) (i : nat) (job : Job) :
  jobs (board w) !! i = Some job ->
  status job = Claimed ->
  MAX_UINT256 < claimedAt job + workDeadline job ->
  jobs (board (run txs w)) !! i = Some job.
Proof.
  revert w. induction txs as [|[env c] txs IH]; intros w Hi Hst Hbig; [done|].
  simpl. apply IH; [|done..]. by apply transact_keeps_stuck.
Qed.

End Stuck.

(** C6: the escrow that can never leave.  The board accepts a job with
    [workDeadline = 2^256 - 1]; the world in which an agent has claimed
    it at 150 is reachable.  From then on the sum [claimedAt + workDeadline]
    overflows in [submitWork] and in [expireJob] at every timestamp, so the
    agent can never submit and nobody can ever expire the job: after any
    sequence of transactions the job is the same [Claimed] job, and after
    any sequence of valid transactions the board still holds the 150
    tokens locked for it. *)
Theorem deadline_overflow_locks_escrow :
  reachable w_endless books_endless /\
  jobAt (board w_endless) 0 = Ok job_endless /\
  status job_endless = Claimed /\
  outstanding job_endless = 150 /\
  balanceOf (clawd w_endless) BOARD = 150 /\
  (forall now caller,
     submitWork (mkEnv AGENT now) 0 "ipfs://bafkreiexample" w_endless
     = Err (Panic PANIC_ARITHMETIC) /\
     expireJob (mkEnv caller now) 0 w_endless = Err (Panic PANIC_ARITHMETIC)) /\
  (forall txs, jobAt (board (run txs w_endless)) 0 = Ok job_endless) /\
  (forall txs,
     Forall (valid_tx w_endless) txs ->
     150 <= balanceOf (clawd (run txs w_endless)) BOARD).
Proof.
  assert (forall txs, jobs (board (run txs w_endless)) !! 0%nat = Some job_endless)
    as Hstuck.
  { intros txs. apply run_keeps_stuck; by vm_compute. }
  split; [apply w_endless_reachable|].
  split; [by vm_compute|]. split; [done|]. split; [by vm_compute|].
  split; [by vm_compute|]. split; [intros now caller; by vm_compute|].
  split; [intros txs; by apply jobAt_Ok|].
  intros txs Hvalid.
  pose proof (reachable_run txs w_endless books_endless w_endless_reachable Hvalid)
    as Hreach.
  pose proof (reachable_Inv _ _ Hreach) as Hinv.
  pose proof (inv_backed _ _ Hinv) as Hb.
  pose proof (inv_surplus _ _ Hinv) as Hs.
  assert (outstanding job_endless <= escrowTotal (jobs (board (run txs w_endless))))
    as Hle.
  { eapply escrowTotal_lookup_le; [|apply Hstuck].
    intros k j Hk. destruct (inv_jobs _ _ Hinv k j Hk) as [Hwfj _].
    by eapply outstanding_nonneg. }
  assert (this (run txs w_endless) = BOARD) as Hthis.
  { clear. generalize w_endless (eq_refl : this w_endless = BOARD).
    induction txs as [|[env c] txs IH]; intros w Hw; [done|].
    simpl. apply IH. by rewrite transact_this. }
  rewrite Hthis in Hb. change (outstanding job_endless) with 150 in Hle. lia.
Qed.

(** * Further properties of the board and of its pages *)

(** ** What a successful call has done, whatever the call *)

Section Shape.
Context {T : Type} `{IERC20 T}.

Lemma execute_Ok_inv env c (w w' : World T) :
  execute env c w = Ok w' ->
  this w' = this w /\
  match jobOf c with
  | None =>
      exists d mn mx ad wd,
        c = PostJob d mn mx ad wd /\
        0 < mx /\ mn <= mx /\ 0 < ad /\ 0 < wd /\ (0 < String.length d)%nat /\
        jobs (board w') = jobs (board w) ++ [posted env d mn mx ad wd] /\
        agentStats (board w') = agentStats (board w)
  | Some jobId =>
      exists old new,
        jobs (board w) !! Z.to_nat jobId = Some old /\
        jobs (board w') = <[Z.to_nat jobId := new]> (jobs (board w)) /\
        updates env c old new /\
        agentStats (board w') = stats_after c old (agentStats (board w))
  end.
Proof.
  intros Hex.
  destruct c as [d mn mx ad wd|jobId r|jobId|jobId|jobId id|jobId uri|jobId];
    simpl in Hex |- *.
  - destruct (postJob env d mn mx ad wd w) as [[jobId w1]|] eqn:Hp; [|done].
    injection Hex as ->.
    apply postJob_Ok_inv in Hp as (tok & _ & ? & ? & ? & ? & ? & _ & _ & ->).
    split; [done|]. by exists d, mn, mx, ad, wd.
  - apply approveWork_Ok_inv in Hex as (job & tok & _ & Hj & ? & ? & ? & _ & ->).
    apply jobAt_Ok_inv in Hj. split; [done|]. by eexists job, _.
  - apply disputeWork_Ok_inv in Hex as (job & tok & _ & Hj & ? & ? & _ & ->).
    apply jobAt_Ok_inv in Hj. split; [done|]. by eexists job, _.
  - apply cancelJob_Ok_inv in Hex as (job & tok & _ & Hj & ? & ? & _ & ->).
    apply jobAt_Ok_inv in Hj. split; [done|]. by eexists job, _.
  - apply claimJob_Ok_inv in Hex
      as (job & price & tok & _ & Hj & ? & ? & ? & ? & _ & ->).
    apply jobAt_Ok_inv in Hj. split; [done|]. eexists job, _.
    repeat split; try done. by exists price.
  - apply submitWork_Ok_inv in Hex as (job & Hj & ? & ? & ? & ? & ? & ->).
    apply jobAt_Ok_inv in Hj. split; [done|]. by eexists job, _.
  - apply expireJob_Ok_inv in Hex as (job & tok & _ & Hj & ? & ? & ? & _ & ->).
    apply jobAt_Ok_inv in Hj. split; [done|]. by eexists job, _.
Qed.

(** The same for a transaction, which may have reverted: a job is either
    untouched, or it was the target and has been updated. *)
Lemma transact_lookup env c (w : World T) (i : nat) (job : Job) :
  jobs (board w) !! i = Some job ->
  exists job',
    jobs (board (transact env c w)) !! i = Some job' /\
    (job' = job \/
     (exists j, jobOf c = Some j /\ Z.to_nat j = i) /\ updates env c job job').
Proof.
  intros Hi. unfold transact.
  destruct (execute env c w) as [w'|e] eqn:Hex; [|by exists job; auto].
  apply execute_Ok_inv in Hex as [_ Hshape].
  destruct (jobOf c) as [jobId|] eqn:Hc.
  - destruct Hshape as (old & new & Hold & -> & Hup & _).
    destruct (decide (Z.to_nat jobId = i)) as [<-|Hne].
    + rewrite Hold in Hi. injection Hi as ->.
      exists new. split; [apply list_lookup_insert_eq; by eapply lookup_lt_Some|].
      right. split; [by exists jobId|done].
    + exists job. split; [by rewrite list_lookup_insert_ne|by left].
  - destruct Hshape as (d & mn & mx & ad & wd & _ & _ & _ & _ & _ & _ & -> & _).
    exists job. split; [by apply lookup_app_l_Some|by left].
Qed.

End Shape.

Lemma lookup_insert_cases (l : list Job) (i k : nat) (old new x : Job) :
  l !! k = Some old -> <[k := new]> l !! i = Some x ->
  (i = k /\ x = new) \/ (i <> k /\ l !! i = Some x).
Proof.
  intros Hk Hi. destruct (decide (i = k)) as [->|Hne].
  - rewrite list_lookup_insert_eq in Hi by (by eapply lookup_lt_Some).
    left. by injection Hi.
  - rewrite list_lookup_insert_ne in Hi by done. by right.
Qed.

Lemma length_pos_nonempty (s : string) : (0 < String.length s)%nat -> s <> EmptyString.
Proof. by destruct s; [inversion 1|]. Qed.

(** ** Posting a job *)



(** X2: outside a guarded call, [postJob] succeeds exactly when
    [maxPrice > 0], [maxPrice >= minPrice], both durations are positive,
    the description is not empty and the token lets the board pull
    [maxPrice] from the caller.  Nothing else is checked: neither the prices
    nor the durations are bounded from above. *)
Theorem postJob_accepts_iff {T : Type} `{IERC20 T}
    (env : Env) (d : string) (mn mx ad wd : Z) (w : World T) :
  _entered (board w) = false ->
  is_Ok (postJob env d mn mx ad wd w) <->
  0 < mx /\ mn <= mx /\ 0 < ad /\ 0 < wd /\ d <> EmptyString /\
  is_Some (transferFrom (this w) (msg_sender env) (this w) mx (clawd w)).
Proof.
  intros Hent. split.
  - intros [[jobId w'] Hp].
    apply postJob_Ok_inv in Hp as (tok & _ & ? & ? & ? & ? & Hd & Htr & _).
    repeat split; try done. by apply length_pos_nonempty.
  - intros (Hmx & Hmn & Had & Hwd & Hd & [tok Htr]).
    unfold postJob. rewrite nonReentrantBefore_Ok, bind_Ok by done.
    rewrite (proj2 (Z.ltb_lt _ _) Hmx), require_true, bind_Ok.
    rewrite (proj2 (Z.leb_le _ _) Hmn), require_true, bind_Ok.
    rewrite (proj2 (Z.ltb_lt _ _) Had), require_true, bind_Ok.
    rewrite (proj2 (Z.ltb_lt _ _) Hwd), require_true, bind_Ok.
    assert ((0 <? String.length d)%nat = true) as ->.
    { destruct d; [done|]. by apply Nat.ltb_lt; simpl; lia. }
    rewrite require_true, bind_Ok.
    unfold safeTransferFrom. simpl. rewrite Htr, bind_Ok. by eexists.
Qed.

(** The job of the test-suite is accepted; with a minimum above the
    maximum it is not, and neither is it from an account that holds no
    tokens. *)
Lemma postJob_accepts_iff_witness :
  is_Ok (postJob (mkEnv POSTER 1000) "Test" 100 200 60 300 genesis) /\
  ~ is_Ok (postJob (mkEnv POSTER 1000) "Test" 300 200 60 300 genesis) /\
  ~ is_Ok (postJob (mkEnv AGENT 1000) "Test" 100 200 60 300 genesis).
Proof.
  destruct (postJob_accepts_iff (mkEnv POSTER 1000) "Test" 100 200 60 300 genesis
              eq_refl) as [_ Hyes].
  destruct (postJob_accepts_iff (mkEnv POSTER 1000) "Test" 300 200 60 300 genesis
              eq_refl) as [Hno _].
  destruct (postJob_accepts_iff (mkEnv AGENT 1000) "Test" 100 200 60 300 genesis
              eq_refl) as [Hbroke _].
  split; [|split].
  - apply Hyes. split; [lia|]. split; [lia|]. split; [lia|]. split; [lia|].
    split; [done|]. eexists. by vm_compute.
  - intros Hok. apply Hno in Hok. lia.
  - intros Hok. apply Hbroke in Hok as (_ & _ & _ & _ & _ & [tok Htok]).
    by vm_compute in Htok.
Defined.

(** ** How a job evolves *)

Lemma updates_terms env c old new : updates env c old new -> same_terms old new.
Proof.
  destruct c; simpl; try done.
  - by intros (_ & _ & _ & ->).
  - by intros (_ & _ & ->).
  - by intros (_ & _ & ->).
  - by intros (_ & _ & ? & _ & _ & ->).
  - by intros (_ & _ & _ & _ & ->).
  - by intros (_ & _ & ->).
Qed.

Lemma updates_transition env c old new :
  updates env c old new -> transition (status old) (status new).
Proof.
  destruct c; simpl; try done.
  - intros (-> & _ & _ & ->). constructor.
  - intros (-> & _ & ->). constructor.
  - intros (-> & _ & ->). constructor.
  - intros (-> & _ & ? & _ & _ & ->). constructor.
  - intros (-> & _ & _ & _ & ->). constructor.
  - intros (-> & _ & ->). constructor.
Qed.

Lemma updates_claim env c old new :
  updates env c old new -> status old <> Open ->
  same_claim old new /\
  (status old <> Claimed -> submissionURI new = submissionURI old).
Proof.
  destruct c; simpl; try done.
  - by intros (_ & _ & _ & ->).
  - by intros (_ & _ & ->).
  - by intros (_ & _ & ->).
  - by intros (? & _).
  - by intros (? & _ & _ & _ & ->).
  - by intros (_ & _ & ->).
Qed.

Lemma transition_not_Open s s' : transition s s' -> s' <> Open.
Proof. by inversion 1. Qed.

Lemma transition_not_Claimed s s' : transition s s' -> s <> Open -> s' <> Claimed.
Proof. by inversion 1. Qed.

(** A relation between the states of a job that every update respects
    holds along every sequence of transactions. *)
Section Evolution.
Context {T : Type} `{IERC20 T}.
Variable R : Job -> Job -> Prop.
Hypothesis R_refl : forall job, R job job.
Hypothesis R_trans : forall a b c, R a b -> R b c -> R a c.
Hypothesis R_updates : forall env c old new, updates env c old new -> R old new.

Lemma run_related txs (w : World T) (i : nat) (job : Job) :
  jobs (board w) !! i = Some job ->
  exists job', jobs (board (run txs w)) !! i = Some job' /\ R job job'.
Proof using R_refl R_trans R_updates.
  revert w job. induction txs as [|[env c] txs IH]; intros w job Hi; simpl.
  - by exists job.
  - destruct (transact_lookup env c w i job Hi) as (job1 & Hi1 & Hstep).
    destruct (IH _ _ Hi1) as (job' & Hi' & HR).
    exists job'. split; [done|].
    destruct Hstep as [->|[_ Hup]]; [done|].
    eapply R_trans; [by eapply R_updates|done].
Qed.

End Evolution.

Lemma run_length {T : Type} `{IERC20 T} txs (w : World T) :
  (length (jobs (board w)) <= length (jobs (board (run txs w))))%nat.
Proof.
  revert w. induction txs as [|[env c] txs IH]; intros w; simpl; [done|].
  etrans; [|apply IH]. unfold transact.
  destruct (execute env c w) as [w'|e] eqn:Hex; [|done].
  apply execute_Ok_inv in Hex as [_ Hshape].
  destruct (jobOf c).
  - destruct Hshape as (old & new & _ & -> & _). by rewrite length_insert.
  - destruct Hshape as (? & ? & ? & ? & ? & _ & _ & _ & _ & _ & _ & -> & _).
    rewrite length_app. lia.
Qed.

(** X3: the terms of a job are fixed when it is posted.  Whatever
    transactions follow, by whomever, successful or reverted, [getJobCore]
    keeps returning the poster, description, prices, start of the auction
    and durations of the job, only the status moves; and the job count
    never goes down: a job is never removed or renumbered. *)
Theorem posted_terms_never_change {T : Type} `{IERC20 T}
    (txs : list (Env * Call)) (w : World T) (jobId : Z) (job : Job) :
  jobAt (board w) jobId = Ok job ->
  getJobCount (board w) <= getJobCount (board (run txs w)) /\
  exists s,
    getJobCore jobId (board (run txs w))
    = Ok (poster job, description job, minPrice job, maxPrice job,
          auctionStart job, auctionDuration job, workDeadline job, s).
Proof.
  intros Hj. apply jobAt_Ok_inv in Hj.
  split; [unfold getJobCount; pose proof (run_length txs w); lia|].
  destruct (run_related same_terms) with (txs := txs) (w := w)
    (i := Z.to_nat jobId) (job := job) as (job' & Hi' & HR); try done.
  - unfold same_terms. intros a b c (? & ? & ? & ? & ? & ? & ?) (? & ? & ? & ? & ? & ? & ?).
    repeat split; congruence.
  - intros ????. apply updates_terms.
  - exists (status job'). unfold getJobCore. rewrite (jobAt_Ok _ _ _ Hi').
    destruct HR as (? & ? & ? & ? & ? & ? & ?). simpl. congruence.
Qed.

(** The posted job after it has been claimed, submitted and approved. *)
Lemma posted_terms_never_change_witness :
  getJobCount (board w_posted) <= getJobCount (board (run lifecycle w_posted)) /\
  exists s,
    getJobCore 0 (board (run lifecycle w_posted))
    = Ok (POSTER, "Test"%string, 100, 200, 1000, 60, 300, s).
Proof.
  destruct (posted_terms_never_change lifecycle w_posted 0 job_posted)
    as [Hn [s Hs]]; [by vm_compute|].
  split; [exact Hn|]. exists s. exact Hs.
Defined.

(** X4: the claim is fixed once made.  For a job that has left [Open],
    whatever transactions follow, [getJobAgent] keeps returning the same
    agent, agent id, claim time and locked price; once the job has left
    [Claimed] too, the submission URI stays as well. *)
Theorem claim_terms_never_change {T : Type} `{IERC20 T}
    (txs : list (Env * Call)) (w : World T) (jobId : Z) (job : Job) :
  jobAt (board w) jobId = Ok job ->
  status job <> Open ->
  exists uri r,
    getJobAgent jobId (board (run txs w))
    = Ok (agent job, agentId job, claimedAt job, uri, paidAmount job, r) /\
    (status job <> Claimed -> uri = submissionURI job).
Proof.
  intros Hj Hst. apply jobAt_Ok_inv in Hj.
  destruct (run_related
              (fun a b => status a <> Open ->
                          status b <> Open /\ same_claim a b /\
                          (status a <> Claimed ->
                           status b <> Claimed /\ submissionURI b = submissionURI a)))
    with (txs := txs) (w := w) (i := Z.to_nat jobId) (job := job)
    as (job' & Hi' & HR); try done.
  - intros a b c Hab Hbc Ha.
    destruct (Hab Ha) as (Hb & (? & ? & ? & ?) & Huab).
    destruct (Hbc Hb) as (Hc & (? & ? & ? & ?) & Hubc).
    split; [done|]. split; [unfold same_claim; repeat split; congruence|].
    intros Hac. destruct (Huab Hac) as [Hbc' ?]. destruct (Hubc Hbc') as [? ?].
    split; [done|congruence].
  - intros env c old new Hup Hold.
    pose proof (updates_transition _ _ _ _ Hup) as Htr.
    destruct (updates_claim _ _ _ _ Hup Hold) as [Hsame Huri].
    split; [by eapply transition_not_Open|]. split; [done|].
    intros Hc. split; [by eapply transition_not_Claimed|by apply Huri].
  - destruct (HR Hst) as (_ & (Ha & Hid & Hat & Hpaid) & Huri).
    exists (submissionURI job'), (rating job').
    unfold getJobAgent. rewrite (jobAt_Ok _ _ _ Hi'). simpl.
    split; [congruence|]. intros Hc. by destruct (Huri Hc).
Qed.

(** The job claimed at 1030 for 150, after the submission and the
    approval. *)
Lemma claim_terms_never_change_witness :
  exists uri r,
    getJobAgent 0 (board (run (drop 1 lifecycle) w_claimed))
    = Ok (AGENT, 21548, 1030, uri, 150, r).
Proof.
  destruct (claim_terms_never_change (drop 1 lifecycle) w_claimed 0 job_claimed)
    as (uri & r & Hget & _); [by vm_compute|done|].
  exists uri, r. exact Hget.
Defined.




(** ** What a transaction leaves alone and whom it obeys *)

Section CallbackFrame.
Context {T : Type} `{IERC20 T}.

(** With no call made during the token call, the functions are the ones
    above. *)
Lemma execute_cb_nil env c (w : World T) : execute_cb [] env c w = execute env c w.
Proof.
  destruct c as [d mn mx ad wd|j r|j|j|j id|j uri|j]; try reflexivity.
  simpl. unfold claimJob_cb, claimJob.
  destruct (_nonReentrantBefore w) as [w0|e]; [|done].
  rewrite !bind_Ok.
  destruct (jobAt (board w0) j) as [job|e]; [|done].
  rewrite !bind_Ok.
  destruct (require (bool_decide (status job = Open)) "Job not open"); [|done].
  rewrite !bind_Ok.
  destruct (require (negb (msg_sender env =? poster job))
                    "Poster cannot claim own job"); [|done].
  rewrite !bind_Ok.
  destruct (_getCurrentPrice (block_timestamp env) job) as [price|e]; [|done].
  rewrite !bind_Ok. cbv zeta.
  destruct (checked_sub _ price) as [refund|e]; [|done].
  rewrite !bind_Ok.
  destruct (0 <? refund); [|done].
  by destruct (safeTransfer _ _ _ _).
Qed.

(** While a guarded call runs, a call into the board changes nothing unless
    it is a [submitWork] by the agent of a [Claimed] job, which submits. *)
Lemma transact_entered env c (w : World T) :
  _entered (board w) = true ->
  this (transact env c w) = this w /\
  _entered (board (transact env c w)) = true /\
  agentStats (board (transact env c w)) = agentStats (board w) /\
  clawd (transact env c w) = clawd w /\
  forall i job,
    jobs (board w) !! i = Some job ->
    exists job',
      jobs (board (transact env c w)) !! i = Some job' /\
      (job' = job \/
       exists jobId uri,
         c = SubmitWork jobId uri /\ Z.to_nat jobId = i /\
         msg_sender env = agent job /\ status job = Claimed /\
         job' = with_submissionURI uri (with_status Submitted job)).
Proof.
  intros Hent.
  assert (_nonReentrantBefore w = Err ReentrancyGuardReentrantCall) as Hg.
  { unfold _nonReentrantBefore. by rewrite Hent. }
  assert ((forall jobId uri, c <> SubmitWork jobId uri) -> transact env c w = w)
    as Hguarded.
  { intros Hc. unfold transact.
    destruct c as [d mn mx ad wd|j r|j|j|j id|j uri|j]; simpl.
    - unfold postJob. by rewrite Hg.
    - unfold approveWork. by rewrite Hg.
    - unfold disputeWork. by rewrite Hg.
    - unfold cancelJob. by rewrite Hg.
    - unfold claimJob. by rewrite Hg.
    - by destruct (Hc j uri).
    - unfold expireJob. by rewrite Hg. }
  destruct c as [d mn mx ad wd|j r|j|j|j id|j uri|j];
    try (rewrite Hguarded by done; repeat split; try done;
         intros i job Hi; exists job; by auto).
  unfold transact. simpl.
  destruct (submitWork env j uri w) as [w'|e] eqn:Hs.
  2:{ repeat split; try done. intros i job Hi. exists job. by auto. }
  apply submitWork_Ok_inv in Hs as (old & Hj & Hs & Hst & _ & _ & _ & ->).
  apply jobAt_Ok_inv in Hj. simpl.
  repeat split; try done.
  intros i job Hi. destruct (decide (Z.to_nat j = i)) as [<-|Hne].
  - rewrite Hj in Hi. injection Hi as <-.
    eexists. split; [apply list_lookup_insert_eq; by eapply lookup_lt_Some|].
    right. by exists j, uri.
  - exists job. split; [by rewrite list_lookup_insert_ne|by left].
Qed.

(** So the calls made during a token call leave the address, the guard,
    the statistics and the token as they find them, and each job as it was
    or submitted by its agent. *)
Lemma nested_effect calls now (w : World T) :
  _entered (board w) = true ->
  this (nested calls now w) = this w /\
  _entered (board (nested calls now w)) = true /\
  agentStats (board (nested calls now w)) = agentStats (board w) /\
  clawd (nested calls now w) = clawd w /\
  forall i job,
    jobs (board w) !! i = Some job ->
    exists job',
      jobs (board (nested calls now w)) !! i = Some job' /\
      (job' = job \/ submitted_in calls i job job').
Proof.
  unfold nested. revert w.
  induction calls as [|[sender c] calls IH]; intros w Hent; simpl.
  { repeat split; try done. intros i job Hi. exists job. by auto. }
  destruct (transact_entered (mkEnv sender now) c w Hent)
    as (Hthis & Hent1 & Hstats & Htok & Hjobs).
  destruct (IH _ Hent1) as (Hthis' & Hent' & Hstats' & Htok' & Hjobs').
  split; [congruence|]. split; [done|]. split; [congruence|]. split; [congruence|].
  intros i job Hi.
  destruct (Hjobs i job Hi) as (job1 & Hi1 & Hstep).
  destruct (Hjobs' i job1 Hi1) as (job' & Hi' & Hrest).
  exists job'. split; [done|].
  destruct Hstep as [->|(jobId & uri & -> & Hid & Hs & Hst & ->)].
  - destruct Hrest as [->|(jobId & uri & Hin & Hid & Hst & ->)]; [by left|].
    right. exists jobId, uri. split; [apply elem_of_cons; by right|done].
  - destruct Hrest as [->|(jobId' & uri' & _ & _ & Hst' & _)]; [|done].
    right. exists jobId, uri. simpl in Hs. subst sender.
    split; [apply elem_of_cons; by left|done].
Qed.

End CallbackFrame.

(** The state after the calls made during the token call, and the jobs
    beside the target in it. *)
Ltac after_calls l :=
  match goal with
  | |- context [nested l ?now ?w1] =>
      let Hthis := fresh "Hthis" in
      destruct (nested_effect l now w1 eq_refl) as (Hthis & _ & Hstats & _ & Hjobs);
      simpl in Hthis, Hstats, Hjobs
  end.

Ltac other_jobs :=
  let i := fresh "i" in
  let job := fresh "job" in
  let Hi := fresh "Hi" in
  let Hne := fresh "Hne" in
  intros i job Hi Hne;
  match goal with
  | Hjobs : forall i job, _ !! i = Some job -> _ |- _ =>
      let job' := fresh "job'" in
      let Hi' := fresh "Hi'" in
      let Hs := fresh "Hs" in
      destruct (Hjobs i job) as (job' & Hi' & [->|Hs]);
      [rewrite list_lookup_insert_ne; [done|]; by apply Hne
      |exists job; by auto
      |exists job'; split; [done|by right]]
  end.

(** X6: what a transaction leaves alone, successful or not, when the token
    may call back into the board during its transfer.  The address of the
    board and the state of the guard are as before.  A job other than the
    target of the call is as before, or, when the function makes a token
    call and a [submitWork] on that job by its agent is among the calls
    made during it while the job is [Claimed], it has been submitted:
    [submitWork] is not guarded, and nothing else gets through the guard.
    The statistics of every account other than the agent of the target are
    as before; only [approveWork] and [disputeWork] write statistics at
    all, and [submitWork] does not touch the token either.  With no call
    made during the token call the transaction is the one of [transact],
    and every other job is as before. *)
Theorem transact_frame {T : Type} `{IERC20 T}
    (calls : list (address * Call)) (env : Env) (c : Call) (w : World T) :
  this (transact_cb calls env c w) = this w /\
  _entered (board (transact_cb calls env c w)) = _entered (board w) /\
  (forall i job,
     jobs (board w) !! i = Some job ->
     (forall jobId, jobOf c = Some jobId -> Z.to_nat jobId <> i) ->
     exists job',
       jobs (board (transact_cb calls env c w)) !! i = Some job' /\
       (job' = job \/
        (forall jobId uri, c <> SubmitWork jobId uri) /\
        submitted_in calls i job job')) /\
  (forall a,
     (forall jobId target,
        jobOf c = Some jobId -> jobAt (board w) jobId = Ok target ->
        agent target <> a) ->
     statsAt (agentStats (board (transact_cb calls env c w))) a
     = statsAt (agentStats (board w)) a) /\
  match c with
  | ApproveWork _ _ | DisputeWork _ => True
  | SubmitWork _ _ =>
      agentStats (board (transact_cb calls env c w)) = agentStats (board w) /\
      clawd (transact_cb calls env c w) = clawd w
  | _ => agentStats (board (transact_cb calls env c w)) = agentStats (board w)
  end /\
  transact_cb [] env c w = transact env c w /\
  (forall i job,
     jobs (board w) !! i = Some job ->
     (forall jobId, jobOf c = Some jobId -> Z.to_nat jobId <> i) ->
     jobs (board (transact env c w)) !! i = Some job).
Proof.
  assert (forall l,
    this (transact_cb l env c w) = this w /\
    _entered (board (transact_cb l env c w)) = _entered (board w) /\
    (forall i job,
       jobs (board w) !! i = Some job ->
       (forall jobId, jobOf c = Some jobId -> Z.to_nat jobId <> i) ->
       exists job',
         jobs (board (transact_cb l env c w)) !! i = Some job' /\
         (job' = job \/
          (forall jobId uri, c <> SubmitWork jobId uri) /\
          submitted_in l i job job')) /\
    (forall a,
       (forall jobId target,
          jobOf c = Some jobId -> jobAt (board w) jobId = Ok target ->
          agent target <> a) ->
       statsAt (agentStats (board (transact_cb l env c w))) a
       = statsAt (agentStats (board w)) a) /\
    match c with
    | ApproveWork _ _ | DisputeWork _ => True
    | SubmitWork _ _ =>
        agentStats (board (transact_cb l env c w)) = agentStats (board w) /\
        clawd (transact_cb l env c w) = clawd w
    | _ => agentStats (board (transact_cb l env c w)) = agentStats (board w)
    end) as Hframe.
  { intros l. unfold transact_cb.
    destruct (execute_cb l env c w) as [w'|e] eqn:Hex.
    2:{ split; [done|]. split; [done|]. split.
        { intros i job Hi _. exists job. by auto. }
        split; [done|]. by destruct c. }
    destruct c as [d mn mx ad wd|jobId r|jobId|jobId|jobId id|jobId uri|jobId];
      simpl in Hex.
    - (* postJob: the calls come during the pull, before the push *)
      destruct (postJob_cb l env d mn mx ad wd w) as [[jobId w1]|] eqn:Hp; [|done].
      injection Hex as ->. unfold postJob_cb in Hp. op_inv. after_calls l.
      split; [done|]. split; [done|]. split.
      { intros i job Hi _. destruct (Hjobs i job Hi) as (job' & Hi' & Hcase).
        exists job'. split; [by apply lookup_app_l_Some|].
        destruct Hcase as [->|Hs]; [by left|by right]. }
      split; [intros a _; by rewrite Hstats|done].
    - (* approveWork *)
      unfold approveWork_cb in Hex. op_inv. after_calls l.
      split; [done|]. split; [done|]. split; [other_jobs|].
      split; [|done].
      intros a Ha. rewrite Hstats. unfold statsAt.
      rewrite lookup_insert_ne; [done|].
      match goal with
      | E : jobAt _ jobId = Ok ?old |- _ => apply (Ha jobId old eq_refl E)
      end.
    - (* disputeWork *)
      unfold disputeWork_cb in Hex. op_inv. after_calls l.
      split; [done|]. split; [done|]. split; [other_jobs|].
      split; [|done].
      intros a Ha. rewrite Hstats. unfold statsAt.
      rewrite lookup_insert_ne; [done|].
      match goal with
      | E : jobAt _ jobId = Ok ?old |- _ => apply (Ha jobId old eq_refl E)
      end.
    - (* cancelJob *)
      unfold cancelJob_cb in Hex. op_inv. after_calls l.
      split; [done|]. split; [done|]. split; [other_jobs|].
      split; [intros a _; by rewrite Hstats|done].
    - (* claimJob: the refund is sent, and the token called, only when
         it is positive *)
      unfold claimJob_cb in Hex. op_inv.
      match goal with
      | E : (if ?b then _ else _) = Ok _ |- _ => destruct b; op_inv
      end.
      + after_calls l.
        split; [done|]. split; [done|]. split; [other_jobs|].
        split; [intros a _; by rewrite Hstats|done].
      + split; [done|]. split; [done|]. split; [|done].
        intros i job Hi Hne. exists job.
        split; [|by left]. rewrite list_lookup_insert_ne; [done|]. by apply Hne.
    - (* submitWork makes no token call *)
      apply submitWork_Ok_inv in Hex as (old & _ & _ & _ & _ & _ & _ & ->). simpl.
      split; [done|]. split; [done|]. split; [|done].
      intros i job Hi Hne. exists job.
      split; [|by left]. rewrite list_lookup_insert_ne; [done|]. by apply Hne.
    - (* expireJob *)
      unfold expireJob_cb in Hex. op_inv. after_calls l.
      split; [done|]. split; [done|]. split; [other_jobs|].
      split; [intros a _; by rewrite Hstats|done]. }
  assert (transact_cb [] env c w = transact env c w) as Hnil.
  { unfold transact_cb, transact. by rewrite execute_cb_nil. }
  destruct (Hframe calls) as (Hthis & Hent & Hjobs & Hstats & Hwrites).
  repeat (split; [done|]).
  intros i job Hi Hne. rewrite <- Hnil.
  destruct (Hframe []) as (_ & _ & Hjobs0 & _).
  destruct (Hjobs0 i job Hi Hne) as (job' & Hi' & [->|[_ Hs]]); [done|].
  destruct Hs as (jobId & uri & Hin & _). by apply elem_of_nil in Hin.
Qed.

(** The claimed job with a second job posted beside it.  The poster
    cancels the second job, and during the refund the agent of the first
    submits its work: the first job ends [Submitted], the second
    [Cancelled].  With no call made during the refund the first job is the
    claimed job it was; and the approval of the submitted job leaves the job
    posted beside it as it was. *)
Lemma transact_frame_witness :
  jobs (board w_beside) !! 0%nat = Some job_claimed /\
  jobs (board (transact_cb callback (mkEnv POSTER 1040) (CancelJob 1) w_beside)) !! 0%nat
  = Some job_submitted /\
  (status <$>
     jobs (board (transact_cb callback (mkEnv POSTER 1040) (CancelJob 1) w_beside)) !! 1%nat)
  = Some Cancelled /\
  jobs (board (transact (mkEnv POSTER 1040) (CancelJob 1) w_beside)) !! 0%nat
  = Some job_claimed /\
  jobs (board (transact (mkEnv POSTER 1050) (ApproveWork 0 90) w_second)) !! 1%nat
  = jobs (board w_second) !! 1%nat.
Proof.
  destruct (transact_frame callback (mkEnv POSTER 1040) (CancelJob 1) w_beside)
    as (_ & _ & Hjobs & _ & _ & _ & Hplain).
  destruct (transact_frame [] (mkEnv POSTER 1050) (ApproveWork 0 90) w_second)
    as (_ & _ & _ & _ & _ & _ & Hsecond).
  assert (jobs (board w_beside) !! 0%nat = Some job_claimed) as Hclaimed
    by (by vm_compute).
  split; [exact Hclaimed|]. split; [|split; [by vm_compute|split]].
  - destruct (Hjobs 0%nat job_claimed Hclaimed) as (job' & Hjob' & Hcase).
    { by intros jobId [= <-]. }
    rewrite Hjob'. f_equal.
    destruct Hcase as [->|[_ (jobId & uri & Hin & _ & _ & ->)]].
    + vm_compute in Hjob'. by injection Hjob'.
    + apply list_elem_of_singleton in Hin. by injection Hin as _ ->.
  - apply (Hplain 0%nat job_claimed Hclaimed). by intros jobId [= <-].
  - rewrite (Hsecond 1%nat (posted (mkEnv POSTER 1045) "Second" 50 80 10 20)).
    + by vm_compute.
    + by vm_compute.
    + by intros jobId [= <-].
Defined.

(** X7: a call on a job succeeds only for the caller its function names:
    [approveWork], [disputeWork] and [cancelJob] for the poster of the job,
    [submitWork] for its agent, [claimJob] for anyone but the poster;
    [expireJob] names nobody. *)
Theorem only_the_named_caller_acts {T : Type} `{IERC20 T}
    (env : Env) (c : Call) (w : World T) (jobId : Z) (job : Job) :
  jobOf c = Some jobId ->
  jobAt (board w) jobId = Ok job ->
  is_Ok (execute env c w) ->
  authorised env c job.
Proof.
  intros Hc Hj [w' Hex]. apply jobAt_Ok_inv in Hj.
  apply execute_Ok_inv in Hex as [_ Hshape]. rewrite Hc in Hshape.
  destruct Hshape as (old & new & Hold & _ & Hup & _).
  rewrite Hj in Hold. injection Hold as <-.
  destruct c; simpl in *; try done; by destruct Hup as (? & ? & ?).
Qed.

(** The poster approves the submitted job; the agent cannot approve its
    own work. *)
Lemma only_the_named_caller_acts_witness :
  authorised (mkEnv POSTER 1050) (ApproveWork 0 90) job_submitted /\
  ~ is_Ok (execute (mkEnv AGENT 1050) (ApproveWork 0 90) w_submitted).
Proof.
  split.
  - apply (only_the_named_caller_acts (mkEnv POSTER 1050) (ApproveWork 0 90)
             w_submitted 0 job_submitted); [done|by vm_compute|].
    eexists. by vm_compute.
  - intros Hok.
    apply (only_the_named_caller_acts (mkEnv AGENT 1050) (ApproveWork 0 90)
             w_submitted 0 job_submitted) in Hok; [done|done|by vm_compute].
Defined.

(** X8: a job id at or past the job count.  Outside a guarded call each of
    the six functions on a job reverts with the out-of-bounds panic (0x32)
    of the array access, not with a message, and the transaction leaves the
    world as it was; [getJobCore] and [getJobAgent] panic in the same way;
    [getCurrentPrice], which checks the id first, reverts with
    ["Job does not exist"]. *)
Theorem unknown_job_panics {T : Type} `{IERC20 T}
    (env : Env) (c : Call) (w : World T) (jobId : Z) :
  jobOf c = Some jobId ->
  _entered (board w) = false ->
  getJobCount (board w) <= jobId ->
  execute env c w = Err (Panic PANIC_OUT_OF_BOUNDS) /\
  transact env c w = w /\
  getJobCore jobId (board w) = Err (Panic PANIC_OUT_OF_BOUNDS) /\
  getJobAgent jobId (board w) = Err (Panic PANIC_OUT_OF_BOUNDS) /\
  getCurrentPrice (block_timestamp env) jobId (board w)
  = Err (Revert "Job does not exist").
Proof.
  intros Hc Hent Hn. unfold getJobCount in Hn.
  assert (jobAt (board w) jobId = Err (Panic PANIC_OUT_OF_BOUNDS)) as Hj.
  { unfold jobAt. rewrite lookup_ge_None_2; [done|]. lia. }
  assert (execute env c w = Err (Panic PANIC_OUT_OF_BOUNDS)) as Hex.
  { destruct c; simpl in *; try done; injection Hc as ->.
    - unfold approveWork. rewrite nonReentrantBefore_Ok, bind_Ok by done.
      change (jobAt (board (with_entered true w)) jobId) with (jobAt (board w) jobId).
      by rewrite Hj.
    - unfold disputeWork. rewrite nonReentrantBefore_Ok, bind_Ok by done.
      change (jobAt (board (with_entered true w)) jobId) with (jobAt (board w) jobId).
      by rewrite Hj.
    - unfold cancelJob. rewrite nonReentrantBefore_Ok, bind_Ok by done.
      change (jobAt (board (with_entered true w)) jobId) with (jobAt (board w) jobId).
      by rewrite Hj.
    - unfold claimJob. rewrite nonReentrantBefore_Ok, bind_Ok by done.
      change (jobAt (board (with_entered true w)) jobId) with (jobAt (board w) jobId).
      by rewrite Hj.
    - unfold submitWork. by rewrite Hj.
    - unfold expireJob. rewrite nonReentrantBefore_Ok, bind_Ok by done.
      change (jobAt (board (with_entered true w)) jobId) with (jobAt (board w) jobId).
      by rewrite Hj. }
  split; [done|]. split; [unfold transact; by rewrite Hex|].
  split; [unfold getJobCore; by rewrite Hj|].
  split; [unfold getJobAgent; by rewrite Hj|].
  unfold getCurrentPrice. by rewrite (proj2 (Z.ltb_ge _ _)) by lia.
Qed.

(** Job 7 on the board that holds one job. *)
Lemma unknown_job_panics_witness :
  execute (mkEnv AGENT 1030) (ClaimJob 7 21548) w_posted
  = Err (Panic PANIC_OUT_OF_BOUNDS) /\
  transact (mkEnv AGENT 1030) (ClaimJob 7 21548) w_posted = w_posted /\
  getJobCore 7 (board w_posted) = Err (Panic PANIC_OUT_OF_BOUNDS) /\
  getJobAgent 7 (board w_posted) = Err (Panic PANIC_OUT_OF_BOUNDS) /\
  getCurrentPrice 1030 7 (board w_posted) = Err (Revert "Job does not exist").
Proof.
  apply (unknown_job_panics (mkEnv AGENT 1030) (ClaimJob 7 21548) w_posted 7);
    by vm_compute.
Defined.



(** ** Invariants of the storage *)

Lemma sumOver_app f (l : list Job) (job : Job) :
  sumOver f (l ++ [job]) = sumOver f l + f job.
Proof. induction l as [|j l IH]; simpl; [lia|]. rewrite IH. lia. Qed.

Lemma sumOver_insert f (l : list Job) (i : nat) (old new : Job) :
  l !! i = Some old ->
  sumOver f (<[i := new]> l) = sumOver f l - f old + f new.
Proof.
  revert i. induction l as [|j l IH]; intros [|i] Hi; simplify_eq/=; [lia|].
  rewrite (IH i) by done. lia.
Qed.

Lemma sumOver_le f g (l : list Job) :
  (forall i job, l !! i = Some job -> f job <= g job) ->
  sumOver f l <= sumOver g l.
Proof.
  induction l as [|j l IH]; intros Hfg; simpl; [lia|].
  pose proof (Hfg 0%nat j eq_refl).
  assert (sumOver f l <= sumOver g l); [|lia].
  apply IH. intros i job Hi. by apply (Hfg (S i)).
Qed.

Lemma sumOver_scale k f (l : list Job) :
  sumOver (fun job => k * f job) l = k * sumOver f l.
Proof. induction l as [|j l IH]; simpl; [lia|]. rewrite IH. lia. Qed.

Lemma sumOver_const (l : list Job) : sumOver (fun _ => 1) l = Z.of_nat (length l).
Proof. induction l as [|j l IH]; simpl; [done|]. rewrite IH. lia. Qed.

Lemma sumOver_add f g (l : list Job) :
  sumOver (fun job => f job + g job) l = sumOver f l + sumOver g l.
Proof. induction l as [|j l IH]; simpl; [done|]. rewrite IH. lia. Qed.

Lemma sumOver_nonneg f (l : list Job) :
  (forall i job, l !! i = Some job -> 0 <= f job) -> 0 <= sumOver f l.
Proof.
  intros Hf. change 0 with (0 * sumOver (fun _ => 1) l) at 1.
  rewrite <- sumOver_scale. apply sumOver_le. intros i job Hi.
  specialize (Hf i job Hi). lia.
Qed.

(** Induction over the reachable worlds, for a property of the storage. *)
Section BoardInduction.
Context {T : Type} `{IERC20 T}.
Variable P : address -> Board -> Prop.
Hypothesis Hdeploy : forall self, self <> 0 -> P self (mkBoard [] ∅ false).
Hypothesis Hstep : forall (w : World T) env c,
  P (this w) (board w) -> valid_env w env -> valid_call c ->
  P (this (transact env c w)) (board (transact env c w)).

Lemma reachable_board_ind (w : World T) bk : reachable w bk -> P (this w) (board w).
Proof using Hdeploy Hstep.
  induction 1 as [self tok Hself _|w bk env c _ IH Henv Hc|w bk tok' _ IH _]; simpl.
  - by apply Hdeploy.
  - by apply Hstep.
  - done.
Qed.

End BoardInduction.

Lemma _getCurrentPrice_range job now p :
  well_posted job -> _getCurrentPrice now job = Ok p ->
  minPrice job <= p <= maxPrice job.
Proof.
  intros (_ & _ & Hmin & Hmax & [Hs _] & Hdur & _) Hp.
  pose proof (_getCurrentPrice_Ok_inv job now p Hp) as Hdef.
  rewrite (_getCurrentPrice_defined job now) in Hp by (done || lia).
  injection Hp as <-.
  destruct Hdef as [Hend Hramp].
  destruct (Z.le_gt_cases (auctionStart job + auctionDuration job) now) as [Hn|Hn].
  - rewrite linearPrice_after by lia. lia.
  - destruct (Hramp Hn) as [Hst _].
    rewrite linearPrice_ramp by lia.
    pose proof (ramp_bound job now) as Hb. lia.
Qed.

Section Coherent.
Context {T : Type} `{IERC20 T}.

Lemma coherent_transact env c (w : World T) :
  valid_env w env -> valid_call c ->
  (forall i job, jobs (board w) !! i = Some job -> well_posted job /\ coherent job) ->
  forall i job, jobs (board (transact env c w)) !! i = Some job ->
                well_posted job /\ coherent job.
Proof.
  intros (Hs0 & _ & Hts) Hc IH i job. unfold transact.
  destruct (execute env c w) as [w'|e] eqn:Hex; [|by eapply IH].
  apply execute_Ok_inv in Hex as [_ Hshape].
  destruct c as [d mn mx ad wd|jobId r|jobId|jobId|jobId id|jobId uri|jobId];
    simpl in Hshape.
  - destruct Hshape
      as (? & ? & ? & ? & ? & [= <- <- <- <- <-] & ? & ? & ? & ? & Hd & -> & _).
    intros Hi. apply lookup_app_Some in Hi as [Hi|[_ Hi]]; [by eapply IH|].
    apply list_lookup_singleton_Some in Hi as [_ <-].
    destruct Hc as ([? ?] & [? ?] & [? ?] & [? ?]).
    split; [|by repeat split].
    unfold well_posted, uint256 in *. simpl.
    repeat split; try lia; try done. by apply length_pos_nonempty.
  - destruct Hshape as (old & new & Hold & -> & (Hst & _ & Hr & ->) & _).
    intros Hi. destruct (lookup_insert_cases _ _ _ _ _ _ Hold Hi) as [[_ ->]|[_ Hi']];
      [|by eapply IH].
    destruct (IH _ _ Hold) as [Hp Hco]. split; [done|].
    unfold coherent, taken in *. rewrite Hst in Hco. simpl.
    destruct Hc as [_ [? _]]. intuition lia.
  - destruct Hshape as (old & new & Hold & -> & (Hst & _ & ->) & _).
    intros Hi. destruct (lookup_insert_cases _ _ _ _ _ _ Hold Hi) as [[_ ->]|[_ Hi']];
      [|by eapply IH].
    destruct (IH _ _ Hold) as [Hp Hco]. split; [done|].
    unfold coherent, taken in *. by rewrite Hst in Hco.
  - destruct Hshape as (old & new & Hold & -> & (Hst & _ & ->) & _).
    intros Hi. destruct (lookup_insert_cases _ _ _ _ _ _ Hold Hi) as [[_ ->]|[_ Hi']];
      [|by eapply IH].
    destruct (IH _ _ Hold) as [Hp Hco]. split; [done|].
    unfold coherent, taken in *. by rewrite Hst in Hco.
  - destruct Hshape
      as (old & new & Hold & -> & (Hst & Hnp & price & Hprice & _ & ->) & _).
    intros Hi. destruct (lookup_insert_cases _ _ _ _ _ _ Hold Hi) as [[_ ->]|[_ Hi']];
      [|by eapply IH].
    destruct (IH _ _ Hold) as [Hp Hco]. split; [done|].
    pose proof (_getCurrentPrice_range _ _ _ Hp Hprice).
    assert (auctionStart old <= block_timestamp env <= MAX_UINT256) as Hat.
    { destruct (_getCurrentPrice_Ok_inv _ _ _ Hprice) as [_ Hramp].
      unfold well_posted, uint256 in *.
      destruct (Z.le_gt_cases (auctionStart old + auctionDuration old)
                              (block_timestamp env)) as [Hn|Hn]; [lia|].
      destruct (Hramp Hn). lia. }
    unfold coherent, taken in *. rewrite Hst in Hco. simpl.
    intuition lia.
  - destruct Hshape as (old & new & Hold & -> & (Hst & _ & Huri & _ & ->) & _).
    intros Hi. destruct (lookup_insert_cases _ _ _ _ _ _ Hold Hi) as [[_ ->]|[_ Hi']];
      [|by eapply IH].
    destruct (IH _ _ Hold) as [Hp Hco]. split; [done|].
    unfold coherent, taken in *. rewrite Hst in Hco. simpl.
    apply length_pos_nonempty in Huri. intuition lia.
  - destruct Hshape as (old & new & Hold & -> & (Hst & _ & ->) & _).
    intros Hi. destruct (lookup_insert_cases _ _ _ _ _ _ Hold Hi) as [[_ ->]|[_ Hi']];
      [|by eapply IH].
    destruct (IH _ _ Hold) as [Hp Hco]. split; [done|].
    unfold coherent, taken in *. by rewrite Hst in Hco.
Qed.

Lemma reachable_coherent (w : World T) bk :
  reachable w bk ->
  forall i job, jobs (board w) !! i = Some job -> well_posted job /\ coherent job.
Proof.
  apply (reachable_board_ind
           (fun _ b => forall i job, jobs b !! i = Some job ->
                                     well_posted job /\ coherent job)).
  - intros self _ i job Hi. done.
  - intros w0 env c IH Henv Hc. by apply coherent_transact.
Qed.

End Coherent.

(** X10: in every reachable world the fields of a job agree with its
    status.  Every job holds what [postJob] checked: a non-zero poster, a
    non-empty description, [0 <= minPrice <= maxPrice], [maxPrice > 0],
    positive durations, all within [uint256].  An [Open] or [Cancelled] job
    has no agent, no agent id, no claim time, nothing locked, no URI and no
    rating.  From [Claimed] on, the agent is a non-zero account other than
    the poster, the locked price lies between [minPrice] and [maxPrice] and
    the claim time is not before the start of the auction.  The URI is
    empty on a [Claimed] or [Expired] job and non-empty on a [Submitted],
    [Completed] or [Disputed] one; the rating is zero except on a
    [Completed] job, where it lies between 0 and 100. *)
Theorem job_fields_match_status {T : Type} `{IERC20 T}
    (w : World T) (bk : Books) (jobId : Z) (job : Job) :
  reachable w bk ->
  jobAt (board w) jobId = Ok job ->
  well_posted job /\ coherent job.
Proof.
  intros Hreach Hj. apply jobAt_Ok_inv in Hj.
  by eapply reachable_coherent.
Qed.

(** The completed job of the scenarios. *)
Lemma job_fields_match_status_witness :
  well_posted (with_rating 90 (with_status Completed job_submitted)) /\
  coherent (with_rating 90 (with_status Completed job_submitted)).
Proof.
  apply (job_fields_match_status w_completed books_completed 0).
  - apply w_completed_reachable.
  - by vm_compute.
Defined.

Section Tally.
Context {T : Type} `{IERC20 T}.

Lemma tally_transact env c (w : World T) :
  (forall a, statsAt (agentStats (board w)) a = tally a (jobs (board w))) ->
  forall a, statsAt (agentStats (board (transact env c w))) a
            = tally a (jobs (board (transact env c w))).
Proof.
  intros IH a. unfold transact.
  destruct (execute env c w) as [w'|e] eqn:Hex; [|done].
  apply execute_Ok_inv in Hex as [_ Hshape].
  destruct c as [d mn mx ad wd|jobId r|jobId|jobId|jobId id|jobId uri|jobId];
    simpl in Hshape.
  - destruct Hshape as (? & ? & ? & ? & ? & [= <- <- <- <- <-] & _ & _ & _ & _ & _ & -> & ->).
    rewrite IH. unfold tally. rewrite !sumOver_app. simpl. f_equal; lia.
  - destruct Hshape as (old & new & Hold & -> & (Hst & _ & _ & ->) & ->).
    unfold tally. rewrite !(sumOver_insert _ _ _ old) by done.
    unfold completedBy, disputedBy, statsAt. simpl. rewrite Hst. simpl.
    destruct (Z.eqb_spec (agent old) a) as [<-|Hne].
    + rewrite lookup_insert_eq. simpl. fold (statsAt (agentStats (board w)) (agent old)).
      rewrite IH. unfold withCompletion, tally, completedBy, disputedBy. simpl.
      f_equal; lia.
    + rewrite lookup_insert_ne by done. fold (statsAt (agentStats (board w)) a).
      rewrite IH. unfold tally, completedBy, disputedBy. f_equal; lia.
  - destruct Hshape as (old & new & Hold & -> & (Hst & _ & ->) & ->).
    unfold tally. rewrite !(sumOver_insert _ _ _ old) by done.
    unfold completedBy, disputedBy, statsAt. simpl. rewrite Hst. simpl.
    destruct (Z.eqb_spec (agent old) a) as [<-|Hne].
    + rewrite lookup_insert_eq. simpl. fold (statsAt (agentStats (board w)) (agent old)).
      rewrite IH. unfold withDispute, tally, completedBy, disputedBy. simpl.
      f_equal; lia.
    + rewrite lookup_insert_ne by done. fold (statsAt (agentStats (board w)) a).
      rewrite IH. unfold tally, completedBy, disputedBy. f_equal; lia.
  - destruct Hshape as (old & new & Hold & -> & (Hst & _ & ->) & ->).
    rewrite IH. unfold tally. rewrite !(sumOver_insert _ _ _ old) by done.
    unfold completedBy, disputedBy. simpl. rewrite Hst. simpl. f_equal; lia.
  - destruct Hshape as (old & new & Hold & -> & (Hst & _ & price & _ & _ & ->) & ->).
    rewrite IH. unfold tally. rewrite !(sumOver_insert _ _ _ old) by done.
    unfold completedBy, disputedBy. simpl. rewrite Hst. simpl. f_equal; lia.
  - destruct Hshape as (old & new & Hold & -> & (Hst & _ & _ & _ & ->) & ->).
    rewrite IH. unfold tally. rewrite !(sumOver_insert _ _ _ old) by done.
    unfold completedBy, disputedBy. simpl. rewrite Hst. simpl. f_equal; lia.
  - destruct Hshape as (old & new & Hold & -> & (Hst & _ & ->) & ->).
    rewrite IH. unfold tally. rewrite !(sumOver_insert _ _ _ old) by done.
    unfold completedBy, disputedBy. simpl. rewrite Hst. simpl. f_equal; lia.
Qed.

Lemma reachable_tally (w : World T) bk :
  reachable w bk ->
  forall a, statsAt (agentStats (board w)) a = tally a (jobs (board w)).
Proof.
  apply (reachable_board_ind
           (fun _ b => forall a, statsAt (agentStats b) a = tally a (jobs b))).
  - intros self _ a. done.
  - intros w0 env c IH _ _. by apply tally_transact.
Qed.

End Tally.

(** X11: in every reachable world the statistics stored for an account are
    the history of the jobs: [completedJobs] is the number of [Completed]
    jobs with that agent, [disputedJobs] the number of [Disputed] ones,
    [totalEarned] the sum of the locked prices of the completed ones and
    [totalRating] the sum of their ratings; [getAgentStats] returns the
    first three as they are. *)
Theorem stats_match_history {T : Type} `{IERC20 T}
    (w : World T) (bk : Books) (a : address) :
  reachable w bk ->
  statsAt (agentStats (board w)) a = tally a (jobs (board w)) /\
  fst (getAgentStats a (board w))
  = (completedJobs (tally a (jobs (board w))),
     disputedJobs (tally a (jobs (board w))),
     totalEarned (tally a (jobs (board w)))).
Proof.
  intros Hreach. pose proof (reachable_tally w bk Hreach a) as Ht.
  split; [done|]. unfold getAgentStats. simpl. by rewrite Ht.
Qed.

(** After the approval the agent has one completed job, 150 earned and a
    rating sum of 90; the other agent has no history. *)
Lemma stats_match_history_witness :
  statsAt (agentStats (board w_completed)) AGENT = mkAgentStats 1 0 150 90 /\
  tally AGENT2 (jobs (board w_completed)) = noStats.
Proof.
  destruct (stats_match_history w_completed books_completed AGENT
              w_completed_reachable) as [Hstats _].
  split; [|by vm_compute]. rewrite Hstats. by vm_compute.
Defined.

(** X12: in every reachable world [getAgentStats] returns, for every
    account, an average rating between 0 and 100, counts of completed and
    of disputed jobs that are not negative and together do not exceed the
    number of jobs, and earnings that are not negative. *)
Theorem average_rating_in_range {T : Type} `{IERC20 T}
    (w : World T) (bk : Books) (a : address) :
  reachable w bk ->
  exists completed disputed earned avg,
    getAgentStats a (board w) = (completed, disputed, earned, avg) /\
    0 <= avg <= 100 /\
    0 <= completed /\ 0 <= disputed /\
    completed + disputed <= getJobCount (board w) /\
    0 <= earned.
Proof.
  intros Hreach.
  pose proof (reachable_tally w bk Hreach a) as Ht.
  pose proof (reachable_coherent w bk Hreach) as Hco.
  unfold getAgentStats. rewrite Ht. unfold tally. simpl.
  set (js := jobs (board w)) in *.
  set (completed := sumOver (fun job => if completedBy a job then 1 else 0) js).
  set (disputed := sumOver (fun job => if disputedBy a job then 1 else 0) js).
  set (earned := sumOver (fun job => if completedBy a job then paidAmount job else 0) js).
  set (rated := sumOver (fun job => if completedBy a job then rating job else 0) js).
  assert (forall i job, js !! i = Some job ->
            completedBy a job = true ->
            0 <= rating job <= 100 /\ 0 <= paidAmount job) as Hdone.
  { intros i job Hi Hc. destruct (Hco i job Hi) as [Hwp Hcoh].
    unfold completedBy in Hc. apply andb_true_iff in Hc as [Hc _].
    apply bool_decide_eq_true_1 in Hc. unfold coherent, taken in Hcoh.
    rewrite Hc in Hcoh. unfold well_posted in Hwp. lia. }
  assert (0 <= completed) as Hc0.
  { apply sumOver_nonneg. intros i job _. destruct (completedBy a job); lia. }
  assert (0 <= disputed) as Hd0.
  { apply sumOver_nonneg. intros i job _. destruct (disputedBy a job); lia. }
  assert (0 <= earned) as He0.
  { apply sumOver_nonneg. intros i job Hi.
    destruct (completedBy a job) eqn:Hc; [|lia]. destruct (Hdone i job Hi Hc). lia. }
  assert (0 <= rated) as Hr0.
  { apply sumOver_nonneg. intros i job Hi.
    destruct (completedBy a job) eqn:Hc; [|lia]. destruct (Hdone i job Hi Hc). lia. }
  assert (rated <= 100 * completed) as Hr100.
  { unfold rated, completed. rewrite <- sumOver_scale. apply sumOver_le.
    intros i job Hi. simpl. destruct (completedBy a job) eqn:Hc; [|lia].
    destruct (Hdone i job Hi Hc). lia. }
  assert (completed + disputed <= Z.of_nat (length js)) as Hcount.
  { unfold completed, disputed. rewrite <- sumOver_add, <- sumOver_const.
    apply sumOver_le. intros i job _. unfold completedBy, disputedBy.
    destruct (status job); simpl; destruct (agent job =? a); simpl; lia. }
  eexists _, _, _, _. split; [done|]. repeat split; try done.
  - destruct (Z.ltb_spec 0 completed); [|lia]. apply Z.div_pos; lia.
  - destruct (Z.ltb_spec 0 completed); [|lia].
    apply Z.div_le_upper_bound; lia.
Qed.

(** The agent of the completed job. *)
Lemma average_rating_in_range_witness :
  exists completed disputed earned avg,
    getAgentStats AGENT (board w_completed) = (completed, disputed, earned, avg) /\
    0 <= avg <= 100 /\
    0 <= completed /\ 0 <= disputed /\
    completed + disputed <= getJobCount (board w_completed) /\
    0 <= earned.
Proof.
  exact (average_rating_in_range w_completed books_completed AGENT
           w_completed_reachable).
Defined.

(** X13: from a reachable world no transaction lowers a counter of any
    account: the numbers of completed and of disputed jobs, the total
    earned and the sum of the ratings after the transaction are at least
    what they were before it. *)
Theorem reputation_only_grows {T : Type} `{IERC20 T}
    (w : World T) (bk : Books) (env : Env) (c : Call) (a : address) :
  reachable w bk ->
  valid_env w env ->
  valid_call c ->
  completedJobs (statsAt (agentStats (board w)) a)
  <= completedJobs (statsAt (agentStats (board (transact env c w))) a) /\
  disputedJobs (statsAt (agentStats (board w)) a)
  <= disputedJobs (statsAt (agentStats (board (transact env c w))) a) /\
  totalEarned (statsAt (agentStats (board w)) a)
  <= totalEarned (statsAt (agentStats (board (transact env c w))) a) /\
  totalRating (statsAt (agentStats (board w)) a)
  <= totalRating (statsAt (agentStats (board (transact env c w))) a).
Proof.
  intros Hreach _ Hc. pose proof (reachable_coherent w bk Hreach) as Hco.
  unfold transact. destruct (execute env c w) as [w'|e] eqn:Hex; [|lia].
  apply execute_Ok_inv in Hex as [_ Hshape].
  destruct (jobOf c) as [jobId|] eqn:Hjob.
  2:{ destruct Hshape as (? & ? & ? & ? & ? & _ & _ & _ & _ & _ & _ & _ & ->). lia. }
  destruct Hshape as (old & new & Hold & _ & Hup & ->).
  destruct (Hco _ _ Hold) as [Hwp Hcoh].
  destruct c as [d mn mx ad wd|j r|j|j|j id|j uri|j]; simpl in *; try lia.
  - destruct Hup as (Hst & _). unfold coherent, taken in Hcoh. rewrite Hst in Hcoh.
    unfold well_posted in Hwp.
    destruct (decide (agent old = a)) as [<-|Hne].
    + rewrite statsAt_insert. simpl. lia.
    + unfold statsAt. rewrite lookup_insert_ne by done. lia.
  - destruct (decide (agent old = a)) as [<-|Hne].
    + rewrite statsAt_insert. simpl. lia.
    + unfold statsAt. rewrite lookup_insert_ne by done. lia.
Qed.

(** The approval of the submitted job, seen on the counters of its
    agent. *)
Lemma reputation_only_grows_witness :
  completedJobs (statsAt (agentStats (board w_submitted)) AGENT)
  <= completedJobs (statsAt (agentStats (board w_completed)) AGENT) /\
  disputedJobs (statsAt (agentStats (board w_submitted)) AGENT)
  <= disputedJobs (statsAt (agentStats (board w_completed)) AGENT) /\
  totalEarned (statsAt (agentStats (board w_submitted)) AGENT)
  <= totalEarned (statsAt (agentStats (board w_completed)) AGENT) /\
  totalRating (statsAt (agentStats (board w_submitted)) AGENT)
  <= totalRating (statsAt (agentStats (board w_completed)) AGENT).
Proof.
  apply (reputation_only_grows w_submitted books_submitted (mkEnv POSTER 1050)
           (ApproveWork 0 90) AGENT).
  - apply w_submitted_reachable.
  - repeat split; by vm_compute.
  - repeat split; by vm_compute.
Defined.

(** ** The escrow can always be released *)

Section Release.
Context {T : Type} `{StandardToken T}.

Lemma Inv_backs_job (w : World T) bk jobId job :
  Inv w bk -> jobAt (board w) jobId = Ok job ->
  outstanding job <= balanceOf (clawd w) (this w).
Proof.
  intros Hinv Hjob. rewrite (inv_backed w bk Hinv).
  pose proof (inv_surplus w bk Hinv).
  pose proof (jobAt_Ok_inv _ _ _ Hjob) as Hl.
  assert (outstanding job <= escrowTotal (jobs (board w))) as Hle; [|lia].
  eapply escrowTotal_lookup_le; [|done].
  intros k j Hk. destruct (inv_jobs w bk Hinv k j Hk) as [Hwfj _].
  by eapply outstanding_nonneg.
Qed.

Lemma cancelJob_succeeds (w : World T) bk env jobId job :
  Inv w bk -> jobAt (board w) jobId = Ok job ->
  status job = Open -> msg_sender env = poster job ->
  exists w',
    cancelJob env jobId w = Ok w' /\
    this w' = this w /\
    jobAt (board w') jobId = Ok (with_status Cancelled job) /\
    balanceOf (clawd w') (this w) = balanceOf (clawd w) (this w) - maxPrice job.
Proof.
  intros Hinv Hjob Hst Hposter.
  pose proof (Inv_jobAt w bk jobId job Hinv Hjob) as Hwf.
  pose proof (inv_entered w bk Hinv) as Hent.
  pose proof (inv_this w bk Hinv) as Hthis.
  pose proof (Inv_backs_job w bk jobId job Hinv Hjob) as Hb.
  unfold outstanding in Hb. rewrite Hst in Hb.
  destruct Hwf as [Hmin Hmax Hstart Hdur Hwd [Hp0 Hpthis] Hpaid Hag].
  destruct (transfer_succeeds (clawd w) (this w) (poster job) (maxPrice job))
    as [tok Htok]; [done|done|lia|].
  eexists. rewrite (cancelJob_unfold env jobId w job) by done.
  rewrite (proj2 (Z.eqb_eq _ _) Hposter), require_true, bind_Ok.
  rewrite bool_decide_eq_true_2, require_true, bind_Ok by done.
  unfold safeTransfer. rewrite Htok, bind_Ok.
  split; [done|]. split; [done|]. split; [by eapply jobAt_insert|].
  simpl. eapply transfer_debits; [done|congruence].
Qed.

End Release.

(** X14: in every reachable world, with a standard token, the board holds
    at least the escrow of all its jobs together: the total is not negative
    and does not exceed the board's token balance, and the tokens still
    held for a job are not negative and are part of the total. *)
Theorem board_is_solvent {T : Type} `{StandardToken T}
    (w : World T) (bk : Books) :
  reachable w bk ->
  0 <= escrowTotal (jobs (board w)) <= balanceOf (clawd w) (this w) /\
  forall jobId job,
    jobAt (board w) jobId = Ok job ->
    0 <= outstanding job <= escrowTotal (jobs (board w)).
Proof.
  intros Hreach. pose proof (reachable_Inv w bk Hreach) as Hinv.
  pose proof (inv_backed w bk Hinv) as Hb.
  pose proof (inv_surplus w bk Hinv) as Hs.
  assert (forall k j, jobs (board w) !! k = Some j -> 0 <= outstanding j) as Hpos.
  { intros k j Hk. destruct (inv_jobs w bk Hinv k j Hk) as [Hwfj _].
    by eapply outstanding_nonneg. }
  split.
  - split; [|lia]. clear -Hpos.
    induction (jobs (board w)) as [|j l IH]; simpl; [lia|].
    pose proof (Hpos 0%nat j eq_refl).
    assert (0 <= escrowTotal l); [|lia].
    apply IH. intros k j0 Hk. by apply (Hpos (S k)).
  - intros jobId job Hjob. apply jobAt_Ok_inv in Hjob.
    split; [by eapply Hpos|by eapply escrowTotal_lookup_le].
Qed.

(** After the claim at 150 the board holds exactly the 150 tokens still
    escrowed for the job. *)
Lemma board_is_solvent_witness :
  0 <= escrowTotal (jobs (board w_claimed)) <= balanceOf (clawd w_claimed) BOARD /\
  0 <= outstanding job_claimed <= escrowTotal (jobs (board w_claimed)) /\
  outstanding job_claimed = 150 /\
  balanceOf (clawd w_claimed) BOARD = 150.
Proof.
  destruct (board_is_solvent w_claimed books_claimed w_claimed_reachable)
    as [Htotal Hjob].
  split; [exact Htotal|]. split; [|by vm_compute].
  apply (Hjob 0). by vm_compute.
Defined.

(** X15: in a reachable world, with a standard token, the poster can
    always settle a [Submitted] job, because the token transfer cannot fail.
    [disputeWork] succeeds unless the agent's [disputedJobs] would leave
    [uint256], and [approveWork] with a rating up to 100 succeeds unless one
    of the agent's three counters would.  Either way the job reaches its
    final status, the statistics of the agent record it, and the board's
    balance drops by exactly the locked price. *)
Theorem submitted_job_can_be_settled {T : Type} `{StandardToken T}
    (w : World T) (bk : Books) (env : Env) (jobId r : Z) (job : Job) :
  reachable w bk ->
  jobAt (board w) jobId = Ok job ->
  status job = Submitted ->
  msg_sender env = poster job ->
  (disputedJobs (statsAt (agentStats (board w)) (agent job)) + 1 <= MAX_UINT256 ->
   exists w',
     disputeWork env jobId w = Ok w' /\
     jobAt (board w') jobId = Ok (with_status Disputed job) /\
     statsAt (agentStats (board w')) (agent job)
     = withDispute (statsAt (agentStats (board w)) (agent job)) /\
     balanceOf (clawd w') (this w')
     = balanceOf (clawd w) (this w) - paidAmount job) /\
  (r <= 100 ->
   completedJobs (statsAt (agentStats (board w)) (agent job)) + 1 <= MAX_UINT256 ->
   totalEarned (statsAt (agentStats (board w)) (agent job)) + paidAmount job
     <= MAX_UINT256 ->
   totalRating (statsAt (agentStats (board w)) (agent job)) + r <= MAX_UINT256 ->
   exists w',
     approveWork env jobId r w = Ok w' /\
     jobAt (board w') jobId = Ok (with_rating r (with_status Completed job)) /\
     statsAt (agentStats (board w')) (agent job)
     = withCompletion (paidAmount job) r (statsAt (agentStats (board w)) (agent job)) /\
     balanceOf (clawd w') (this w')
     = balanceOf (clawd w) (this w) - paidAmount job).
Proof.
  intros Hreach Hjob Hst Hposter.
  pose proof (reachable_Inv w bk Hreach) as Hinv.
  pose proof (Inv_jobAt w bk jobId job Hinv Hjob) as Hwf.
  pose proof (inv_entered w bk Hinv) as Hent.
  pose proof (inv_this w bk Hinv) as Hthis.
  pose proof (Inv_backs_job w bk jobId job Hinv Hjob) as Hb.
  unfold outstanding in Hb. rewrite Hst in Hb.
  destruct Hwf as [Hmin Hmax Hstart Hdur Hwd [Hp0 Hpthis] Hpaid Hag].
  destruct Hag as [Ha0 Hathis]; [by right|].
  split.
  - intros Hfit.
    destruct (transfer_succeeds (clawd w) (this w) (poster job) (paidAmount job))
      as [tok Htok]; [done|done|lia|].
    eexists. rewrite (disputeWork_unfold env jobId w job) by done.
    rewrite (proj2 (Z.eqb_eq _ _) Hposter), require_true, bind_Ok.
    rewrite bool_decide_eq_true_2, require_true, bind_Ok by done.
    cbv zeta. rewrite checked_add_Ok, bind_Ok by done.
    unfold safeTransfer. rewrite Htok, bind_Ok.
    split; [done|]. split; [by eapply jobAt_insert|].
    split; [simpl; unfold statsAt at 1; by rewrite lookup_insert_eq|].
    simpl. eapply transfer_debits; [done|congruence].
  - intros Hr Hc1 He1 Hr1.
    destruct (transfer_succeeds (clawd w) (this w) (agent job) (paidAmount job))
      as [tok Htok]; [done|done|lia|].
    eexists. rewrite (approveWork_unfold env jobId w job) by done.
    rewrite (proj2 (Z.eqb_eq _ _) Hposter), require_true, bind_Ok.
    rewrite bool_decide_eq_true_2, require_true, bind_Ok by done.
    rewrite (proj2 (Z.leb_le _ _) Hr), require_true, bind_Ok.
    cbv zeta.
    rewrite (checked_add_Ok (completedJobs _)), bind_Ok by done.
    rewrite (checked_add_Ok (totalEarned _)), bind_Ok by done.
    rewrite (checked_add_Ok (totalRating _)), bind_Ok by done.
    unfold safeTransfer. rewrite Htok, bind_Ok.
    split; [done|]. split; [by eapply jobAt_insert|].
    split; [simpl; unfold statsAt at 1; by rewrite lookup_insert_eq|].
    simpl. eapply transfer_debits; [done|congruence].
Qed.

(** The submitted job of the scenarios: the poster can dispute it or
    approve it with rating 90, and 150 tokens leave the board. *)
Lemma submitted_job_can_be_settled_witness :
  (exists w',
     disputeWork (mkEnv POSTER 1050) 0 w_submitted = Ok w' /\
     jobAt (board w') 0 = Ok (with_status Disputed job_submitted) /\
     statsAt (agentStats (board w')) AGENT = mkAgentStats 0 1 0 0 /\
     balanceOf (clawd w') (this w') = balanceOf (clawd w_submitted) BOARD - 150) /\
  (exists w',
     approveWork (mkEnv POSTER 1050) 0 90 w_submitted = Ok w' /\
     jobAt (board w') 0 = Ok (with_rating 90 (with_status Completed job_submitted)) /\
     statsAt (agentStats (board w')) AGENT = mkAgentStats 1 0 150 90 /\
     balanceOf (clawd w') (this w') = balanceOf (clawd w_submitted) BOARD - 150).
Proof.
  destruct (submitted_job_can_be_settled w_submitted books_submitted
              (mkEnv POSTER 1050) 0 90 job_submitted)
    as [Hdispute Happrove].
  - apply w_submitted_reachable.
  - by vm_compute.
  - done.
  - done.
  - split.
    + destruct Hdispute as (w' & Hd & Hj & Hs & Hb); [by vm_compute|].
      exists w'. split; [exact Hd|]. split; [exact Hj|].
      split; [etrans; [exact Hs|by vm_compute]|exact Hb].
    + destruct Happrove as (w' & Ha & Hj & Hs & Hb);
        [lia|by vm_compute|by vm_compute|by vm_compute|].
      exists w'. split; [exact Ha|]. split; [exact Hj|].
      split; [etrans; [exact Hs|by vm_compute]|exact Hb].
Defined.

(** X16: in a reachable world, with a standard token, a [Claimed] job
    whose deadline [claimedAt + workDeadline] fits [uint256] and has passed
    can be expired by any caller, because the refund cannot fail: the job
    becomes [Expired], the board's balance drops by exactly the locked
    price, and no statistics change (an expiry is not counted against the
    agent). *)
Theorem overdue_job_can_be_expired {T : Type} `{StandardToken T}
    (w : World T) (bk : Books) (env : Env) (jobId : Z) (job : Job) :
  reachable w bk ->
  jobAt (board w) jobId = Ok job ->
  status job = Claimed ->
  claimedAt job + workDeadline job <= MAX_UINT256 ->
  claimedAt job + workDeadline job < block_timestamp env ->
  exists w',
    expireJob env jobId w = Ok w' /\
    jobAt (board w') jobId = Ok (with_status Expired job) /\
    agentStats (board w') = agentStats (board w) /\
    balanceOf (clawd w') (this w') = balanceOf (clawd w) (this w) - paidAmount job.
Proof.
  intros Hreach Hjob Hst Hfit Hlate.
  pose proof (reachable_Inv w bk Hreach) as Hinv.
  pose proof (Inv_jobAt w bk jobId job Hinv Hjob) as Hwf.
  pose proof (inv_entered w bk Hinv) as Hent.
  pose proof (inv_this w bk Hinv) as Hthis.
  pose proof (Inv_backs_job w bk jobId job Hinv Hjob) as Hb.
  unfold outstanding in Hb. rewrite Hst in Hb.
  destruct Hwf as [Hmin Hmax Hstart Hdur Hwd [Hp0 Hpthis] Hpaid Hag].
  destruct (transfer_succeeds (clawd w) (this w) (poster job) (paidAmount job))
    as [tok Htok]; [done|done|lia|].
  eexists. rewrite (expireJob_unfold env jobId w job) by done.
  rewrite bool_decide_eq_true_2, require_true, bind_Ok by done.
  rewrite checked_add_Ok, bind_Ok by done.
  rewrite (proj2 (Z.ltb_lt _ _) Hlate), require_true, bind_Ok.
  unfold safeTransfer. rewrite Htok, bind_Ok.
  split; [done|]. split; [by eapply jobAt_insert|]. split; [done|].
  simpl. eapply transfer_debits; [done|congruence].
Qed.

(** The job claimed at 1030 with 300 seconds for the work is expired at
    1331 by an account that is neither its poster nor its agent. *)
Lemma overdue_job_can_be_expired_witness :
  exists w',
    expireJob (mkEnv AGENT2 1331) 0 w_claimed = Ok w' /\
    jobAt (board w') 0 = Ok (with_status Expired job_claimed) /\
    agentStats (board w') = agentStats (board w_claimed) /\
    balanceOf (clawd w') (this w') = balanceOf (clawd w_claimed) BOARD - 150.
Proof.
  apply (overdue_job_can_be_expired w_claimed books_claimed (mkEnv AGENT2 1331) 0
           job_claimed).
  - apply w_claimed_reachable.
  - by vm_compute.
  - done.
  - by vm_compute.
  - by vm_compute.
Defined.

(** X17: from a reachable world, with a standard token, a job that has
    just been posted can be cancelled by the account that posted it, at any
    timestamp: the cancellation succeeds and brings the board's balance
    back to what it was before the post; the job stays in the array, with
    its terms, as [Cancelled]. *)
Theorem post_then_cancel_restores_balance {T : Type} `{StandardToken T}
    (w w1 : World T) (bk : Books) (env env' : Env)
    (d : string) (mn mx ad wd jobId : Z) :
  reachable w bk ->
  valid_env w env ->
  valid_call (PostJob d mn mx ad wd) ->
  postJob env d mn mx ad wd w = Ok (jobId, w1) ->
  msg_sender env' = msg_sender env ->
  exists w2,
    cancelJob env' jobId w1 = Ok w2 /\
    getJobCore jobId (board w2)
    = Ok (msg_sender env, d, mn, mx, block_timestamp env, ad, wd, Cancelled) /\
    getJobCount (board w2) = getJobCount (board w) + 1 /\
    balanceOf (clawd w2) (this w2) = balanceOf (clawd w) (this w).
Proof.
  intros Hreach Henv Hc Hp Hsame.
  assert (transact env (PostJob d mn mx ad wd) w = w1) as Htx.
  { unfold transact. simpl. by rewrite Hp. }
  pose proof (reach_transact w bk env _ Hreach Henv Hc) as Hreach1.
  rewrite Htx in Hreach1.
  pose proof (reachable_Inv _ _ Hreach1) as Hinv1.
  destruct Henv as (_ & Hsthis & _).
  apply postJob_Ok_inv in Hp as (tok & _ & _ & _ & _ & _ & _ & Htr & -> & ->).
  apply transferFrom_credits in Htr; [|done].
  set (w1 := mkWorld (this w)
               (mkBoard (jobs (board w) ++ [posted env d mn mx ad wd])
                        (agentStats (board w)) false) tok) in *.
  assert (jobAt (board w1) (Z.of_nat (length (jobs (board w))))
          = Ok (posted env d mn mx ad wd)) as Hj.
  { apply jobAt_Ok. simpl. rewrite Nat2Z.id. by apply list_lookup_middle. }
  destruct (cancelJob_succeeds w1 _ env' _ _ Hinv1 Hj) as (w2 & Hcan & Hthis & Hj2 & Hbal);
    [done|done|].
  exists w2. split; [done|].
  split; [unfold getJobCore; by rewrite Hj2|].
  split.
  - apply cancelJob_Ok_inv in Hcan as (? & ? & _ & _ & _ & _ & _ & ->).
    unfold getJobCount. simpl. rewrite length_insert, length_app. simpl. lia.
  - rewrite Hthis. simpl in Hbal |- *. lia.
Qed.

(** The job of the scenarios, posted at 1000 and cancelled at 1010. *)
Lemma post_then_cancel_restores_balance_witness :
  exists w2,
    cancelJob (mkEnv POSTER 1010) 0 w_posted = Ok w2 /\
    getJobCore 0 (board w2)
    = Ok (POSTER, "Test"%string, 100, 200, 1000, 60, 300, Cancelled) /\
    getJobCount (board w2) = getJobCount (board genesis) + 1 /\
    balanceOf (clawd w2) (this w2) = balanceOf (clawd genesis) BOARD.
Proof.
  apply (post_then_cancel_restores_balance genesis w_posted books0
           (mkEnv POSTER 1000) (mkEnv POSTER 1010) "Test" 100 200 60 300 0).
  - apply genesis_reachable.
  - repeat split; by vm_compute.
  - repeat split; by vm_compute.
  - by vm_compute.
  - done.
Defined.

(** ** Payments on the OpenZeppelin ledger *)

Lemma _transfer_balances from to value tok tok' :
  _transfer from to value tok = Some tok' ->
  forall x,
    erc20_balanceOf tok' x
    = erc20_balanceOf tok x + (if x =? to then value else 0)
      - (if x =? from then value else 0).
Proof.
  intros Htr x. apply _transfer_Some_inv in Htr as (_ & _ & _ & _ & Hb).
  unfold erc20_balanceOf at 1. rewrite Hb.
  destruct (Z.eqb_spec x to) as [Hto|Hto], (Z.eqb_spec x from) as [Hfrom|Hfrom].
  - subst to from. rewrite !lookup_insert_eq. unfold erc20_balanceOf. simpl. lia.
  - subst to. rewrite lookup_insert_eq, lookup_insert_ne by congruence.
    unfold erc20_balanceOf. simpl. lia.
  - subst from. rewrite lookup_insert_ne, lookup_insert_eq by congruence.
    unfold erc20_balanceOf. simpl. lia.
  - rewrite !lookup_insert_ne by congruence. unfold erc20_balanceOf. lia.
Qed.

Lemma erc20_transferFrom_balances spender from to value tok tok' :
  erc20_transferFrom spender from to value tok = Some tok' ->
  forall x,
    erc20_balanceOf tok' x
    = erc20_balanceOf tok x + (if x =? to then value else 0)
      - (if x =? from then value else 0).
Proof.
  unfold erc20_transferFrom. intros Htr x.
  destruct (_spendAllowance from spender value tok) as [tok1|] eqn:Hsp; [|done].
  simpl in Htr. apply _spendAllowance_balances in Hsp.
  rewrite (_transfer_balances _ _ _ _ _ Htr x).
  unfold erc20_balanceOf. by rewrite Hsp.
Qed.

(** X18: on the OpenZeppelin ledger a successful call on a job moves tokens
    from the board to one account and to no other.  [approveWork] pays the
    locked price to the agent; [disputeWork] and [expireJob] return it to
    the poster; [cancelJob] returns [maxPrice] to the poster; [claimJob]
    returns to the poster [maxPrice] less the price it locks; [submitWork]
    moves nothing.  Every other balance is as before. *)
Theorem payments_reach_their_payee
    (env : Env) (c : Call) (w w' : World ERC20) (jobId : Z) (old new : Job) :
  jobOf c = Some jobId ->
  jobAt (board w) jobId = Ok old ->
  execute env c w = Ok w' ->
  jobAt (board w') jobId = Ok new ->
  forall x,
    balanceOf (clawd w') x
    = balanceOf (clawd w) x
      + (if x =? fst (payment c old new) then snd (payment c old new) else 0)
      - (if x =? this w then snd (payment c old new) else 0).
Proof.
  intros Hc Hold Hex Hnew x.
  destruct c as [d mn mx ad wd|j r|j|j|j id|j uri|j]; simpl in Hc; try done;
    injection Hc as ->; simpl in Hex |- *.
  - apply approveWork_Ok_inv in Hex as (job & tok & _ & Hj & _ & _ & _ & Htr & ->).
    rewrite Hold in Hj. injection Hj as <-.
    by apply (_transfer_balances _ _ _ _ _ Htr).
  - apply disputeWork_Ok_inv in Hex as (job & tok & _ & Hj & _ & _ & Htr & ->).
    rewrite Hold in Hj. injection Hj as <-.
    by apply (_transfer_balances _ _ _ _ _ Htr).
  - apply cancelJob_Ok_inv in Hex as (job & tok & _ & Hj & _ & _ & Htr & ->).
    rewrite Hold in Hj. injection Hj as <-.
    by apply (_transfer_balances _ _ _ _ _ Htr).
  - apply claimJob_Ok_inv in Hex
      as (job & price & tok & _ & Hj & _ & _ & _ & Hle & Htr & ->).
    rewrite Hold in Hj. injection Hj as <-.
    cbn [board] in Hnew.
    rewrite (jobAt_insert _ _ old _ _ _ Hold) in Hnew. injection Hnew as <-.
    simpl. destruct (Z.ltb_spec 0 (maxPrice old - price)).
    + by apply (_transfer_balances _ _ _ _ _ Htr).
    + subst tok. replace (maxPrice old - price) with 0 by lia.
      destruct (_ =? _), (_ =? _); lia.
  - apply submitWork_Ok_inv in Hex as (job & _ & _ & _ & _ & _ & _ & ->).
    simpl. destruct (_ =? _), (_ =? _); lia.
  - apply expireJob_Ok_inv in Hex as (job & tok & _ & Hj & _ & _ & _ & Htr & ->).
    rewrite Hold in Hj. injection Hj as <-.
    by apply (_transfer_balances _ _ _ _ _ Htr).
Qed.

(** The approval of the job claimed at 150: the agent gains 150, the board
    loses 150, the poster's balance stays. *)
Lemma payments_reach_their_payee_witness :
  balanceOf (clawd w_completed) AGENT = balanceOf (clawd w_submitted) AGENT + 150 /\
  balanceOf (clawd w_completed) BOARD = balanceOf (clawd w_submitted) BOARD - 150 /\
  balanceOf (clawd w_completed) POSTER = balanceOf (clawd w_submitted) POSTER.
Proof.
  pose proof (payments_reach_their_payee (mkEnv POSTER 1050) (ApproveWork 0 90)
                w_submitted w_completed 0 job_submitted
                (with_rating 90 (with_status Completed job_submitted))) as Hpay.
  assert (forall x,
            balanceOf (clawd w_completed) x
            = balanceOf (clawd w_submitted) x + (if x =? AGENT then 150 else 0)
              - (if x =? BOARD then 150 else 0)) as Hx.
  { apply Hpay; by vm_compute. }
  split; [|split].
  - rewrite (Hx AGENT). simpl. lia.
  - rewrite (Hx BOARD). simpl. lia.
  - rewrite (Hx POSTER). simpl. lia.
Defined.

Lemma postJob_balances env d mn mx ad wd (w w1 : World ERC20) jobId :
  postJob env d mn mx ad wd w = Ok (jobId, w1) ->
  this w1 = this w /\
  jobAt (board w1) jobId = Ok (posted env d mn mx ad wd) /\
  forall x,
    balanceOf (clawd w1) x
    = balanceOf (clawd w) x + (if x =? this w then mx else 0)
      - (if x =? msg_sender env then mx else 0).
Proof.
  intros Hp. apply postJob_Ok_inv in Hp as (tok & _ & _ & _ & _ & _ & _ & Htr & -> & ->).
  split; [done|]. split.
  - apply jobAt_Ok. simpl. rewrite Nat2Z.id. by apply list_lookup_middle.
  - intros x. by apply (erc20_transferFrom_balances _ _ _ _ _ _ Htr).
Qed.

Lemma claimJob_balances env jobId id (w w' : World ERC20) job :
  jobAt (board w) jobId = Ok job ->
  claimJob env jobId id w = Ok w' ->
  this w' = this w /\
  exists price,
    _getCurrentPrice (block_timestamp env) job = Ok price /\
    jobAt (board w') jobId = Ok (claimed env id price job) /\
    forall x,
      balanceOf (clawd w') x
      = balanceOf (clawd w) x + (if x =? poster job then maxPrice job - price else 0)
        - (if x =? this w then maxPrice job - price else 0).
Proof.
  intros Hj Hc.
  apply claimJob_Ok_inv in Hc
    as (job0 & price & tok & _ & Hj0 & _ & _ & Hprice & Hle & Htr & ->).
  rewrite Hj in Hj0. injection Hj0 as <-.
  split; [done|]. exists price. split; [done|].
  split; [by eapply jobAt_insert|].
  intros x. simpl. destruct (Z.ltb_spec 0 (maxPrice job - price)).
  - by apply (_transfer_balances _ _ _ _ _ Htr).
  - subst tok. replace (maxPrice job - price) with 0 by lia.
    destruct (_ =? _), (_ =? _); lia.
Qed.

(** X19: a whole life cycle on the OpenZeppelin ledger.  When [postJob],
    [claimJob], [submitWork] and [approveWork] have succeeded one after the
    other on a job, exactly the price of the claim has moved from the poster
    to the agent: that price is the auction price at the timestamp of the
    claim, between [minPrice] and [maxPrice]; the balance of the board and
    of every other account is the one before the post; and [getJobAgent]
    shows the agent, its id, the time of the claim, the URI, the price and
    the rating. *)
Theorem approved_job_moves_the_price
    (w0 w1 w2 w3 w4 : World ERC20) (envP envC envS envA : Env)
    (d uri : string) (mn mx ad wd jobId id r : Z) :
  postJob envP d mn mx ad wd w0 = Ok (jobId, w1) ->
  claimJob envC jobId id w1 = Ok w2 ->
  submitWork envS jobId uri w2 = Ok w3 ->
  approveWork envA jobId r w3 = Ok w4 ->
  exists price,
    _getCurrentPrice (block_timestamp envC) (posted envP d mn mx ad wd) = Ok price /\
    mn <= price <= mx /\
    getJobAgent jobId (board w4)
    = Ok (msg_sender envC, id, block_timestamp envC, uri, price, r) /\
    forall x,
      balanceOf (clawd w4) x
      = balanceOf (clawd w0) x + (if x =? msg_sender envC then price else 0)
        - (if x =? msg_sender envP then price else 0).
Proof.
  intros Hp Hc Hs Ha.
  pose proof Hp as Hvalid.
  apply postJob_Ok_inv in Hvalid as (_ & _ & Hmx & Hmn & Had & _).
  destruct (postJob_balances _ _ _ _ _ _ _ _ _ Hp) as (Ht1 & Hj1 & Hb1).
  destruct (claimJob_balances _ _ _ _ _ _ Hj1 Hc) as (Ht2 & price & Hprice & Hj2 & Hb2).
  apply submitWork_Ok_inv in Hs as (job2 & Hj2' & _ & _ & _ & _ & _ & ->).
  rewrite Hj2 in Hj2'. injection Hj2' as <-.
  apply approveWork_Ok_inv in Ha as (job3 & tok & _ & Hj3 & _ & _ & _ & Htr & ->).
  cbn [board this clawd] in *.
  rewrite (jobAt_insert _ _ _ _ _ _ Hj2) in Hj3. injection Hj3 as <-.
  simpl in Htr.
  exists price. split; [done|].
  assert (mn <= price <= mx) as Hrange.
  { unfold _getCurrentPrice in Hprice. simpl in Hprice. result_inv.
    destruct (Z.leb_spec (block_timestamp envP + ad) (block_timestamp envC)).
    - result_inv. lia.
    - result_inv.
      assert (0 <= (mx - mn) * (block_timestamp envC - block_timestamp envP) / ad
              <= mx - mn); [|lia].
      split.
      + apply Z.div_pos; [|lia]. apply Z.mul_nonneg_nonneg; lia.
      + apply Z.div_le_upper_bound; [lia|].
        rewrite Z.mul_comm. apply Z.mul_le_mono_nonneg_r; lia. }
  split; [done|]. split.
  - unfold getJobAgent. erewrite jobAt_insert; [done|].
    by eapply jobAt_insert.
  - intros x. pose proof (_transfer_balances _ _ _ _ _ Htr x) as Hb3.
    specialize (Hb2 x). specialize (Hb1 x).
    change (@balanceOf ERC20 ERC20_IERC20) with erc20_balanceOf in *.
    simpl in Hb2, Hb3. rewrite Ht1 in *. rewrite Ht2 in Hb3.
    destruct (x =? msg_sender envC), (x =? msg_sender envP), (x =? this w0); lia.
Qed.

(** The life cycle of the scenarios: 150 tokens have gone from the poster
    to the agent, and the board holds nothing. *)
Lemma approved_job_moves_the_price_witness :
  getJobAgent 0 (board w_completed)
  = Ok (AGENT, 21548, 1030, "ipfs://bafkreiexample"%string, 150, 90) /\
  balanceOf (clawd w_completed) AGENT = balanceOf (clawd genesis) AGENT + 150 /\
  balanceOf (clawd w_completed) POSTER = balanceOf (clawd genesis) POSTER - 150 /\
  balanceOf (clawd w_completed) BOARD = balanceOf (clawd genesis) BOARD.
Proof.
  destruct (approved_job_moves_the_price genesis w_posted w_claimed w_submitted
              w_completed (mkEnv POSTER 1000) (mkEnv AGENT 1030) (mkEnv AGENT 1040)
              (mkEnv POSTER 1050) "Test" "ipfs://bafkreiexample" 100 200 60 300
              0 21548 90)
    as (price & Hprice & _ & Hagent & Hbal);
    [by vm_compute|by vm_compute|by vm_compute|by vm_compute|].
  vm_compute in Hprice. injection Hprice as <-.
  split; [exact Hagent|].
  split; [|split].
  - rewrite (Hbal AGENT). simpl. lia.
  - rewrite (Hbal POSTER). simpl. lia.
  - rewrite (Hbal BOARD). simpl. lia.
Defined.

(** X20: on the OpenZeppelin ledger a claimed job that is not approved
    costs nobody anything.  After [postJob] and [claimJob], an [expireJob],
    or a [submitWork] followed by a [disputeWork], leaves every balance as
    it was before the job was posted: the poster has everything back and
    the agent has received nothing.  The expiry leaves the statistics as
    they were when the job was posted; the dispute adds one to the agent's
    [disputedJobs] and changes nothing else of what [getAgentStats]
    returns for it. *)
Theorem unapproved_job_refunds_in_full
    (w0 w1 w2 : World ERC20) (envP envC : Env)
    (d : string) (mn mx ad wd jobId id : Z) :
  postJob envP d mn mx ad wd w0 = Ok (jobId, w1) ->
  claimJob envC jobId id w1 = Ok w2 ->
  (forall env w3,
     expireJob env jobId w2 = Ok w3 ->
     (forall x, balanceOf (clawd w3) x = balanceOf (clawd w0) x) /\
     agentStats (board w3) = agentStats (board w0)) /\
  (forall envS uri w3 envD w4,
     submitWork envS jobId uri w2 = Ok w3 ->
     disputeWork envD jobId w3 = Ok w4 ->
     (forall x, balanceOf (clawd w4) x = balanceOf (clawd w0) x) /\
     getAgentStats (msg_sender envC) (board w4)
     = (completedJobs (statsAt (agentStats (board w0)) (msg_sender envC)),
        disputedJobs (statsAt (agentStats (board w0)) (msg_sender envC)) + 1,
        totalEarned (statsAt (agentStats (board w0)) (msg_sender envC)),
        snd (getAgentStats (msg_sender envC) (board w0)))).
Proof.
  intros Hp Hc.
  destruct (postJob_balances _ _ _ _ _ _ _ _ _ Hp) as (Ht1 & Hj1 & Hb1).
  destruct (claimJob_balances _ _ _ _ _ _ Hj1 Hc) as (Ht2 & price & Hprice & Hj2 & Hb2).
  assert (agentStats (board w2) = agentStats (board w0)) as Hstats.
  { apply postJob_Ok_inv in Hp as (? & _ & _ & _ & _ & _ & _ & _ & _ & ->).
    by apply claimJob_Ok_inv in Hc as (? & ? & ? & _ & _ & _ & _ & _ & _ & _ & ->). }
  split.
  - intros env w3 He.
    apply expireJob_Ok_inv in He as (job2 & tok & _ & Hj2' & _ & _ & _ & Htr & ->).
    rewrite Hj2 in Hj2'. injection Hj2' as <-. simpl in Htr.
    split; [|done]. intros x.
    pose proof (_transfer_balances _ _ _ _ _ Htr x) as Hb3.
    specialize (Hb2 x). specialize (Hb1 x).
    change (@balanceOf ERC20 ERC20_IERC20) with erc20_balanceOf in *.
    simpl in Hb2, Hb3 |- *. rewrite Ht1 in *. rewrite Ht2 in Hb3.
    destruct (x =? msg_sender envP), (x =? this w0); lia.
  - intros envS uri w3 envD w4 Hs Hd.
    apply submitWork_Ok_inv in Hs as (job2 & Hj2' & _ & _ & _ & _ & _ & ->).
    rewrite Hj2 in Hj2'. injection Hj2' as <-.
    apply disputeWork_Ok_inv in Hd as (job3 & tok & _ & Hj3 & _ & _ & Htr & ->).
    cbn [board this clawd] in *.
    rewrite (jobAt_insert _ _ _ _ _ _ Hj2) in Hj3. injection Hj3 as <-.
    simpl in Htr. split.
    + intros x.
      pose proof (_transfer_balances _ _ _ _ _ Htr x) as Hb3.
      specialize (Hb2 x). specialize (Hb1 x).
      change (@balanceOf ERC20 ERC20_IERC20) with erc20_balanceOf in *.
      simpl in Hb2, Hb3 |- *. rewrite Ht1 in *. rewrite Ht2 in Hb3.
      destruct (x =? msg_sender envP), (x =? this w0); lia.
    + unfold getAgentStats. simpl. rewrite !statsAt_insert, Hstats. done.
Qed.

(** The job of the scenarios expired, and disputed: the poster and the
    agent hold what they held on the fresh board, and the agent has one
    disputed job. *)
Lemma unapproved_job_refunds_in_full_witness :
  balanceOf (clawd w_expired) POSTER = balanceOf (clawd genesis) POSTER /\
  balanceOf (clawd w_disputed) POSTER = balanceOf (clawd genesis) POSTER /\
  balanceOf (clawd w_disputed) AGENT = balanceOf (clawd genesis) AGENT /\
  getAgentStats AGENT (board w_disputed) = (0, 1, 0, 0).
Proof.
  destruct (unapproved_job_refunds_in_full genesis w_posted w_claimed
              (mkEnv POSTER 1000) (mkEnv AGENT 1030) "Test" 100 200 60 300 0 21548)
    as [Hexpire Hdispute]; [by vm_compute|by vm_compute|].
  destruct (Hexpire (mkEnv AGENT2 1331) w_expired) as [He _]; [by vm_compute|].
  destruct (Hdispute (mkEnv AGENT 1040) "ipfs://bafkreiexample"%string w_submitted
              (mkEnv POSTER 1050) w_disputed) as [Hd Hstats];
    [by vm_compute|by vm_compute|].
  split; [apply He|]. split; [apply Hd|]. split; [apply Hd|].
  etrans; [exact Hstats|by vm_compute].
Defined.

(** ** The deadline where it fits *)

(** X26: the deadline where it fits.  For a job in status [Claimed] whose
    deadline [claimedAt + workDeadline] fits a [uint256], and every
    timestamp, exactly one of the two time checks passes.  Up to and at the
    deadline the agent's [submitWork] with a non-empty URI succeeds and
    [expireJob], whoever calls it, reverts with ["Deadline not yet passed"].
    After the deadline [submitWork] reverts with ["Work deadline passed"],
    leaving the world as it was and the job [Claimed], and [expireJob]
    passes its checks: it sets the job to [Expired] when the refund
    transfer succeeds. *)
Theorem deadline_boundary {T : Type} `{IERC20 T}
    (w : World T) (jobId : Z) (job : Job) (now : Z) (caller : address)
    (uri : string) :
  _entered (board w) = false ->
  jobAt (board w) jobId = Ok job ->
  status job = Claimed ->
  claimedAt job + workDeadline job <= MAX_UINT256 ->
  (0 < String.length uri)%nat ->
  (now <= claimedAt job + workDeadline job ->
   submitWork (mkEnv (agent job) now) jobId uri w
     = Ok (mkWorld (this w)
             (mkBoard (<[Z.to_nat jobId :=
                           with_submissionURI uri (with_status Submitted job)]>
                         (jobs (board w)))
                      (agentStats (board w)) false)
             (clawd w)) /\
   expireJob (mkEnv caller now) jobId w = Err (Revert "Deadline not yet passed")) /\
  (claimedAt job + workDeadline job < now ->
   submitWork (mkEnv (agent job) now) jobId uri w
     = Err (Revert "Work deadline passed") /\
   transact (mkEnv (agent job) now) (SubmitWork jobId uri) w = w /\
   expireJob (mkEnv caller now) jobId w
     = match transfer (this w) (poster job) (paidAmount job) (clawd w) with
       | Some tok =>
           Ok (mkWorld (this w)
                 (mkBoard (<[Z.to_nat jobId := with_status Expired job]>
                             (jobs (board w)))
                          (agentStats (board w)) false)
                 tok)
       | None => Err TokenCallFailed
       end).
Proof.
  intros Hent Hjob Hst Hfit Huri.
  assert (forall t,
            submitWork (mkEnv (agent job) t) jobId uri w =
            (_ ← require (t <=? claimedAt job + workDeadline job) "Work deadline passed";
             Ok (mkWorld (this w)
                   (mkBoard (<[Z.to_nat jobId :=
                                 with_submissionURI uri (with_status Submitted job)]>
                               (jobs (board w)))
                            (agentStats (board w)) false)
                   (clawd w)))) as Hsub.
  { intros t. rewrite (submitWork_unfold _ jobId w job) by done. simpl.
    rewrite Z.eqb_refl, require_true, bind_Ok.
    rewrite bool_decide_eq_true_2, require_true, bind_Ok by done.
    rewrite (proj2 (Nat.ltb_lt _ _)), require_true, bind_Ok by done.
    by rewrite checked_add_Ok, bind_Ok by done. }
  assert (forall t,
            expireJob (mkEnv caller t) jobId w =
            (_ ← require (claimedAt job + workDeadline job <? t) "Deadline not yet passed";
             tok ← safeTransfer (this w) (poster job) (paidAmount job) (clawd w);
             Ok (mkWorld (this w)
                   (mkBoard (<[Z.to_nat jobId := with_status Expired job]>
                               (jobs (board w)))
                            (agentStats (board w)) false)
                   tok))) as Hexp.
  { intros t. rewrite (expireJob_unfold _ jobId w job) by done. simpl.
    rewrite bool_decide_eq_true_2, require_true, bind_Ok by done.
    by rewrite checked_add_Ok, bind_Ok by done. }
  split.
  - intros Hbefore. rewrite Hsub, Hexp.
    rewrite (proj2 (Z.leb_le _ _)) by done.
    by rewrite (proj2 (Z.ltb_ge _ _)) by done.
  - intros Hafter. unfold transact. simpl. rewrite Hsub, Hexp.
    rewrite (proj2 (Z.leb_gt _ _)) by done.
    rewrite (proj2 (Z.ltb_lt _ _)) by done.
    rewrite require_true, bind_Ok. unfold safeTransfer.
    by destruct (transfer _ _ _ _).
Qed.

(** The job claimed at 1030 with 300 seconds for the work: at 1330 the agent
    still submits and nobody can expire the job. *)
Lemma deadline_boundary_witness :
  (1330 <= 1030 + 300 ->
   is_Ok (submitWork (mkEnv AGENT 1330) 0 "ipfs://bafkreiexample" w_claimed) /\
   expireJob (mkEnv AGENT2 1330) 0 w_claimed = Err (Revert "Deadline not yet passed")) /\
  (1030 + 300 < 1330 ->
   submitWork (mkEnv AGENT 1330) 0 "ipfs://bafkreiexample" w_claimed
     = Err (Revert "Work deadline passed")).
Proof.
  destruct (deadline_boundary w_claimed 0
              (claimed (mkEnv AGENT 1030) 21548 150
                 (posted (mkEnv POSTER 1000) "Test" 100 200 60 300))
              1330 AGENT2 "ipfs://bafkreiexample") as [Hbefore Hafter].
  - by vm_compute.
  - by vm_compute.
  - reflexivity.
  - by vm_compute.
  - simpl; lia.
  - split.
    + intros Hle. destruct (Hbefore Hle) as [Hsub Hexp].
      split; [eexists; exact Hsub | exact Hexp].
    + intros Hlt. exact (proj1 (Hafter Hlt)).
Defined.

(** ** The rounding of the price *)

(** X21: before the end of the auction the price is the linear
    interpolation rounded down: it is at least [minPrice], never above the
    exact value [minPrice + range * elapsed / auctionDuration], and less
    than one unit below it. *)
Theorem price_rounds_down (job : Job) (now p : Z) :
  _getCurrentPrice now job = Ok p ->
  now < auctionStart job + auctionDuration job ->
  minPrice job <= p /\
  (p - minPrice job) * auctionDuration job
  <= (maxPrice job - minPrice job) * (now - auctionStart job)
  < (p - minPrice job + 1) * auctionDuration job.
Proof.
  unfold _getCurrentPrice. intros Hp Hn. result_inv.
  destruct (Z.leb_spec (auctionStart job + auctionDuration job) now); [lia|].
  result_inv.
  set (dur := auctionDuration job) in *.
  set (scaled := (maxPrice job - minPrice job) * (now - auctionStart job)) in *.
  assert (0 < dur) by lia.
  assert (0 <= scaled) by (apply Z.mul_nonneg_nonneg; lia).
  pose proof (Z.mul_div_le scaled dur).
  pose proof (Z.mul_succ_div_gt scaled dur).
  pose proof (Z.div_pos scaled dur).
  replace (minPrice job + scaled / dur - minPrice job) with (scaled / dur) by lia.
  split; [lia|]. split; [lia|]. unfold Z.succ in *. lia.
Qed.

(** The job of 100 to 200 over 60 seconds, 31 seconds into the auction:
    the exact value is 151.66..., the price is 151. *)
Lemma price_rounds_down_witness :
  100 <= 151 /\ (151 - 100) * 60 <= (200 - 100) * (1031 - 1000) < (151 - 100 + 1) * 60.
Proof.
  apply (price_rounds_down job_posted 1031 151); by vm_compute.
Defined.

(** ** The pages of the front end *)

Lemma append_nonempty (s t : string) : t <> EmptyString -> s +:+ t <> EmptyString.
Proof. destruct s; [done|]. by intros _. Qed.

Lemma lastChar_append (s t : string) :
  t <> EmptyString -> lastChar (s +:+ t) = lastChar t.
Proof.
  intros Ht. induction s as [|c s IH]; [done|].
  simpl. pose proof (append_nonempty s t Ht).
  by destruct (s +:+ t).
Qed.

Lemma formatTimeRemaining_lastChar seconds :
  0 < seconds ->
  lastChar (formatTimeRemaining seconds) = Some "m"%char \/
  lastChar (formatTimeRemaining seconds) = Some "s"%char.
Proof.
  intros Hs. unfold formatTimeRemaining.
  rewrite (proj2 (Z.leb_gt _ _)) by done. cbv zeta.
  repeat case_match;
    rewrite ?lastChar_append by (repeat apply append_nonempty; done); auto.
Qed.

(** X22: the countdown of the pages.  For a whole number of seconds up to
    [MAX_SAFE_INTEGER], [formatTimeRemaining] returns ["Expired"] exactly
    when no time is left; otherwise it shows the days, hours, minutes and
    seconds of the number (hours below 24, minutes and seconds below 60,
    adding up to the number), starting at the first part that is not zero
    and leaving out the seconds once there are days. *)
Theorem formatTimeRemaining_fields (seconds : Z) :
  seconds <= MAX_SAFE_INTEGER ->
  (formatTimeRemaining seconds = "Expired" <-> seconds <= 0) /\
  (0 < seconds ->
   exists d h m s,
     seconds = 86400 * d + 3600 * h + 60 * m + s /\
     0 <= d /\ 0 <= h < 24 /\ 0 <= m < 60 /\ 0 <= s < 60 /\
     formatTimeRemaining seconds
     = if 0 <? d then pretty d +:+ "d " +:+ pretty h +:+ "h " +:+ pretty m +:+ "m"
       else if 0 <? h
            then pretty h +:+ "h " +:+ pretty m +:+ "m " +:+ pretty s +:+ "s"
            else if 0 <? m then pretty m +:+ "m " +:+ pretty s +:+ "s"
                 else pretty s +:+ "s").
Proof.
  intros _. split; [split|].
  - intros Heq. destruct (Z.le_gt_cases seconds 0) as [|Hpos]; [done|].
    destruct (formatTimeRemaining_lastChar seconds Hpos) as [Hl|Hl];
      rewrite Heq in Hl; discriminate.
  - intros Hle. unfold formatTimeRemaining. by rewrite (proj2 (Z.leb_le _ _)).
  - intros Hpos.
    exists (seconds / 86400), ((seconds mod 86400) / 3600),
           ((seconds mod 3600) / 60), (seconds mod 60).
    pose proof (Z.div_mod seconds 86400).
    pose proof (Z.mod_pos_bound seconds 86400).
    pose proof (Z.div_mod (seconds mod 86400) 3600).
    pose proof (Z.mod_pos_bound (seconds mod 86400) 3600).
    pose proof (Z.div_mod seconds 3600).
    pose proof (Z.mod_pos_bound seconds 3600).
    pose proof (Z.div_mod (seconds mod 3600) 60).
    pose proof (Z.mod_pos_bound (seconds mod 3600) 60).
    pose proof (Z.div_mod seconds 60).
    pose proof (Z.mod_pos_bound seconds 60).
    assert (0 <= seconds / 86400) by (apply Z.div_pos; lia).
    assert (0 <= seconds mod 86400 / 3600 < 24).
    { split; [apply Z.div_pos; lia|apply Z.div_lt_upper_bound; lia]. }
    assert (0 <= seconds mod 3600 / 60 < 60).
    { split; [apply Z.div_pos; lia|apply Z.div_lt_upper_bound; lia]. }
    assert ((seconds mod 86400) mod 3600 = seconds mod 3600) as Hm1.
    { apply Z.mod_mod_divide. exists 24. lia. }
    assert ((seconds mod 3600) mod 60 = seconds mod 60) as Hm2.
    { apply Z.mod_mod_divide. exists 60. lia. }
    split; [lia|]. split; [done|]. split; [done|]. split; [done|].
    split; [lia|].
    unfold formatTimeRemaining. by rewrite (proj2 (Z.leb_gt _ _)) by done.
Qed.

(** One day, two hours, three minutes and four seconds; one hour, two
    minutes and three seconds; 59 seconds; and no time left. *)
Lemma formatTimeRemaining_fields_witness :
  formatTimeRemaining 93784 = "1d 2h 3m"%string /\
  formatTimeRemaining 3723 = "1h 2m 3s"%string /\
  formatTimeRemaining 59 = "59s"%string /\
  (formatTimeRemaining 0 = "Expired"%string <-> 0 <= 0) /\
  (formatTimeRemaining 93784 = "Expired"%string <-> 93784 <= 0).
Proof.
  destruct (formatTimeRemaining_fields 0) as [Hzero _]; [by vm_compute|].
  destruct (formatTimeRemaining_fields 93784) as [Hday _]; [by vm_compute|].
  split; [by vm_compute|]. split; [by vm_compute|]. split; [by vm_compute|].
  split; [exact Hzero|exact Hday].
Defined.

(** X23: the tabs of the home page against the contract.  For an existing
    job, read through [getJobCore], the card is rendered under "all"
    whatever its status, under "open", "claimed" and "completed" exactly
    when the status is [Open], [Claimed] and [Completed]; a [Submitted],
    [Disputed], [Expired] or [Cancelled] job shows under "all" only.  Every
    status has a label in [JOB_STATUS_LABELS], and no two statuses share
    one. *)
Theorem home_page_tabs_follow_status (b : Board) (jobId : Z) (job : Job)
    (filter : Filter) :
  jobAt b jobId = Ok job ->
  (FilteredJobCard filter (readContract (getJobCore jobId b)) = true <->
   match filter with
   | FilterAll => True
   | FilterOpen => status job = Open
   | FilterClaimed => status job = Claimed
   | FilterCompleted => status job = Completed
   end) /\
  (exists label, JOB_STATUS_LABELS (statusNum (status job)) = Some label) /\
  (forall s, JOB_STATUS_LABELS (statusNum s)
             = JOB_STATUS_LABELS (statusNum (status job)) -> s = status job).
Proof.
  intros Hj. unfold getJobCore. rewrite Hj. simpl.
  split; [|split].
  - destruct filter, (status job); simpl; split; done.
  - destruct (status job); simpl; by eexists.
  - intros s. destruct s, (status job); simpl; done.
Qed.

(** The completed job shows under "completed"; the disputed one does
    not. *)
Lemma home_page_tabs_follow_status_witness :
  FilteredJobCard FilterCompleted (readContract (getJobCore 0 (board w_completed)))
  = true /\
  FilteredJobCard FilterCompleted (readContract (getJobCore 0 (board w_disputed)))
  = false /\
  JOB_STATUS_LABELS (statusNum Disputed) = Some "Disputed"%string.
Proof.
  destruct (home_page_tabs_follow_status (board w_completed) 0
              (with_rating 90 (with_status Completed job_submitted)) FilterCompleted)
    as [Hshown _]; [by vm_compute|].
  destruct (home_page_tabs_follow_status (board w_disputed) 0
              (with_status Disputed job_submitted) FilterCompleted)
    as [Hhidden _]; [by vm_compute|].
  split; [by apply Hshown|]. split; [|by vm_compute].
  apply not_true_is_false. intros Hcard. by apply Hhidden in Hcard.
Defined.




(** X25: the countdown of the work deadline on the page of a job against
    the contract.  For a [Claimed] job, with the times within
    [MAX_SAFE_INTEGER] and the clock of the page at the block timestamp,
    the page shows ["Expired"] from the second [claimedAt + workDeadline]
    on; the agent's [submitWork] succeeds up to and including that second,
    and [expireJob] is refused with ["Deadline not yet passed"] up to and
    including it.  At the second of the deadline itself the page says
    ["Expired"] while the contract still takes the submission and refuses
    the expiry. *)
Theorem work_countdown_against_deadline {T : Type} `{IERC20 T}
    (w : World T) (jobId : Z) (job : Job) (now : Z) (caller : address)
    (uri : string) :
  _entered (board w) = false ->
  jobAt (board w) jobId = Ok job ->
  status job = Claimed ->
  0 < claimedAt job ->
  0 < workDeadline job ->
  claimedAt job + workDeadline job <= MAX_SAFE_INTEGER ->
  0 <= now <= MAX_SAFE_INTEGER ->
  (0 < String.length uri)%nat ->
  (formatTimeRemaining
     (workTimeRemaining (readContract (getJobAgent jobId (board w)))
                        (workDeadline job) now)
   = "Expired"%string
   <-> claimedAt job + workDeadline job <= now) /\
  (is_Ok (submitWork (mkEnv (agent job) now) jobId uri w)
   <-> now <= claimedAt job + workDeadline job) /\
  (expireJob (mkEnv caller now) jobId w = Err (Revert "Deadline not yet passed")
   <-> now <= claimedAt job + workDeadline job).
Proof.
  intros Hent Hj Hst Hat Hwd Hsafe _ Huri.
  assert (claimedAt job + workDeadline job <= MAX_UINT256) as Hfit.
  { unfold MAX_SAFE_INTEGER, MAX_UINT256 in *. lia. }
  split; [|split].
  - unfold getJobAgent. rewrite Hj. simpl. unfold workTimeRemaining.
    rewrite (proj2 (Z.ltb_lt _ _) Hat).
    rewrite (proj2 (Z.ltb_lt _ _)) by lia.
    split.
    + intros Heq.
      destruct (Z.le_gt_cases (claimedAt job + workDeadline job) now) as [|Hlt];
        [done|].
      destruct (formatTimeRemaining_lastChar
                  (claimedAt job + workDeadline job - now)) as [Hl|Hl];
        [lia|rewrite Heq in Hl; discriminate..].
    + intros Hle. unfold formatTimeRemaining.
      by rewrite (proj2 (Z.leb_le _ _)) by lia.
  - rewrite (submitWork_unfold _ jobId w job) by done. simpl.
    rewrite Z.eqb_refl, require_true, bind_Ok.
    rewrite bool_decide_eq_true_2, require_true, bind_Ok by done.
    rewrite (proj2 (Nat.ltb_lt _ _)), require_true, bind_Ok by done.
    rewrite checked_add_Ok, bind_Ok by done.
    destruct (Z.leb_spec now (claimedAt job + workDeadline job)) as [Hle|Hgt].
    + split; [done|]. intros _. by eexists.
    + split; [|lia]. by intros [? ?].
  - rewrite (expireJob_unfold _ jobId w job) by done. simpl.
    rewrite bool_decide_eq_true_2, require_true, bind_Ok by done.
    rewrite checked_add_Ok, bind_Ok by done.
    destruct (Z.ltb_spec (claimedAt job + workDeadline job) now) as [Hlt|Hge].
    + split; [|lia]. rewrite require_true, bind_Ok. unfold safeTransfer.
      by destruct (transfer _ _ _ _).
    + split; [done|]. by intros _.
Qed.

(** The job claimed at 1030 with 300 seconds for the work, at 1330: the
    page shows "Expired", the agent can still submit and nobody can expire
    the job; one second earlier the page shows one second left. *)
Lemma work_countdown_against_deadline_witness :
  formatTimeRemaining
    (workTimeRemaining (readContract (getJobAgent 0 (board w_claimed))) 300 1330)
  = "Expired"%string /\
  is_Ok (submitWork (mkEnv AGENT 1330) 0 "ipfs://bafkreiexample" w_claimed) /\
  expireJob (mkEnv AGENT2 1330) 0 w_claimed = Err (Revert "Deadline not yet passed") /\
  formatTimeRemaining
    (workTimeRemaining (readContract (getJobAgent 0 (board w_claimed))) 300 1329)
  = "1s"%string.
Proof.
  destruct (work_countdown_against_deadline w_claimed 0 job_claimed 1330 AGENT2
              "ipfs://bafkreiexample")
    as ([_ Hshown] & [_ Hsubmit] & [_ Hexpire]).
  { by vm_compute. }
  { by vm_compute. }
  { done. }
  { by vm_compute. }
  { by vm_compute. }
  { by vm_compute. }
  { unfold MAX_SAFE_INTEGER. lia. }
  { simpl. lia. }
  split; [apply Hshown; by vm_compute|].
  split; [apply Hsubmit; by vm_compute|].
  split; [apply Hexpire; by vm_compute|].
  by vm_compute.
Defined.
